(** * TS3D: matrix kernels and pinhole camera

    A shallow embedding of [matrix.ts] and [camera.ts].

    JavaScript numbers and [Float32Array] elements are kept abstract (class
    [Scalar]): a kernel is a sequence of reads, arithmetic and rounding
    stores, and most properties of the kernels do not depend on any law of
    floating-point arithmetic.  Typed arrays are views onto a store of
    [ArrayBuffer]s, so that two matrices built on one buffer alias.

    The matrix functions are those of the later revision of [matrix.ts],
    where the output argument is optional and the result is returned;
    [camera.ts] calls them with an output, for which the earlier revision
    has the same statements. *)

From Stdlib Require Import ZArith QArith Reals Lra.
From stdpp Require Import base list strings.

Local Open Scope Z_scope.

(** ** Numbers *)

(** [num] is a JavaScript number (binary64), [f32] an element of a
    [Float32Array] (binary32).  [fround] is the rounding performed by every
    store into a [Float32Array]; [widen] is the exact conversion performed by
    every read.  The only law is that a value read from a [Float32Array] is
    stored back unchanged. *)
Class Scalar := {
  num : Type;
  f32 : Type;
  fround : num -> f32;
  widen : f32 -> num;
  fround_widen : forall x : f32, fround (widen x) = x;
  nan : num;                      (* ToNumber(undefined) *)
  of_Z : Z -> num;                (* an integer literal *)
  half : num;                     (* the literal 0.5 *)
  add : num -> num -> num;
  mul : num -> num -> num;
  div : num -> num -> num;
  neg : num -> num;               (* unary minus *)
  gtb : num -> num -> bool;       (* > *)
  Math_cos : num -> num;
  Math_sin : num -> num;
  Math_tan : num -> num;
  Math_acos : num -> num;
  Math_atan : num -> num;
  Math_max : num -> num -> num;
  Math_hypot3 : num -> num -> num -> num
}.

Declare Scope num_scope.
Delimit Scope num_scope with num.
Infix "+" := add : num_scope.
Infix "*" := mul : num_scope.
Infix "/" := div : num_scope.
Notation "- x" := (neg x) : num_scope.

(** [enum Axis] of camera.ts *)
Module Axis.
Inductive t := X | Y | Z.
End Axis.

(** ** Numbers as dimensions and positions

    A dimension, a row or a column passed to the library is any JavaScript
    number: a finite one, NaN or an infinity.  A finite number is kept as
    the rational it is, and the sums and products of positions are exact,
    as they are in the code on integers and on the halves and quarters of
    small magnitude.  Negative zero is zero: no test and no index of the
    code tells them apart. *)
Inductive number :=
| Finite (q : Q)
| NaN
| Infinity (negative : bool).

(** An integer as a number: the loop counters, the literals and the
    dimensions kept by a [Matrix]. *)
Definition int (z : Z) : number := Finite (inject_Z z).
Coercion int : Z >-> number.

(** [a < b], [a <= b] and [a >= b]: false when an operand is NaN. *)
Definition lt_num (a b : number) : bool :=
  match a, b with
  | Finite x, Finite y => negb (Qle_bool y x)
  | Finite _, Infinity negative => negb negative
  | Infinity negative, Finite _ => negative
  | Infinity n1, Infinity n2 => n1 && negb n2
  | _, _ => false
  end.

Definition le_num (a b : number) : bool :=
  match a, b with
  | Finite x, Finite y => Qle_bool x y
  | Finite _, Infinity negative => negb negative
  | Infinity negative, Finite _ => negative
  | Infinity n1, Infinity n2 => n1 || negb n2
  | _, _ => false
  end.

Definition ge_num (a b : number) : bool := le_num b a.

(** [(a % 1) != 0]: the remainder of NaN or of an infinity is NaN, which
    differs from 0. *)
Definition mod1_nonzero (a : number) : bool :=
  match a with
  | Finite q => negb (Qnum q mod Zpos (Qden q) =? 0)
  | _ => true
  end.

(** [a + b] and [a * b]. *)
Definition add_num (a b : number) : number :=
  match a, b with
  | Finite x, Finite y => Finite (Qplus x y)
  | Finite _, Infinity n => Infinity n
  | Infinity n, Finite _ => Infinity n
  | Infinity n1, Infinity n2 => if Bool.eqb n1 n2 then Infinity n1 else NaN
  | _, _ => NaN
  end.

Definition mul_num (a b : number) : number :=
  match a, b with
  | Finite x, Finite y => Finite (Qmult x y)
  | Finite x, Infinity n | Infinity n, Finite x =>
      if Qnum x =? 0 then NaN else Infinity (xorb n (Qnum x <? 0))
  | Infinity n1, Infinity n2 => Infinity (xorb n1 n2)
  | _, _ => NaN
  end.

(** The integer that a number is, if it is one: it is then an integer
    index of a typed array. *)
Definition index_of (a : number) : option Z :=
  match a with
  | Finite q =>
      if Qnum q mod Zpos (Qden q) =? 0 then Some (Qnum q / Zpos (Qden q))
      else None
  | _ => None
  end.

(** The value kept of a number that has passed an integrality test. *)
Definition to_Z (a : number) : Z := default 0 (index_of a).

(** [a] is the integer [z]. *)
Definition is_int (a : number) (z : Z) : Prop := index_of a = Some z.

(** ** The buffer store and [Float32Array] views *)

(** An [ArrayBuffer] that is only ever viewed through [Float32Array]s is a
    sequence of 4-byte slots; the store lists the allocated buffers, a buffer
    is named by its position. *)
Abbreviation heap := (list (list f32)).

Section TS3D.
Context `{Scalar}.

(** A [Float32Array]: its buffer, the first slot and the number of slots
    ([byteOffset] is always a multiple of 4 for a [Float32Array]). *)
Record Float32Array := mkF32 {
  buffer : nat;
  slotOffset : nat;
  length32 : nat
}.

Definition byteOffset (v : Float32Array) : Z := 4 * Z.of_nat (slotOffset v).
Definition byteLength (v : Float32Array) : Z := 4 * Z.of_nat (length32 v).
Definition arr_length (v : Float32Array) : Z := Z.of_nat (length32 v).

Definition in_range (v : Float32Array) (i : Z) : bool :=
  (0 <=? i) && (i <? arr_length v).

Definition slot (v : Float32Array) (i : Z) : nat :=
  (slotOffset v + Z.to_nat i)%nat.

(** [v[i]] as an expression: [undefined] ([None]) outside the view. *)
Definition aget (h : heap) (v : Float32Array) (i : Z) : option f32 :=
  if in_range v i then
    match h !! buffer v with
    | Some b => b !! slot v i
    | None => None
    end
  else None.

(** [v[i]] used as a number. *)
Definition rd (h : heap) (v : Float32Array) (i : Z) : num :=
  match aget h v i with
  | Some x => widen x
  | None => nan
  end.

(** [v[i] = x]: rounds; a write outside the view (negative index included)
    is discarded. *)
Definition aset (v : Float32Array) (i : Z) (x : num) (h : heap) : heap :=
  if in_range v i then
    alter (fun b => <[slot v i := fround x]> b) (buffer v) h
  else h.

(** [v[a]] and [v[a] = x] for a number [a]: a number that is not an integer
    names no element; the read is [undefined], the write is discarded. *)
Definition aget_at (h : heap) (v : Float32Array) (a : number) : option f32 :=
  match index_of a with
  | Some i => aget h v i
  | None => None
  end.

Definition rd_at (h : heap) (v : Float32Array) (a : number) : num :=
  match aget_at h v a with
  | Some x => widen x
  | None => nan
  end.

Definition aset_at (v : Float32Array) (a : number) (x : num) (h : heap) : heap :=
  match index_of a with
  | Some i => aset v i x h
  | None => h
  end.

(** [new Float32Array(n)]: a fresh zero-filled buffer.  The allocation is
    taken to succeed. *)
Definition new_Float32Array (n : Z) (h : heap) : Float32Array * heap :=
  (mkF32 (length h) 0 (Z.to_nat n),
   h ++ [replicate (Z.to_nat n) (fround (of_Z 0))]).

(** [new Float32Array([x0, x1, ...])]. *)
Definition Float32Array_from (l : list num) (h : heap) : Float32Array * heap :=
  (mkF32 (length h) 0 (length l), h ++ [fround <$> l]).

(** The slots seen through a view. *)
Definition contents (h : heap) (v : Float32Array) : list f32 :=
  match h !! buffer v with
  | Some b => take (length32 v) (drop (slotOffset v) b)
  | None => []
  end.

(** A view lies inside its buffer. *)
Definition valid (h : heap) (v : Float32Array) : Prop :=
  exists b, h !! buffer v = Some b /\ (slotOffset v + length32 v <= length b)%nat.

(** Two views share no slot. *)
Definition view_disjoint (v w : Float32Array) : Prop :=
  buffer v <> buffer w
  \/ (slotOffset v + length32 v <= slotOffset w)%nat
  \/ (slotOffset w + length32 w <= slotOffset v)%nat.


(** ** Effects: the store is threaded, a [throw] carries the store it left *)

Inductive outcome (A : Type) : Type :=
| Ret (a : A) (h : heap)
| Throw (msg : string) (h : heap).
Global Arguments Ret {A} a h.
Global Arguments Throw {A} msg h.

Definition M (A : Type) : Type := heap -> outcome A.

Definition ret {A} (a : A) : M A := fun h => Ret a h.
Definition throw {A} (msg : string) : M A := fun h => Throw msg h.
Definition bind {A B} (m : M A) (k : A -> M B) : M B :=
  fun h => match m h with
           | Ret a h' => k a h'
           | Throw msg h' => Throw msg h'
           end.
(** A statement that cannot throw. *)
Definition exec (f : heap -> heap) : M unit := fun h => Ret tt (f h).
(** An expression that reads the store. *)
Definition eval {A} (f : heap -> A) : M A := fun h => Ret (f h) h.
(** An allocation. *)
Definition alloc {A} (f : heap -> A * heap) : M A :=
  fun h => let (a, h') := f h in Ret a h'.

Notation "x <- m ;; k" := (bind m (fun x => k))
  (at level 100, m at next level, right associativity).
Notation "m ;; k" := (bind m (fun _ => k))
  (at level 100, right associativity).
(** Statement sequencing on the store alone. *)
Definition then_ (f g : heap -> heap) : heap -> heap := fun h => g (f h).
Infix ";>" := then_ (at level 60, right associativity).

(** A [for] loop over the successive values of its index. *)
Definition for_each (idx : list Z) (body : Z -> heap -> heap) (h : heap) : heap :=
  foldl (fun h i => body i h) h idx.

Fixpoint for_eachM (idx : list Z) (body : Z -> M unit) : M unit :=
  match idx with
  | [] => ret tt
  | i :: rest => body i ;; for_eachM rest body
  end.

(** The indices visited by [for (i = 0; i < n; i += 4)]. *)
Definition offsets4 (n : Z) : list Z :=
  (fun k => 4 * k) <$> seqZ 0 ((n + 3) / 4).

(** The indices visited by [for (i = 0; i < n; ++i)]. *)
Definition upto (n : Z) : list Z := seqZ 0 n.

(** ** class Matrix *)

(** [number[] | Float32Array] *)
Inductive NumArray :=
| JsArray (l : list num)
| TypedArray (v : Float32Array).

Definition na_length (a : NumArray) : Z :=
  match a with
  | JsArray l => Z.of_nat (length l)
  | TypedArray v => arr_length v
  end.

Definition na_get (h : heap) (a : NumArray) (i : Z) : num :=
  match a with
  | JsArray l => if 0 <=? i then default nan (l !! Z.to_nat i) else nan
  | TypedArray v => rd h v i
  end.

(** A [Matrix] keeps the dimensions that passed the constructor's tests:
    they are integers. *)
Record Matrix := mkMatrix {
  row_count : Z;
  col_count : Z;
  arr : Float32Array
}.

Definition new_Matrix (rows cols : number) (view : option Float32Array)
    : M Matrix :=
  if lt_num rows 1 || mod1_nonzero rows || lt_num cols 1 || mod1_nonzero cols then
    throw "Matrix dims must be integer > 0."%string
  else
    let row_count := to_Z rows in
    let col_count := to_Z cols in
    match view with
    | Some v =>
        if arr_length v =? row_count * col_count
        then ret (mkMatrix row_count col_count v)
        else throw "Provided view length does not fit matrix dims."%string
    | None =>
        a <- alloc (new_Float32Array (row_count * col_count)) ;;
        ret (mkMatrix row_count col_count a)
    end.

(** What the constructor guarantees of every [Matrix]. *)
Definition wf_Matrix (m : Matrix) : Prop :=
  1 <= row_count m /\ 1 <= col_count m
  /\ arr_length (arr m) = row_count m * col_count m.

Definition rows (m : Matrix) : Z := row_count m.
Definition cols (m : Matrix) : Z := col_count m.

Definition out_of_dims (m : Matrix) (row col : number) : bool :=
  lt_num row 0 || ge_num row (row_count m)
  || lt_num col 0 || ge_num col (col_count m).

(** The element expression of [get] and [set]:
    [this.arr[row + col * this.row_count]]. *)
Definition position (m : Matrix) (row col : number) : number :=
  add_num row (mul_num col (row_count m)).

(** [get] returns the element read; [undefined] is returned as the number
    it becomes in arithmetic. *)
Definition get (m : Matrix) (row col : number) : M num :=
  if out_of_dims m row col then
    throw "Requested element outside matrix dims."%string
  else eval (fun h => rd_at h (arr m) (position m row col)).

Definition set (m : Matrix) (row col : number) (val : num) : M unit :=
  if out_of_dims m row col then
    throw "Requested element outside matrix dims."%string
  else exec (aset_at (arr m) (position m row col) val).

(** The message of [set_column] is a template literal that runs over two
    lines. *)
Definition msg_set_column : string :=
  String.append "Requested column outside matrix dims or"
    (String (Ascii.ascii_of_nat 10)
       (String.append "                " "column vec dims do not match.")).

Definition set_column (m : Matrix) (column : number) (values : NumArray)
    : M unit :=
  if negb (row_count m =? na_length values) || ge_num column (col_count m) then
    throw msg_set_column
  else
    exec (for_each (upto (row_count m)) (fun i h =>
            aset_at (arr m) (add_num i (mul_num column (row_count m)))
                    (na_get h values i) h)).

Definition set_all (m : Matrix) (vals : NumArray) : M unit :=
  if negb (na_length vals =? row_count m * col_count m) then
    throw "Provided vals length does not match matrix size."%string
  else
    exec (for_each (upto (na_length vals)) (fun i h =>
            aset (arr m) i (na_get h vals i) h)).

(** [Matrix4xN], [Matrix4x4] and [Matrix4x1] are [Matrix] objects made by
    these constructors. *)
Definition new_Matrix4xN (cols : number) (view : option Float32Array)
    : M Matrix :=
  if le_num cols 0 || mod1_nonzero cols then
    throw "Matrix4xN must have positive integer number of cols."%string
  else new_Matrix 4 cols view.

Definition new_Matrix4x4 (view : option Float32Array) : M Matrix :=
  new_Matrix4xN 4 view.

Definition new_Matrix4x1 (view : option Float32Array) : M Matrix :=
  new_Matrix4xN 1 view.

Definition is_Matrix4xN (m : Matrix) : Prop :=
  row_count m = 4 /\ 0 < col_count m /\ arr_length (arr m) = 4 * col_count m.
Definition is_Matrix4x4 (m : Matrix) : Prop :=
  row_count m = 4 /\ col_count m = 4 /\ arr_length (arr m) = 16.
Definition is_Matrix4x1 (m : Matrix) : Prop :=
  row_count m = 4 /\ col_count m = 1 /\ arr_length (arr m) = 4.

(** An optional output argument: [undefined] makes a fresh matrix. *)
Definition or_new (out : option Matrix) (mk : M Matrix) : M Matrix :=
  match out with
  | Some m => ret m
  | None => mk
  end.

Definition same_view (A B : Float32Array) : bool :=
  Nat.eqb (buffer A) (buffer B)
  && (byteOffset A =? byteOffset B)
  && (byteLength A =? byteLength B).

Definition dot3 (h : heap) (A B : Matrix) : num :=
  (rd h (arr A) 0 * rd h (arr B) 0 + rd h (arr A) 1 * rd h (arr B) 1
   + rd h (arr A) 2 * rd h (arr B) 2)%num.

Definition norm3 (h : heap) (A : Matrix) : num :=
  Math_hypot3 (rd h (arr A) 0) (rd h (arr A) 1) (rd h (arr A) 2).


(** ** Rotation builders *)

Definition get_rot_x (rad : num) (out : option Matrix) : M Matrix :=
  out <- or_new out (new_Matrix4x4 None) ;;
  let c := Math_cos rad in
  let s := Math_sin rad in
  exec (aset (arr out) 0 (of_Z 1) ;>
        aset (arr out) 1 (of_Z 0) ;>
        aset (arr out) 2 (of_Z 0) ;>
        aset (arr out) 3 (of_Z 0) ;>
        aset (arr out) 4 (of_Z 0) ;>
        aset (arr out) 5 c ;>
        aset (arr out) 6 s ;>
        aset (arr out) 7 (of_Z 0) ;>
        aset (arr out) 8 (of_Z 0) ;>
        aset (arr out) 9 (- s)%num ;>
        aset (arr out) 10 c ;>
        aset (arr out) 11 (of_Z 0) ;>
        aset (arr out) 12 (of_Z 0) ;>
        aset (arr out) 13 (of_Z 0) ;>
        aset (arr out) 14 (of_Z 0) ;>
        aset (arr out) 15 (of_Z 1)) ;;
  ret out.

Definition get_rot_y (rad : num) (out : option Matrix) : M Matrix :=
  out <- or_new out (new_Matrix4x4 None) ;;
  let c := Math_cos rad in
  let s := Math_sin rad in
  exec (aset (arr out) 0 c ;>
        aset (arr out) 1 (of_Z 0) ;>
        aset (arr out) 2 (- s)%num ;>
        aset (arr out) 3 (of_Z 0) ;>
        aset (arr out) 4 (of_Z 0) ;>
        aset (arr out) 5 (of_Z 1) ;>
        aset (arr out) 6 (of_Z 0) ;>
        aset (arr out) 7 (of_Z 0) ;>
        aset (arr out) 8 s ;>
        aset (arr out) 9 (of_Z 0) ;>
        aset (arr out) 10 c ;>
        aset (arr out) 11 (of_Z 0) ;>
        aset (arr out) 12 (of_Z 0) ;>
        aset (arr out) 13 (of_Z 0) ;>
        aset (arr out) 14 (of_Z 0) ;>
        aset (arr out) 15 (of_Z 1)) ;;
  ret out.

Definition get_rot_z (rad : num) (out : option Matrix) : M Matrix :=
  out <- or_new out (new_Matrix4x4 None) ;;
  let c := Math_cos rad in
  let s := Math_sin rad in
  exec (aset (arr out) 0 c ;>
        aset (arr out) 1 s ;>
        aset (arr out) 2 (of_Z 0) ;>
        aset (arr out) 3 (of_Z 0) ;>
        aset (arr out) 4 (- s)%num ;>
        aset (arr out) 5 c ;>
        aset (arr out) 6 (of_Z 0) ;>
        aset (arr out) 7 (of_Z 0) ;>
        aset (arr out) 8 (of_Z 0) ;>
        aset (arr out) 9 (of_Z 0) ;>
        aset (arr out) 10 (of_Z 1) ;>
        aset (arr out) 11 (of_Z 0) ;>
        aset (arr out) 12 (of_Z 0) ;>
        aset (arr out) 13 (of_Z 0) ;>
        aset (arr out) 14 (of_Z 0) ;>
        aset (arr out) 15 (of_Z 1)) ;;
  ret out.

Definition I4x4_vals : list num :=
  of_Z <$> [1; 0; 0; 0;  0; 1; 0; 0;  0; 0; 1; 0;  0; 0; 0; 1].

Definition getI4x4 (view : option Float32Array) : M Matrix :=
  out <- new_Matrix4x4 view ;;
  set_all out (JsArray I4x4_vals) ;;
  ret out.

(** ** Copies *)

(** [dst.arr[index] = src.arr[index]] *)
Definition copy_elem (dst : Float32Array) (i : Z) (src : Float32Array) (j : Z)
    (h : heap) : heap :=
  aset dst i (rd h src j) h.

Definition copy_loop (src dst : Matrix) : heap -> heap :=
  for_each (upto (arr_length (arr src)))
           (fun index => copy_elem (arr dst) index (arr src) index).

(** [copy4xN] is the only copy that compares the column counts. *)
Definition copy4xN (src : Matrix) (dst : option Matrix) : M Matrix :=
  dst <- match dst with
         | None => new_Matrix4xN (cols src) None
         | Some dst =>
             if negb (cols dst =? cols src) then
               throw "Provided dst dims do not match src dims"%string
             else ret dst
         end ;;
  exec (copy_loop src dst) ;;
  ret dst.

Definition copy4x4 (src : Matrix) (dst : option Matrix) : M Matrix :=
  dst <- or_new dst (new_Matrix4x4 None) ;;
  exec (copy_loop src dst) ;;
  ret dst.

Definition copy4x1 (src : Matrix) (dst : option Matrix) : M Matrix :=
  dst <- or_new dst (new_Matrix4x1 None) ;;
  exec (copy_loop src dst) ;;
  ret dst.

(** ** Fast multiply kernels *)

(** [A.arr[r]*B.arr[off] + A.arr[r+4]*B.arr[off+1] + A.arr[r+8]*B.arr[off+2]
     + A.arr[r+12]*B.arr[off+3]], stored into the scratch
    [Float32Array swp], hence rounded. *)
Definition dot_row (h : heap) (A B : Float32Array) (r off : Z) : f32 :=
  fround (rd h A r * rd h B (off + 0)
          + rd h A (r + 4) * rd h B (off + 1)
          + rd h A (r + 8) * rd h B (off + 2)
          + rd h A (r + 12) * rd h B (off + 3))%num.

(** One column: the four sums go to [swp[0..3]] first, then [swp] is copied
    to [C.arr[off..off+3]].  [swp] is local to the call and is kept as four
    [f32] values rather than as a buffer of the store. *)
Definition mul_column (A B C : Float32Array) (off : Z) (h : heap) : heap :=
  let swp0 := dot_row h A B 0 off in
  let swp1 := dot_row h A B 1 off in
  let swp2 := dot_row h A B 2 off in
  let swp3 := dot_row h A B 3 off in
  (aset C off (widen swp0) ;>
   aset C (off + 1) (widen swp1) ;>
   aset C (off + 2) (widen swp2) ;>
   aset C (off + 3) (widen swp3)) h.

Definition msg_alias_A : string :=
  "Cannot modify Matrix A in place, only B can be modified in place".

Definition multiply4x4_4xN (A B : Matrix) (C : option Matrix) : M Matrix :=
  C <- or_new C (new_Matrix4xN (cols B) None) ;;
  if same_view (arr A) (arr C) then throw msg_alias_A
  else if negb (cols B =? cols C) then
    throw "Matrices B and C must have same column count"%string
  else
    exec (for_each (offsets4 (arr_length (arr B)))
                   (mul_column (arr A) (arr B) (arr C))) ;;
    ret C.

Definition multiply4x4_4x4 (A B : Matrix) (C : option Matrix) : M Matrix :=
  C <- or_new C (new_Matrix4x4 None) ;;
  if same_view (arr A) (arr C) then throw msg_alias_A
  else
    exec (mul_column (arr A) (arr B) (arr C) 0 ;>    (* Column 0 *)
          mul_column (arr A) (arr B) (arr C) 4 ;>    (* Column 1 *)
          mul_column (arr A) (arr B) (arr C) 8 ;>    (* Column 2 *)
          mul_column (arr A) (arr B) (arr C) 12) ;;  (* Column 3 *)
    ret C.

Definition multiply4x4_4x1 (A B : Matrix) (C : option Matrix) : M Matrix :=
  C <- or_new C (new_Matrix4x1 None) ;;
  if same_view (arr A) (arr C) then throw msg_alias_A
  else
    exec (mul_column (arr A) (arr B) (arr C) 0) ;;
    ret C.

(** ** Generic multiply *)

Definition msg_in_place : string := "Cannot modify Matrix arg in place.".

(** The innermost loop: [swp += A.get(row, k) * B.get(k, col)]. *)
Fixpoint multiply_sum (A B : Matrix) (row col : Z) (ks : list Z) (swp : num)
    : M num :=
  match ks with
  | [] => ret swp
  | k :: ks' =>
      a <- get A row k ;;
      b <- get B k col ;;
      multiply_sum A B row col ks' (swp + a * b)%num
  end.

Definition multiply (A B : Matrix) (C : option Matrix) : M Matrix :=
  C <- or_new C (new_Matrix (rows A) (cols B) None) ;;
  if same_view (arr A) (arr C) || same_view (arr B) (arr C) then
    throw msg_in_place
  else if negb (cols A =? rows B) || negb (rows A =? rows C)
          || negb (cols B =? cols C) then
    throw "matrix dims incorrect - cannot multiply"%string
  else
    for_eachM (upto (rows A)) (fun row =>
      for_eachM (upto (cols B)) (fun col =>
        swp <- multiply_sum A B row col (upto (cols A)) (of_Z 0) ;;
        set C row col swp)) ;;
    ret C.

(** ** Transpose *)

Definition transpose_into (A C : Float32Array) : heap -> heap :=
  copy_elem C 0 A 0 ;>
  copy_elem C 1 A 4 ;>
  copy_elem C 2 A 8 ;>
  copy_elem C 3 A 12 ;>
  copy_elem C 4 A 1 ;>
  copy_elem C 5 A 5 ;>
  copy_elem C 6 A 9 ;>
  copy_elem C 7 A 13 ;>
  copy_elem C 8 A 2 ;>
  copy_elem C 9 A 6 ;>
  copy_elem C 10 A 10 ;>
  copy_elem C 11 A 14 ;>
  copy_elem C 12 A 3 ;>
  copy_elem C 13 A 7 ;>
  copy_elem C 14 A 11 ;>
  copy_elem C 15 A 15.

(** The in-place branch: transpose into a scratch matrix, then copy back. *)
Definition transpose_in_place (A : Matrix) : M unit :=
  swp <- new_Matrix4x4 None ;;
  exec (transpose_into (arr A) (arr swp)) ;;
  set_all A (TypedArray (arr swp)).

Definition transpose4x4 (A : Matrix) (C : option Matrix) : M unit :=
  match C with
  | None => transpose_in_place A
  | Some C =>
      if same_view (arr A) (arr C) then transpose_in_place A
      else exec (transpose_into (arr A) (arr C))
  end.

(** ** Rotation about an arbitrary axis *)

(** [m.arr[i] = -1 * m.arr[i]] *)
Definition negate_elem (m : Matrix) (i : Z) (h : heap) : heap :=
  aset (arr m) i (- of_Z 1 * rd h (arr m) i)%num h.

(** [m.arr[i] /= d] *)
Definition divide_elem (m : Matrix) (i : Z) (d : num) (h : heap) : heap :=
  aset (arr m) i (rd h (arr m) i / d)%num h.

Definition get_rot_v (radians : num) (v : Matrix) (C : option Matrix) : M Matrix :=
  C <- or_new C (new_Matrix4x4 None) ;;
  vnorm <- eval (fun h => norm3 h v) ;;
  v_unit <- copy4x1 v None ;;
  exec (divide_elem v_unit 0 vnorm ;>
        divide_elem v_unit 1 vnorm ;>
        divide_elem v_unit 2 vnorm) ;;
  z_arr <- alloc (Float32Array_from (of_Z <$> [0; 0; 1; 0])) ;;
  z_unit <- new_Matrix4x1 (Some z_arr) ;;
  tmp_vec <- copy4x1 v_unit None ;;
  exec (aset (arr tmp_vec) 0 (of_Z 0)) ;;
  theta_x <- eval (fun h => Math_acos (dot3 h tmp_vec z_unit / norm3 h tmp_vec)%num) ;;
  R_x <- get_rot_x theta_x None ;;
  R_x_i <- copy4x4 R_x None ;;
  exec (negate_elem R_x 6 ;> negate_elem R_x 9) ;;
  multiply4x4_4x1 R_x v_unit (Some tmp_vec) ;;
  theta_y <- eval (fun h => Math_acos (dot3 h tmp_vec z_unit / norm3 h tmp_vec)%num) ;;
  R_y <- get_rot_y theta_y None ;;
  R_y_i <- copy4x4 R_y None ;;
  exec (negate_elem R_y_i 2 ;> negate_elem R_y_i 8) ;;
  cumulative <- getI4x4 None ;;
  tmp_mat <- new_Matrix4x4 None ;;
  multiply4x4_4x4 R_x cumulative (Some cumulative) ;;
  multiply4x4_4x4 R_y cumulative (Some cumulative) ;;
  R_z <- get_rot_z radians None ;;
  multiply4x4_4x4 R_z cumulative (Some cumulative) ;;
  multiply4x4_4x4 R_y_i cumulative (Some cumulative) ;;
  multiply4x4_4x4 R_x_i cumulative (Some cumulative) ;;
  copy4x4 cumulative (Some C) ;;
  ret C.

(** ** class Camera *)

(** The numeric fields are [undefined] until [set_res_and_view_angle]. *)
Record Camera := mkCamera {
  res_x : option num;
  res_y : option num;
  max_px : option num;
  max_view_angle_rad : option num;
  px_density : option num;
  aspect_ratio : option num;
  e_z : option num;
  swp : Matrix;
  inv_rot : Matrix;
  inv_tra : Matrix;
  camera_transform : Matrix
}.

(** A field used in arithmetic. *)
Definition field (o : option num) : num := default nan o.

Definition new_Camera : M Camera :=
  swp <- new_Matrix4x4 None ;;
  inv_rot <- new_Matrix4x4 None ;;
  inv_tra <- new_Matrix4x4 None ;;
  camera_transform <- new_Matrix4x4 None ;;
  getI4x4 (Some (arr swp)) ;;
  getI4x4 (Some (arr inv_rot)) ;;
  getI4x4 (Some (arr camera_transform)) ;;
  getI4x4 (Some (arr inv_tra)) ;;
  ret (mkCamera None None None None None None None
                swp inv_rot inv_tra camera_transform).

Definition set_pos (this : Camera) (pos : Matrix) : M unit :=
  exec ((fun h => aset (arr (inv_tra this)) 12 (- rd h (arr pos) 0)%num h) ;>
        (fun h => aset (arr (inv_tra this)) 13 (- rd h (arr pos) 1)%num h) ;>
        (fun h => aset (arr (inv_tra this)) 14 (- rd h (arr pos) 2)%num h) ;>
        aset (arr (inv_tra this)) 15 (of_Z 1)).

Definition set_rot (this : Camera) (x yp zpp : num) : M unit :=
  get_rot_z (- zpp)%num (Some (inv_rot this)) ;;
  get_rot_y (- yp)%num (Some (swp this)) ;;
  multiply4x4_4x4 (swp this) (inv_rot this) (Some (inv_rot this)) ;;
  get_rot_x (- x)%num (Some (swp this)) ;;
  multiply4x4_4x4 (swp this) (inv_rot this) (Some (inv_rot this)) ;;
  ret tt.

Definition update_cam_transform (this : Camera) : M unit :=
  multiply4x4_4x4 (inv_rot this) (inv_tra this) (Some (camera_transform this)) ;;
  ret tt.

(** [input.cols] without a call is the method object itself, found on
    [Matrix.prototype] for every matrix. *)
Inductive method_object := Matrix_prototype_rows | Matrix_prototype_cols.

Definition cols_property (m : Matrix) : method_object := Matrix_prototype_cols.

Definition strict_eq (f g : method_object) : bool :=
  match f, g with
  | Matrix_prototype_rows, Matrix_prototype_rows => true
  | Matrix_prototype_cols, Matrix_prototype_cols => true
  | _, _ => false
  end.

(** The body of the projection loop at index [i]. *)
Definition project_column (this : Camera) (input output : Float32Array) (i : Z)
    (h : heap) : heap :=
  let x := rd h input i in
  let y := rd h input (i + 1) in
  let z := rd h input (i + 2) in
  let rel_tri := (field (e_z this) / z)%num in
  (aset output i
        (half * field (res_x this) + half * field (max_px this) * rel_tri * x)%num ;>
   aset output (i + 1)
        (half * field (res_y this) + half * field (max_px this) * rel_tri * y)%num ;>
   aset output (i + 2) rel_tri ;>
   aset output (i + 3) (of_Z 1)) h.

Definition perspective_project (this : Camera) (input : Matrix)
    (output : option Matrix) : M Matrix :=
  output <- or_new output (new_Matrix4xN (cols input) None) ;;
  (if strict_eq (cols_property input) (cols_property output) then
     exec (for_each (offsets4 (arr_length (arr input)))
                    (project_column this (arr input) (arr output)))
   else ret tt) ;;
  ret output.



Definition get_rot_axis (A : Axis.t) (theta : num) (out : Matrix) : M Matrix :=
  match A with
  | Axis.X => get_rot_x theta (Some out)
  | Axis.Y => get_rot_y theta (Some out)
  | Axis.Z => get_rot_z theta (Some out)
  end.

Definition g_rot (this : Camera) (A : Axis.t) (theta : num) : M unit :=
  get_rot_axis A theta (swp this) ;;
  multiply4x4_4x4 (swp this) (inv_rot this) (Some (inv_rot this)) ;;
  ret tt.

Definition l_rot (this : Camera) (A : Axis.t) (theta : num) : M unit :=
  get_rot_axis A theta (swp this) ;;
  multiply4x4_4x4 (inv_rot this) (swp this) (Some (swp this)) ;;
  set_all (inv_rot this) (TypedArray (arr (swp this))).

End TS3D.

Infix ";>" := then_ (at level 60, right associativity).
Notation "x <- m ;; k" := (bind m (fun x => k))
  (at level 100, m at next level, right associativity).
Notation "m ;; k" := (bind m (fun _ => k))
  (at level 100, right associativity).

(** ** [cross3]

    The only function that subtracts: the binary minus is a further
    operation on numbers. *)
Class ScalarSub `{Scalar} := {
  sub : num -> num -> num
}.

Infix "-" := sub : num_scope.

Section Cross.
Context `{ScalarSub}.

Definition cross3 (A B : Matrix) (C : option Matrix) : M Matrix :=
  C <- or_new C (new_Matrix4x1 None) ;;
  exec ((fun h => aset (arr C) 0
                    (rd h (arr A) 1 * rd h (arr B) 2
                     - rd h (arr A) 2 * rd h (arr B) 1)%num h) ;>
        (fun h => aset (arr C) 1
                    (rd h (arr A) 2 * rd h (arr B) 0
                     - rd h (arr A) 0 * rd h (arr B) 2)%num h) ;>
        (fun h => aset (arr C) 2
                    (rd h (arr A) 0 * rd h (arr B) 1
                     - rd h (arr A) 1 * rd h (arr B) 0)%num h) ;>
        aset (arr C) 3 (of_Z 0)) ;;
  ret C.

End Cross.

(** ** List-level reading and writing

    What a kernel does to the slots seen through a view, as functions on
    lists: these are the terms in which the kernels are specified. *)

Section ListLevel.
Context `{Scalar}.

(** [l[i]] used as a number. *)
Definition rdl (l : list f32) (i : Z) : num :=
  if 0 <=? i then
    match l !! Z.to_nat i with
    | Some x => widen x
    | None => nan
    end
  else nan.

(** [l[i] = y] for an already rounded [y], discarded out of range. *)
Definition wrl (l : list f32) (i : Z) (y : f32) : list f32 :=
  if 0 <=? i then <[Z.to_nat i := y]> l else l.

Definition write4 (c : list f32) (off : Z) (y : f32 * f32 * f32 * f32) : list f32 :=
  let '(y0, y1, y2, y3) := y in
  wrl (wrl (wrl (wrl c off y0) (off + 1) y1) (off + 2) y2) (off + 3) y3.

(** A loop that rewrites the columns of [b] one after the other, each from
    the current state of the list ... *)
Definition colmap_inplace (F : list f32 -> Z -> f32 * f32 * f32 * f32)
    (offs : list Z) (b : list f32) : list f32 :=
  foldl (fun c off => write4 c off (F c off)) b offs.

(** ... and one that writes them to another list [c0], reading [b]. *)
Definition colmap_fresh (F : list f32 -> Z -> f32 * f32 * f32 * f32)
    (b : list f32) (offs : list Z) (c0 : list f32) : list f32 :=
  foldl (fun c off => write4 c off (F b off)) c0 offs.

(** Component [j] of a column. *)
Definition tnth (y : f32 * f32 * f32 * f32) (j : nat) : f32 :=
  let '(y0, y1, y2, y3) := y in
  match j with
  | O => y0
  | 1%nat => y1
  | 2%nat => y2
  | _ => y3
  end.

(** Column [k] of a 4xN matrix stored column-major. *)
Definition column (l : list f32) (k : nat) : list f32 :=
  take 4 (drop (4 * k) l).

(** The offsets of the first [m] columns. *)
Definition cols4 (m : nat) : list Z :=
  (fun k => 4 * k) <$> seqZ 0 (Z.of_nat m).

(** *** Matrices as column-major lists *)

(** Row [r] of the 4x4 matrix [a] times the column of [b] that starts at
    [off], rounded to [f32]. *)
Definition dotl (a b : list f32) (r off : Z) : f32 :=
  fround (rdl a r * rdl b (off + 0)
          + rdl a (r + 4) * rdl b (off + 1)
          + rdl a (r + 8) * rdl b (off + 2)
          + rdl a (r + 12) * rdl b (off + 3))%num.

Definition dot_col (a b : list f32) (off : Z) : f32 * f32 * f32 * f32 :=
  (dotl a b 0 off, dotl a b 1 off, dotl a b 2 off, dotl a b 3 off).

(** The product of two 4x4 matrices: entry [(r, c)], at index [r + 4c],
    is row [r] of [a] times column [c] of [b]. *)
Definition mmul (a b : list f32) : list f32 :=
  (fun k => dotl a b (k mod 4) (4 * (k / 4))) <$> seqZ 0 16.

(** The elemental rotation matrices. *)
Definition Rot_x (rad : num) : list f32 :=
  let c := Math_cos rad in
  let s := Math_sin rad in
  fround <$> [of_Z 1; of_Z 0; of_Z 0; of_Z 0;
              of_Z 0; c; s; of_Z 0;
              of_Z 0; (- s)%num; c; of_Z 0;
              of_Z 0; of_Z 0; of_Z 0; of_Z 1].

Definition Rot_y (rad : num) : list f32 :=
  let c := Math_cos rad in
  let s := Math_sin rad in
  fround <$> [c; of_Z 0; (- s)%num; of_Z 0;
              of_Z 0; of_Z 1; of_Z 0; of_Z 0;
              s; of_Z 0; c; of_Z 0;
              of_Z 0; of_Z 0; of_Z 0; of_Z 1].

Definition Rot_z (rad : num) : list f32 :=
  let c := Math_cos rad in
  let s := Math_sin rad in
  fround <$> [c; s; of_Z 0; of_Z 0;
              (- s)%num; c; of_Z 0; of_Z 0;
              of_Z 0; of_Z 0; of_Z 1; of_Z 0;
              of_Z 0; of_Z 0; of_Z 0; of_Z 1].

Definition I4 : list f32 := fround <$> I4x4_vals.

(** The transpose of a 4x4 matrix: entry [(r, c)] comes from [(c, r)]. *)
Definition transposel (a : list f32) : list f32 :=
  (fun k => fround (rdl a (4 * (k mod 4) + k / 4))) <$> seqZ 0 16.



(** *** Rotation about an axis, as the specification words it

    Follows the words of the specification, not the code: normalize the
    axis; let Rx be the X-rotation by the angle between the YZ-plane
    projection of the axis and the Z unit vector (the arccos of their dot
    product over the norm of the projection); let Ry be the Y-rotation by
    the same construction on the X-rotated axis; an inverse is the rotation
    matrix with its two off-diagonal sine entries negated; the result is
    Rx^-1 . Ry^-1 . Rz(angle) . Ry . Rx. *)

Definition dot3l (a b : list f32) : num :=
  (rdl a 0 * rdl b 0 + rdl a 1 * rdl b 1 + rdl a 2 * rdl b 2)%num.

Definition norm3l (a : list f32) : num :=
  Math_hypot3 (rdl a 0) (rdl a 1) (rdl a 2).

Definition z_unit_l : list f32 := fround <$> (of_Z <$> [0; 0; 1; 0]).

Definition angle_to_z (u : list f32) : num :=
  Math_acos (dot3l u z_unit_l / norm3l u)%num.

Definition normalize3 (v : list f32) : list f32 :=
  let n := norm3l v in
  wrl (wrl (wrl v 0 (fround (rdl v 0 / n)%num)) 1 (fround (rdl v 1 / n)%num))
      2 (fround (rdl v 2 / n)%num).

(** [l] with entry [i] negated. *)
Definition negate_at (l : list f32) (i : Z) : list f32 :=
  wrl l i (fround (- of_Z 1 * rdl l i)%num).

(** The 4x4 matrix [a] applied to the vector [u]. *)
Definition mmul_vec (a u : list f32) : list f32 :=
  [dotl a u 0 0; dotl a u 1 0; dotl a u 2 0; dotl a u 3 0].

Definition rotation_about_axis_spec (radians : num) (v : list f32) : list f32 :=
  let v_unit := normalize3 v in
  let Rx := Rot_x (angle_to_z (wrl v_unit 0 (fround (of_Z 0)))) in
  let Rx_inv := negate_at (negate_at Rx 6) 9 in
  let Ry := Rot_y (angle_to_z (mmul_vec Rx v_unit)) in
  let Ry_inv := negate_at (negate_at Ry 2) 8 in
  mmul Rx_inv (mmul Ry_inv (mmul (Rot_z radians) (mmul Ry Rx))).

(** The composition that [get_rot_v] performs, read off its statements: the
    matrix applied first is [get_rot_x(theta_x)] with its sine entries
    negated, the one applied last is [get_rot_x(theta_x)] as built; the
    Y-rotation is computed from the axis rotated by the negated matrix. *)
Definition get_rot_v_composition (radians : num) (v : list f32) : list f32 :=
  let v_unit := normalize3 v in
  let R_x_i := Rot_x (angle_to_z (wrl v_unit 0 (fround (of_Z 0)))) in
  let R_x := negate_at (negate_at R_x_i 6) 9 in
  let R_y := Rot_y (angle_to_z (mmul_vec R_x v_unit)) in
  let R_y_i := negate_at (negate_at R_y 2) 8 in
  mmul R_x_i (mmul R_y_i (mmul (Rot_z radians) (mmul R_y (mmul R_x I4)))).

(** A run of element copies [dst[i] = src[j]], on the store and on lists. *)
Definition copy_list (dst src : Float32Array) (ijs : list (Z * Z)) (h : heap)
    : heap :=
  foldl (fun h ij => copy_elem dst ij.1 src ij.2 h) h ijs.

Definition copy_listl (a : list f32) (ijs : list (Z * Z)) (c : list f32)
    : list f32 :=
  foldl (fun c ij => wrl c ij.1 (fround (rdl a ij.2))) c ijs.

Definition transpose_pairs : list (Z * Z) :=
  [(0, 0); (1, 4); (2, 8); (3, 12); (4, 1); (5, 5); (6, 9); (7, 13);
   (8, 2); (9, 6); (10, 10); (11, 14); (12, 3); (13, 7); (14, 11); (15, 15)].

Definition diag_pairs (n : Z) : list (Z * Z) := (fun i => (i, i)) <$> upto n.

(** The output is provided and is the same view as [A]. *)
Definition output_aliases_A (A : Matrix) (C : option Matrix) : Prop :=
  exists C', C = Some C' /\ same_view (arr A) (arr C') = true.

(** [h'] comes from [h] by writes through the view [w] alone. *)
Definition frame (w : Float32Array) (h h' : heap) : Prop :=
  length h' = length h
  /\ (forall v, valid h v -> valid h' v)
  /\ (forall v, view_disjoint v w -> contents h' v = contents h v).

Definition writes_only (w : Float32Array) (f : heap -> heap) : Prop :=
  forall h, frame w h (f h).

(** The same for writes through several views. *)
Definition frames (ws : list Float32Array) (h h' : heap) : Prop :=
  length h' = length h
  /\ (forall v, valid h v -> valid h' v)
  /\ (forall v, Forall (view_disjoint v) ws -> contents h' v = contents h v).

(** A call returns, with a result and a store that satisfy [P]. *)
Definition returns_with {A} (o : outcome A) (P : A -> heap -> Prop) : Prop :=
  match o with
  | Ret a h => P a h
  | Throw _ _ => False
  end.

(** The elemental rotation selected by [switch (A)]. *)
Definition Rot (A : Axis.t) (theta : num) : list f32 :=
  match A with
  | Axis.X => Rot_x theta
  | Axis.Y => Rot_y theta
  | Axis.Z => Rot_z theta
  end.

(** A 4x1 matrix on buffer 0. *)
Definition axis0 : Matrix := mkMatrix 4 1 (mkF32 0 0 4).

(** What a well-formed camera looks like in the store: four 4x4 matrices on
    four buffers of their own, as the constructor makes them. *)
Definition valid4x4 (h : heap) (m : Matrix) : Prop :=
  is_Matrix4x4 m /\ valid h (arr m).

Definition wf_Camera (h : heap) (this : Camera) : Prop :=
  valid4x4 h (swp this) /\ valid4x4 h (inv_rot this)
  /\ valid4x4 h (inv_tra this) /\ valid4x4 h (camera_transform this)
  /\ view_disjoint (arr (swp this)) (arr (inv_rot this))
  /\ view_disjoint (arr (swp this)) (arr (inv_tra this))
  /\ view_disjoint (arr (swp this)) (arr (camera_transform this))
  /\ view_disjoint (arr (inv_rot this)) (arr (inv_tra this))
  /\ view_disjoint (arr (inv_rot this)) (arr (camera_transform this))
  /\ view_disjoint (arr (inv_tra this)) (arr (camera_transform this)).

(** *** Optional outputs *)

(** [w] is a view onto a buffer allocated between [h] and [h']: it overlaps
    no view of [h], and the views of [h] hold in [h'] what they held. *)
Definition allocated (w : Float32Array) (h h' : heap) : Prop :=
  valid h' w
  /\ forall v, valid h v ->
       view_disjoint v w /\ valid h' v /\ contents h' v = contents h v.

(** The result [m] of a call with the optional output [out]: the matrix
    supplied, the only one written, or a matrix on a new buffer. *)
Definition output_of (out : option Matrix) (m : Matrix) (h h' : heap) : Prop :=
  match out with
  | Some o => m = o /\ frame (arr m) h h'
  | None => allocated (arr m) h h'
  end.

(** A supplied output is a 4xN matrix of [n] columns that lies in the store
    and overlaps none of the operands [ws]. *)
Definition output_ok (h : heap) (out : option Matrix) (n : Z)
    (ws : list Float32Array) : Prop :=
  forall o, out = Some o ->
    is_Matrix4xN o /\ col_count o = n /\ valid h (arr o)
    /\ Forall (fun w => view_disjoint w (arr o)) ws.

(** Entry [(row, col)] of a product as the generic [multiply] accumulates
    it, from 0, over the inner indices [ks]; [ra] and [rb] are the row
    counts of the operands. *)
Definition mul_entry (a b : list f32) (ra rb : Z) (ks : list Z) (row col : Z)
    : num :=
  foldl (fun s k => (s + rdl a (row + k * ra) * rdl b (k + col * rb))%num)
        (of_Z 0) ks.


End ListLevel.

Section CrossLevel.
Context `{ScalarSub}.

(** The cross product of the first three components, with a zero. *)
Definition cross3l (a b : list f32) : list f32 :=
  [fround (rdl a 1 * rdl b 2 - rdl a 2 * rdl b 1)%num;
   fround (rdl a 2 * rdl b 0 - rdl a 0 * rdl b 2)%num;
   fround (rdl a 0 * rdl b 1 - rdl a 1 * rdl b 0)%num;
   fround (of_Z 0)].

End CrossLevel.

(** ** Real arithmetic as a [Scalar]

    The idealised instance: both number types are the reals, rounding is the
    identity.  It is used to evaluate the code on concrete inputs. *)

Definition R_gtb (a b : R) : bool := if Rlt_dec b a then true else false.

Definition R_hypot3 (x y z : R) : R := sqrt (x * x + y * y + z * z).

#[export] Instance RScalar : Scalar := {|
  num := R;
  f32 := R;
  fround := fun x => x;
  widen := fun x => x;
  fround_widen := fun x => eq_refl;
  nan := 0%R;
  of_Z := IZR;
  half := (/ 2)%R;
  add := Rplus;
  mul := Rmult;
  div := Rdiv;
  neg := Ropp;
  gtb := R_gtb;
  Math_cos := cos;
  Math_sin := sin;
  Math_tan := tan;
  Math_acos := acos;
  Math_atan := atan;
  Math_max := Rmax;
  Math_hypot3 := R_hypot3
|}.

#[export] Instance RScalarSub : @ScalarSub RScalar := {| sub := Rminus |}.

(** Evaluation of the code on a concrete store, leaving real arithmetic
    untouched. *)
Ltac run_R :=
  lazy -[Rplus Rmult Rminus Rdiv Ropp Rinv IZR cos sin tan acos atan sqrt
         Rmax PI R_hypot3 R_gtb].

Ltac run_R_in E :=
  lazy -[Rplus Rmult Rminus Rdiv Ropp Rinv IZR cos sin tan acos atan sqrt
         Rmax PI R_hypot3 R_gtb] in E.

(** The value in [Q] of a closed rational expression over the reals, and
    the numeral for it; [Rnorm] replaces such expressions by their
    numerals. *)
Ltac rval t :=
  lazymatch t with
  | (?a + ?b)%R => let x := rval a in let y := rval b in constr:(Qplus x y)
  | (?a * ?b)%R => let x := rval a in let y := rval b in constr:(Qmult x y)
  | (?a - ?b)%R => let x := rval a in let y := rval b in constr:(Qminus x y)
  | (?a / ?b)%R => let x := rval a in let y := rval b in constr:(Qdiv x y)
  | (- ?a)%R => let x := rval a in constr:(Qopp x)
  | IZR ?z => constr:(inject_Z z)
  end.

Ltac rnumeral q :=
  lazymatch q with
  | Qmake ?n 1%positive => constr:(IZR n)
  | Qmake ?n ?d => constr:((IZR n / IZR (Zpos d))%R)
  end.

Ltac Rnorm_once :=
  match goal with
  | |- context [?t] =>
      lazymatch type of t with R => idtac end;
      lazymatch t with IZR _ => fail | _ => idtac end;
      let q := rval t in
      let q' := eval vm_compute in (Qred q) in
      let r := rnumeral q' in
      tryif constr_eq t r then fail else replace t with r by lra
  end.

Ltac Rnorm := repeat Rnorm_once.

(** *** Concrete inputs *)

Definition I4_R : list R :=
  IZR <$> [1; 0; 0; 0;  0; 1; 0; 0;  0; 0; 1; 0;  0; 0; 0; 1].

(** The camera made by the constructor in an empty store: [swp], [inv_rot],
    [inv_tra] and [camera_transform] on the buffers 0 to 3. *)
Definition cam0 : Camera :=
  mkCamera None None None None None None None
    (mkMatrix 4 4 (mkF32 0 0 16)) (mkMatrix 4 4 (mkF32 1 0 16))
    (mkMatrix 4 4 (mkF32 2 0 16)) (mkMatrix 4 4 (mkF32 3 0 16)).

Definition heap0 : heap := [I4_R; I4_R; I4_R; I4_R].

(** A 4x1 matrix on buffer 4. *)
Definition vec4 : Matrix := mkMatrix 4 1 (mkF32 4 0 4).

Definition heap_with (p : list Z) : heap := heap0 ++ [IZR <$> p].



(** The axis (0, 3, 4) in a store of its own. *)
Definition heap034 : heap := [IZR <$> [0; 3; 4; 0]].

(** What [get_rot_v(PI/2, (0, 3, 4))] leaves in its result ... *)
Definition rot034_code : list R :=
  [576 / 625; 1204 / 3125; -147 / 3125; 0;
   -196 / 3125; 441 / 15625; -15588 / 15625; 0;
   -1197 / 3125; 14412 / 15625; 784 / 15625; 0;
   0; 0; 0; 1]%R.

(** ... and the rotation by PI/2 about (0, 3/5, 4/5). *)
Definition rot034_spec : list R :=
  [0; 4 / 5; -3 / 5; 0;
   -4 / 5; 9 / 25; 12 / 25; 0;
   3 / 5; 12 / 25; 16 / 25; 0;
   0; 0; 0; 1]%R.

Definition unit034 : list R := [0; 3 / 5; 4 / 5; 0]%R.

(** The X-rotation by [acos (4/5)], and with its sines negated. *)
Definition Rx034 : list R :=
  [1; 0; 0; 0;  0; 4 / 5; 3 / 5; 0;  0; -3 / 5; 4 / 5; 0;  0; 0; 0; 1]%R.
Definition Rx034_neg : list R :=
  [1; 0; 0; 0;  0; 4 / 5; -3 / 5; 0;  0; 3 / 5; 4 / 5; 0;  0; 0; 0; 1]%R.

(** The Y-rotation by [acos (7/25)], and with its sines negated. *)
Definition Ry034 : list R :=
  [7 / 25; 0; -24 / 25; 0;  0; 1; 0; 0;  24 / 25; 0; 7 / 25; 0;  0; 0; 0; 1]%R.
Definition Ry034_neg : list R :=
  [7 / 25; 0; 24 / 25; 0;  0; 1; 0; 0;  -24 / 25; 0; 7 / 25; 0;  0; 0; 0; 1]%R.

Definition Rz_quarter : list R :=
  [0; 1; 0; 0;  -1; 0; 0; 0;  0; 0; 1; 0;  0; 0; 0; 1]%R.

(** The matrix 2.I on buffer 0 of a store of its own. *)
Definition twoI : Matrix := mkMatrix 4 4 (mkF32 0 0 16).
Definition heap_twoI : heap :=
  [IZR <$> [2; 0; 0; 0;  0; 2; 0; 0;  0; 0; 2; 0;  0; 0; 0; 2]].

(** * Properties *)

(** ** The store *)

Section StoreLemmas.
Context `{Scalar}.
Implicit Types (h : heap) (v w : Float32Array) (i : Z) (x : num).

Lemma in_range_spec v i :
  in_range v i = true <-> 0 <= i /\ (Z.to_nat i < length32 v)%nat.
Proof.
  unfold in_range, arr_length.
  rewrite andb_true_iff, Z.leb_le, Z.ltb_lt. lia.
Qed.

Lemma length_aset w i x h : length (aset w i x h) = length h.
Proof.
  unfold aset. destruct (in_range w i); [apply length_alter | reflexivity].
Qed.

Lemma valid_aset w i x h v : valid h v -> valid (aset w i x h) v.
Proof.
  intros (b & Hb & Hl). unfold aset.
  destruct (in_range w i); [| by exists b].
  destruct (decide (buffer w = buffer v)) as [e | n].
  - exists (<[slot w i := fround x]> b). rewrite e, list_lookup_alter_eq, Hb.
    split; [reflexivity | by rewrite length_insert].
  - exists b. by rewrite list_lookup_alter_ne.
Qed.

Lemma length_contents h v : valid h v -> length (contents h v) = length32 v.
Proof.
  intros (b & Hb & Hl). unfold contents. rewrite Hb.
  rewrite length_take, length_drop. lia.
Qed.

(** Reading through a view is reading its contents. *)
Lemma rd_contents h v i : valid h v -> rd h v i = rdl (contents h v) i.
Proof.
  intros (b & Hb & Hl). unfold rd, rdl, aget, contents. rewrite Hb.
  destruct (in_range v i) eqn:E.
  - apply in_range_spec in E as [E1 E2].
    destruct (0 <=? i) eqn:E3; [| apply Z.leb_gt in E3; lia].
    rewrite lookup_take_lt, lookup_drop by done. reflexivity.
  - destruct (0 <=? i) eqn:E3; [| reflexivity].
    apply Z.leb_le in E3.
    rewrite lookup_take_ge; [reflexivity |].
    destruct (decide (length32 v <= Z.to_nat i)%nat) as [|n]; [done |].
    assert (in_range v i = true) by (apply in_range_spec; lia). congruence.
Qed.

(** Writing through a view updates its contents ... *)
Lemma contents_aset_same h v i x :
  valid h v -> contents (aset v i x h) v = wrl (contents h v) i (fround x).
Proof.
  intros (b & Hb & Hl). unfold aset, wrl, contents.
  destruct (in_range v i) eqn:E.
  - apply in_range_spec in E as [E1 E2].
    destruct (0 <=? i) eqn:E3; [| apply Z.leb_gt in E3; lia].
    rewrite list_lookup_alter_eq, Hb. simpl. unfold slot.
    rewrite drop_insert_ge by lia. rewrite take_insert_lt by lia.
    f_equal. lia.
  - rewrite Hb. destruct (0 <=? i) eqn:E3; [| reflexivity].
    apply Z.leb_le in E3. rewrite list_insert_ge; [reflexivity |].
    rewrite length_take, length_drop.
    destruct (decide (length32 v <= Z.to_nat i)%nat) as [|n]; [lia |].
    assert (in_range v i = true) by (apply in_range_spec; lia). congruence.
Qed.

(** ... and leaves every disjoint view as it was. *)
Lemma contents_aset_disjoint h v w i x :
  view_disjoint v w -> contents (aset w i x h) v = contents h v.
Proof.
  intros D. unfold aset. destruct (in_range w i) eqn:E; [| reflexivity].
  apply in_range_spec in E as [E1 E2]. unfold contents.
  destruct (decide (buffer w = buffer v)) as [e | n].
  - rewrite e, list_lookup_alter_eq. destruct (h !! buffer v) as [b |]; [| reflexivity].
    simpl. unfold slot. destruct D as [D | [D | D]]; [congruence | |].
    + rewrite drop_insert_ge by lia. rewrite take_insert_ge by lia. reflexivity.
    + rewrite drop_insert_lt by lia. reflexivity.
  - rewrite list_lookup_alter_ne by done. reflexivity.
Qed.

Lemma view_disjoint_sym v w : view_disjoint v w -> view_disjoint w v.
Proof. unfold view_disjoint. intros [D | [D | D]]; auto. Qed.

(** Allocation: the new buffer is the last one. *)
Lemma valid_alloc h buf v : valid h v -> valid (h ++ [buf]) v.
Proof.
  intros (b & Hb & Hl). exists b. split; [| done].
  by apply lookup_app_l_Some.
Qed.

Lemma contents_alloc h buf v : valid h v -> contents (h ++ [buf]) v = contents h v.
Proof.
  intros (b & Hb & Hl). unfold contents.
  by rewrite (lookup_app_l_Some _ _ _ _ Hb), Hb.
Qed.

Lemma valid_new h buf n :
  n = length buf -> valid (h ++ [buf]) (mkF32 (length h) 0 n).
Proof.
  intros ->. exists buf. simpl. split; [| lia].
  rewrite lookup_app_r by lia. by rewrite Nat.sub_diag.
Qed.

Lemma contents_new h buf n :
  n = length buf -> contents (h ++ [buf]) (mkF32 (length h) 0 n) = buf.
Proof.
  intros ->. unfold contents. simpl.
  rewrite lookup_app_r by lia. rewrite Nat.sub_diag. simpl.
  by rewrite take_ge.
Qed.

Lemma valid_buffer_lt h v : valid h v -> (buffer v < length h)%nat.
Proof. intros (b & Hb & _). by apply lookup_lt_Some in Hb. Qed.

Lemma same_view_eq v w : same_view v w = true <-> v = w.
Proof.
  unfold same_view, byteOffset, byteLength.
  rewrite !andb_true_iff, Nat.eqb_eq, !Z.eqb_eq.
  destruct v, w; simpl. split.
  - intros [[-> ?] ?]. f_equal; lia.
  - intros [= -> -> ->]. lia.
Qed.

Lemma same_view_refl v : same_view v v = true.
Proof. by apply same_view_eq. Qed.

Lemma same_view_fresh h v n :
  valid h v -> same_view v (mkF32 (length h) 0 n) = false.
Proof.
  intros Hv%valid_buffer_lt. apply not_true_is_false.
  intros ->%same_view_eq. simpl in Hv. lia.
Qed.

End StoreLemmas.

(** ** Integers as numbers *)

Section Numbers.
Context `{Scalar}.
Implicit Types (a b z : Z) (h : heap) (v : Float32Array).

Lemma lt_num_int a b : lt_num a b = (a <? b).
Proof.
  unfold lt_num, int, Qle_bool. simpl. rewrite !Z.mul_1_r.
  destruct (b <=? a) eqn:E; simpl; symmetry;
    [apply Z.ltb_ge; by apply Z.leb_le | apply Z.ltb_lt; by apply Z.leb_gt].
Qed.

Lemma le_num_int a b : le_num a b = (a <=? b).
Proof. unfold le_num, int, Qle_bool. simpl. by rewrite !Z.mul_1_r. Qed.

Lemma ge_num_int a b : ge_num a b = (a >=? b).
Proof. unfold ge_num. by rewrite le_num_int, Z.geb_leb. Qed.

Lemma mod1_nonzero_int z : mod1_nonzero z = false.
Proof. unfold mod1_nonzero, int. simpl. by rewrite Z.mod_1_r. Qed.

Lemma index_of_int z : index_of z = Some z.
Proof. unfold index_of, int. simpl. by rewrite Z.mod_1_r, Z.div_1_r. Qed.

Lemma to_Z_int z : to_Z z = z.
Proof. unfold to_Z. by rewrite index_of_int. Qed.

(** What the tests of the constructors admit: the integers from 1 on. *)
Lemma positive_integer_iff (n : number) :
  lt_num n 1 || mod1_nonzero n = false <-> exists z, is_int n z /\ 1 <= z.
Proof.
  unfold is_int. destruct n as [[p d] | | neg]; simpl.
  - unfold Qle_bool. simpl. rewrite Z.mul_1_r.
    pose proof (Z.mod_pos_bound p (Z.pos d) ltac:(lia)) as Hm.
    pose proof (Z.div_mod p (Z.pos d) ltac:(lia)) as Hd.
    destruct (p mod Z.pos d =? 0) eqn:E; simpl.
    + apply Z.eqb_eq in E. rewrite orb_false_r. split.
      * intros L. apply negb_false_iff, Z.leb_le in L.
        eexists. split; [reflexivity |]. nia.
      * intros (z & [= <-] & Hz). apply negb_false_iff, Z.leb_le. nia.
    + rewrite orb_true_r. split; [discriminate |]. by intros (z & ? & _).
  - split; [discriminate |]. by intros (z & ? & _).
  - rewrite orb_true_r. split; [discriminate |]. by intros (z & ? & _).
Qed.

Lemma positive_integer_le (n : number) :
  le_num n 0 || mod1_nonzero n = lt_num n 1 || mod1_nonzero n.
Proof.
  destruct n as [[p d] | | neg]; simpl; try reflexivity.
  unfold Qle_bool. simpl. rewrite !Z.mul_1_r, Z.mul_0_l, Z.mul_1_l.
  pose proof (Z.mod_pos_bound p (Z.pos d) ltac:(lia)) as Hm.
  pose proof (Z.div_mod p (Z.pos d) ltac:(lia)) as Hd.
  destruct (p mod Z.pos d =? 0) eqn:E; simpl; [| by rewrite !orb_true_r].
  apply Z.eqb_eq in E. rewrite !orb_false_r.
  destruct (p <=? 0) eqn:E1, (Z.pos d <=? p) eqn:E2; simpl; try reflexivity;
    rewrite ?Z.leb_le, ?Z.leb_gt in E1, E2;
    destruct (Z_le_gt_dec (p / Z.pos d) 0); nia.
Qed.

Lemma is_int_to_Z (n : number) z : is_int n z -> to_Z n = z.
Proof. unfold is_int, to_Z. by intros ->. Qed.

(** The index [i + c * R] computed on integers is that integer. *)
Lemma index_of_int_position (i c r : Z) :
  index_of (add_num i (mul_num c r)) = Some (i + c * r).
Proof.
  unfold index_of, add_num, mul_num, int. simpl.
  rewrite Z.mod_1_r, Z.div_1_r. simpl. f_equal. lia.
Qed.

Lemma out_of_dims_int (m : Matrix) (row col : Z) :
  out_of_dims m row col
  = (row <? 0) || (row >=? row_count m) || (col <? 0) || (col >=? col_count m).
Proof. unfold out_of_dims. by rewrite !lt_num_int, !ge_num_int. Qed.

Lemma rd_at_int h v (i c r : Z) :
  rd_at h v (add_num i (mul_num c r)) = rd h v (i + c * r).
Proof. unfold rd_at, aget_at. by rewrite index_of_int_position. Qed.

Lemma aset_at_int v (i c r : Z) (x : num) h :
  aset_at v (add_num i (mul_num c r)) x h = aset v (i + c * r) x h.
Proof. unfold aset_at. by rewrite index_of_int_position. Qed.

(** The constructors called with integers. *)
Lemma new_Matrix_int (rows cols : Z) (view : option Float32Array) :
  new_Matrix rows cols view
  = if (rows <? 1) || (cols <? 1) then
      throw "Matrix dims must be integer > 0."%string
    else
      match view with
      | Some v =>
          if arr_length v =? rows * cols then ret (mkMatrix rows cols v)
          else throw "Provided view length does not fit matrix dims."%string
      | None =>
          a <- alloc (new_Float32Array (rows * cols)) ;;
          ret (mkMatrix rows cols a)
      end.
Proof.
  unfold new_Matrix.
  rewrite !lt_num_int, !mod1_nonzero_int, !to_Z_int, !orb_false_r.
  reflexivity.
Qed.

Lemma new_Matrix4xN_int (cols : Z) (view : option Float32Array) :
  new_Matrix4xN cols view
  = if cols <=? 0 then
      throw "Matrix4xN must have positive integer number of cols."%string
    else new_Matrix 4 cols view.
Proof.
  unfold new_Matrix4xN. by rewrite le_num_int, mod1_nonzero_int, orb_false_r.
Qed.

End Numbers.

(** ** Running the monad *)

Section Monad.
Context `{Scalar}.

Lemma bind_Ret {A B} (m : M A) (k : A -> M B) h a h' :
  m h = Ret a h' -> bind m k h = k a h'.
Proof. unfold bind. by intros ->. Qed.

Lemma bind_Throw {A B} (m : M A) (k : A -> M B) h msg h' :
  m h = Throw msg h' -> bind m k h = Throw msg h'.
Proof. unfold bind. by intros ->. Qed.

Lemma for_each_nil body h : for_each [] body h = h.
Proof. reflexivity. Qed.

Lemma for_each_cons i idx body h :
  for_each (i :: idx) body h = for_each idx body (body i h).
Proof. reflexivity. Qed.

Lemma for_each_app idx1 idx2 body h :
  for_each (idx1 ++ idx2) body h = for_each idx2 body (for_each idx1 body h).
Proof. unfold for_each. apply foldl_app. Qed.

(** A loop whose body changes nothing changes nothing. *)
Lemma for_each_id idx body h :
  (forall i h', i ∈ idx -> body i h' = h') -> for_each idx body h = h.
Proof.
  induction idx as [| i idx IH]; intros Hb; [reflexivity |].
  rewrite for_each_cons, Hb by left. apply IH.
  intros j h' Hj. apply Hb. by right.
Qed.

Lemma new_Matrix_wf (rows cols : number) view h m h' :
  new_Matrix rows cols view h = Ret m h' -> wf_Matrix m.
Proof.
  unfold new_Matrix, wf_Matrix.
  destruct (lt_num rows 1 || mod1_nonzero rows) eqn:E1; [discriminate |].
  destruct (lt_num cols 1 || mod1_nonzero cols) eqn:E2;
    [rewrite <- orb_assoc, E2; discriminate |].
  rewrite <- orb_assoc, E2.
  apply positive_integer_iff in E1 as (r & Hr%is_int_to_Z & Hr1).
  apply positive_integer_iff in E2 as (c & Hc%is_int_to_Z & Hc1).
  rewrite Hr, Hc. simpl. destruct view as [v |].
  - destruct (arr_length v =? r * c) eqn:E3; [| discriminate].
    apply Z.eqb_eq in E3. intros [= <- <-]. simpl. lia.
  - unfold bind, alloc, ret. simpl. intros [= <- <-]. simpl.
    unfold arr_length. simpl. lia.
Qed.

End Monad.

(** ** [set_column] with a negative column *)

Section SetColumn.
Context `{Scalar}.

(** C9, as amended.  For a matrix with R rows and a [values] array of
    length R, a call of [set_column] with a negative integer column does
    not throw and returns with the store exactly as it was: the test only
    rejects [column >= col_count], and every index [i + column * R],
    [0 <= i < R], is a negative integer, so each write is discarded. *)
Theorem set_column_negative_column (m : Matrix) (column : Z)
    (values : NumArray) (h : heap) :
  wf_Matrix m ->
  na_length values = row_count m ->
  column < 0 ->
  set_column m column values h = Ret tt h.
Proof.
  intros (Hr & Hc & _) Hlen Hneg. unfold set_column.
  rewrite Hlen, Z.eqb_refl, ge_num_int. cbn [negb orb].
  destruct (column >=? col_count m) eqn:E; [apply Z.geb_le in E; lia |].
  unfold exec. f_equal. apply for_each_id.
  intros i h' Hi. unfold upto in Hi. apply elem_of_seqZ in Hi.
  rewrite aset_at_int. unfold aset.
  replace (in_range (arr m) (i + column * row_count m)) with false; [done |].
  symmetry. apply not_true_is_false. rewrite in_range_spec. nia.
Qed.

End SetColumn.

(** ** The aliasing guards *)

Section Guards.
Context `{Scalar}.

(** C10.  The generic [multiply] throws its in-place error whenever the
    output is the same view as [B], and likewise when it is the same view as
    [A]; the store is left as it was. *)
Theorem multiply_rejects_aliased_output (A B C : Matrix) (h : heap) :
  same_view (arr A) (arr C) = true \/ same_view (arr B) (arr C) = true ->
  multiply A B (Some C) h = Throw msg_in_place h.
Proof.
  intros Hs. unfold multiply. simpl. unfold bind at 1. simpl.
  destruct Hs as [-> | ->]; [reflexivity |].
  by rewrite orb_true_r.
Qed.

Lemma new_Matrix4xN_None (cols : Z) h :
  0 < cols ->
  new_Matrix4xN cols None h
  = Ret (mkMatrix 4 cols (mkF32 (length h) 0 (Z.to_nat (4 * cols))))
        (h ++ [replicate (Z.to_nat (4 * cols)) (fround (of_Z 0))]).
Proof.
  intros Hc. rewrite new_Matrix4xN_int, new_Matrix_int.
  destruct (cols <=? 0) eqn:E; [apply Z.leb_le in E; lia |].
  destruct (cols <? 1) eqn:E1; [apply Z.ltb_lt in E1; lia |].
  reflexivity.
Qed.

Lemma new_Matrix4xN_None_Throw (cols : Z) h msg h' :
  new_Matrix4xN cols None h = Throw msg h' ->
  msg = "Matrix4xN must have positive integer number of cols."%string /\ h' = h.
Proof.
  rewrite new_Matrix4xN_int, new_Matrix_int.
  destruct (cols <=? 0) eqn:E; [by intros [= <- <-] |].
  destruct (cols <? 1) eqn:E1; [apply Z.ltb_lt in E1; apply Z.leb_gt in E; lia |].
  simpl. discriminate.
Qed.

(** C3.  Each fast kernel throws the aliasing error exactly when the output
    is the same view as [A] (same buffer, byte offset and byte length), and
    then the store is the one the call started from: nothing was written. *)
Theorem fast_multiply_alias_error (A B : Matrix) (C : option Matrix) (h : heap) :
  valid h (arr A) ->
  ((exists h', multiply4x4_4x4 A B C h = Throw msg_alias_A h')
     <-> output_aliases_A A C)
  /\ ((exists h', multiply4x4_4xN A B C h = Throw msg_alias_A h')
     <-> output_aliases_A A C)
  /\ ((exists h', multiply4x4_4x1 A B C h = Throw msg_alias_A h')
     <-> output_aliases_A A C)
  /\ (forall h', multiply4x4_4x4 A B C h = Throw msg_alias_A h' -> h' = h)
  /\ (forall h', multiply4x4_4xN A B C h = Throw msg_alias_A h' -> h' = h)
  /\ (forall h', multiply4x4_4x1 A B C h = Throw msg_alias_A h' -> h' = h).
Proof.
  intros HA.
  assert (K44 : forall h', multiply4x4_4x4 A B C h = Throw msg_alias_A h' ->
                           output_aliases_A A C /\ h' = h).
  { intros h'. unfold multiply4x4_4x4. destruct C as [C' |]; simpl.
    - unfold bind at 1. simpl. destruct (same_view (arr A) (arr C')) eqn:E.
      + intros [= <-]. split; [by exists C' | done].
      + discriminate.
    - unfold bind at 1. simpl. rewrite (same_view_fresh h _ _ HA). discriminate. }
  assert (K41 : forall h', multiply4x4_4x1 A B C h = Throw msg_alias_A h' ->
                           output_aliases_A A C /\ h' = h).
  { intros h'. unfold multiply4x4_4x1. destruct C as [C' |]; simpl.
    - unfold bind at 1. simpl. destruct (same_view (arr A) (arr C')) eqn:E.
      + intros [= <-]. split; [by exists C' | done].
      + discriminate.
    - unfold bind at 1. simpl. rewrite (same_view_fresh h _ _ HA). discriminate. }
  assert (K4N : forall h', multiply4x4_4xN A B C h = Throw msg_alias_A h' ->
                           output_aliases_A A C /\ h' = h).
  { intros h'. unfold multiply4x4_4xN. destruct C as [C' |]; simpl.
    - unfold bind at 1. simpl. destruct (same_view (arr A) (arr C')) eqn:E.
      + intros [= <-]. split; [by exists C' | done].
      + destruct (negb (cols B =? cols C')); [| unfold bind, exec, ret];
          discriminate.
    - unfold bind at 1.
      destruct (new_Matrix4xN (cols B) None h) as [C' h1 | msg h1] eqn:E.
      + destruct (decide (0 < cols B)) as [Hc | Hc].
        * rewrite new_Matrix4xN_None in E by done. injection E as <- <-. simpl.
          rewrite (same_view_fresh h _ _ HA).
          unfold cols. simpl. rewrite Z.eqb_refl. simpl. discriminate.
        * rewrite new_Matrix4xN_int in E.
          destruct (cols B <=? 0) eqn:E0; [discriminate |].
          apply Z.leb_gt in E0. lia.
      + apply new_Matrix4xN_None_Throw in E as [-> ->]. discriminate. }
  assert (R : forall C', same_view (arr A) (arr C') = true ->
     multiply4x4_4x4 A B (Some C') h = Throw msg_alias_A h
     /\ multiply4x4_4xN A B (Some C') h = Throw msg_alias_A h
     /\ multiply4x4_4x1 A B (Some C') h = Throw msg_alias_A h).
  { intros C' E. unfold multiply4x4_4x4, multiply4x4_4xN, multiply4x4_4x1.
    simpl. unfold bind at 1 3 5. simpl. by rewrite E. }
  repeat split.
  - intros [h' E]. by apply K44 in E as [? _].
  - intros (C' & -> & E). exists h. by apply R.
  - intros [h' E]. by apply K4N in E as [? _].
  - intros (C' & -> & E). exists h. by apply R.
  - intros [h' E]. by apply K41 in E as [? _].
  - intros (C' & -> & E). exists h. by apply R.
  - intros h' E. by apply K44 in E as [_ ?].
  - intros h' E. by apply K4N in E as [_ ?].
  - intros h' E. by apply K41 in E as [_ ?].
Qed.

End Guards.

(** ** Frames *)

Section Frames.
Context `{Scalar}.
Implicit Types (h : heap) (v w : Float32Array) (i : Z).

Lemma frame_refl w h : frame w h h.
Proof. by repeat split. Qed.

Lemma frame_trans w h1 h2 h3 : frame w h1 h2 -> frame w h2 h3 -> frame w h1 h3.
Proof.
  intros (L1 & V1 & C1) (L2 & V2 & C2). repeat split.
  - congruence.
  - auto.
  - intros v D. rewrite C2, C1; done.
Qed.

Lemma writes_only_aset w i (g : heap -> num) :
  writes_only w (fun h => aset w i (g h) h).
Proof.
  intros h. repeat split.
  - apply length_aset.
  - intros v. apply valid_aset.
  - intros v D. by apply contents_aset_disjoint.
Qed.

Lemma writes_only_aset_const w i x : writes_only w (aset w i x).
Proof. apply (writes_only_aset w i (fun _ => x)). Qed.

Lemma writes_only_then w f g :
  writes_only w f -> writes_only w g -> writes_only w (f ;> g).
Proof. intros Hf Hg h. unfold then_. eapply frame_trans; [apply Hf | apply Hg]. Qed.

Lemma writes_only_for_each w idx body :
  (forall i, writes_only w (body i)) -> writes_only w (for_each idx body).
Proof.
  intros Hb. induction idx as [| i idx IH]; intros h.
  - apply frame_refl.
  - rewrite for_each_cons. eapply frame_trans; [apply Hb | apply IH].
Qed.

Lemma writes_only_copy_elem w i src j : writes_only w (copy_elem w i src j).
Proof. apply (writes_only_aset w i (fun h => rd h src j)). Qed.

Lemma writes_only_mul_column A B C off : writes_only C (mul_column A B C off).
Proof.
  intros h. unfold mul_column.
  apply (writes_only_then C); [| apply (writes_only_then C);
    [| apply (writes_only_then C)]]; apply writes_only_aset_const.
Qed.

Lemma writes_only_project_column this input output i :
  writes_only output (project_column this input output i).
Proof.
  intros h. unfold project_column.
  apply (writes_only_then output); [| apply (writes_only_then output);
    [| apply (writes_only_then output)]]; apply writes_only_aset_const.
Qed.

Lemma frame_valid w h h' v : frame w h h' -> valid h v -> valid h' v.
Proof. intros (_ & V & _). apply V. Qed.

Lemma frame_contents w h h' v :
  frame w h h' -> view_disjoint v w -> contents h' v = contents h v.
Proof. intros (_ & _ & C). apply C. Qed.

End Frames.

(** ** One column of a kernel *)

Section Columns.
Context `{Scalar}.
Implicit Types (h : heap) (v w : Float32Array) (i : Z).

Lemma dot_row_contents h A B r off :
  valid h A -> valid h B ->
  dot_row h A B r off = dotl (contents h A) (contents h B) r off.
Proof.
  intros HA HB. unfold dot_row, dotl. by rewrite !rd_contents.
Qed.

Lemma mul_column_contents h A B C off :
  valid h A -> valid h B -> valid h C ->
  contents (mul_column A B C off h) C
  = write4 (contents h C) off (dot_col (contents h A) (contents h B) off).
Proof.
  intros HA HB HC. unfold mul_column, then_, write4, dot_col.
  rewrite !contents_aset_same by (repeat apply valid_aset; done).
  rewrite !fround_widen, !dot_row_contents by done. reflexivity.
Qed.


Lemma copy_elem_contents h dst i src j :
  valid h dst -> valid h src ->
  contents (copy_elem dst i src j h) dst
  = wrl (contents h dst) i (fround (rdl (contents h src) j)).
Proof.
  intros Hd Hs. unfold copy_elem.
  by rewrite contents_aset_same, rd_contents.
Qed.

(** Loops over columns, at the level of the store and of lists. *)
Lemma for_each_colmap_inplace (Inv : heap -> Prop) step F v offs h :
  (forall h off, Inv h ->
     Inv (step off h)
     /\ contents (step off h) v = write4 (contents h v) off (F (contents h v) off)) ->
  Inv h ->
  Inv (for_each offs step h)
  /\ contents (for_each offs step h) v = colmap_inplace F offs (contents h v).
Proof.
  intros Hstep. revert h. induction offs as [| off offs IH]; intros h HI.
  - by split.
  - rewrite for_each_cons. destruct (Hstep h off HI) as [HI' Hc].
    destruct (IH _ HI') as [HI'' Hc']. split; [done |].
    rewrite Hc', Hc. reflexivity.
Qed.

Lemma for_each_colmap_fresh (Inv : heap -> Prop) step F b v offs h :
  (forall h off, Inv h ->
     Inv (step off h)
     /\ contents (step off h) v = write4 (contents h v) off (F b off)) ->
  Inv h ->
  Inv (for_each offs step h)
  /\ contents (for_each offs step h) v = colmap_fresh F b offs (contents h v).
Proof.
  intros Hstep. revert h. induction offs as [| off offs IH]; intros h HI.
  - by split.
  - rewrite for_each_cons. destruct (Hstep h off HI) as [HI' Hc].
    destruct (IH _ HI') as [HI'' Hc']. split; [done |].
    rewrite Hc', Hc. reflexivity.
Qed.

End Columns.

(** ** Column-wise loops on lists *)

Section ColmapLemmas.
Context `{Scalar}.
Implicit Types (l c b : list f32) (y : f32 * f32 * f32 * f32).

Lemma length_wrl l i x : length (wrl l i x) = length l.
Proof. unfold wrl. destruct (0 <=? i); [apply length_insert | reflexivity]. Qed.

Lemma lookup_wrl_eq l i x :
  0 <= i -> (Z.to_nat i < length l)%nat -> wrl l i x !! Z.to_nat i = Some x.
Proof.
  intros Hi Hl. unfold wrl. destruct (0 <=? i) eqn:E; [| apply Z.leb_gt in E; lia].
  by apply list_lookup_insert_eq.
Qed.

Lemma lookup_wrl_ne l i x k :
  0 <= i -> Z.to_nat i <> k -> wrl l i x !! k = l !! k.
Proof.
  intros Hi Hk. unfold wrl. destruct (0 <=? i); [| reflexivity].
  by apply list_lookup_insert_ne.
Qed.

Lemma length_write4 c off y : length (write4 c off y) = length c.
Proof. destruct y as [[[y0 y1] y2] y3]. unfold write4. by rewrite !length_wrl. Qed.

Lemma lookup_write4_in c off y (j : nat) :
  0 <= off -> (j < 4)%nat -> (Z.to_nat off + 4 <= length c)%nat ->
  write4 c off y !! (Z.to_nat off + j)%nat = Some (tnth y j).
Proof.
  intros Ho Hj Hl. destruct y as [[[y0 y1] y2] y3]. unfold write4, tnth.
  destruct j as [| [| [| [| j]]]]; [| | | | lia].
  - rewrite !lookup_wrl_ne by lia.
    replace (Z.to_nat off + 0)%nat with (Z.to_nat off) by lia.
    by rewrite lookup_wrl_eq by lia.
  - rewrite !lookup_wrl_ne by lia.
    replace (Z.to_nat off + 1)%nat with (Z.to_nat (off + 1)) by lia.
    by rewrite lookup_wrl_eq by (rewrite ?length_wrl; lia).
  - rewrite !lookup_wrl_ne by lia.
    replace (Z.to_nat off + 2)%nat with (Z.to_nat (off + 2)) by lia.
    by rewrite lookup_wrl_eq by (rewrite ?length_wrl; lia).
  - replace (Z.to_nat off + 3)%nat with (Z.to_nat (off + 3)) by lia.
    by rewrite lookup_wrl_eq by (rewrite ?length_wrl; lia).
Qed.

Lemma lookup_write4_out c off y k :
  0 <= off -> (k < Z.to_nat off \/ Z.to_nat off + 4 <= k)%nat ->
  write4 c off y !! k = c !! k.
Proof.
  intros Ho Hk. destruct y as [[[y0 y1] y2] y3]. unfold write4.
  by rewrite !lookup_wrl_ne by lia.
Qed.

Lemma cols4_S m : cols4 (S m) = cols4 m ++ [4 * Z.of_nat m].
Proof. unfold cols4. by rewrite seqZ_S, fmap_app. Qed.

Lemma offsets4_cols4 m : offsets4 (4 * Z.of_nat m) = cols4 m.
Proof.
  unfold offsets4, cols4. do 2 f_equal.
  symmetry. apply Z.div_unique with (r := 3); lia.
Qed.

Section WithF.
Variable F : list f32 -> Z -> f32 * f32 * f32 * f32.

Lemma colmap_fresh_S b m c0 :
  colmap_fresh F b (cols4 (S m)) c0
  = write4 (colmap_fresh F b (cols4 m) c0) (4 * Z.of_nat m) (F b (4 * Z.of_nat m)).
Proof. unfold colmap_fresh. by rewrite cols4_S, foldl_app. Qed.

Lemma colmap_inplace_S m b :
  colmap_inplace F (cols4 (S m)) b
  = let c := colmap_inplace F (cols4 m) b in
    write4 c (4 * Z.of_nat m) (F c (4 * Z.of_nat m)).
Proof. unfold colmap_inplace. by rewrite cols4_S, foldl_app. Qed.

(** After [m] columns of the loop into another list: the columns done hold
    the images of the columns of [b], the rest is untouched. *)
Lemma colmap_fresh_spec b c0 (n m : nat) :
  (m <= n)%nat -> length c0 = (4 * n)%nat ->
  let d := colmap_fresh F b (cols4 m) c0 in
  length d = length c0
  /\ (forall k j : nat, (k < m)%nat -> (j < 4)%nat ->
        d !! (4 * k + j)%nat = Some (tnth (F b (4 * Z.of_nat k)) j))
  /\ (forall i : nat, (4 * m <= i)%nat -> d !! i = c0 !! i).
Proof.
  intros Hm Hl. induction m as [| m IH]; cbv zeta.
  - repeat split. all: intros; lia.
  - destruct IH as (IL & IK & II); [lia |].
    rewrite colmap_fresh_S. repeat split.
    + by rewrite length_write4.
    + intros k j Hk Hj. destruct (decide (k = m)) as [-> | Hne].
      * replace (4 * m + j)%nat with (Z.to_nat (4 * Z.of_nat m) + j)%nat by lia.
        apply lookup_write4_in; lia.
      * rewrite lookup_write4_out by lia. apply IK; lia.
    + intros i Hi. rewrite lookup_write4_out by lia. apply II. lia.
Qed.

(** What a column of the image depends on. *)
Hypothesis F_local : forall l l' off,
  0 <= off ->
  (forall j : nat, (j < 4)%nat -> l !! (Z.to_nat off + j)%nat = l' !! (Z.to_nat off + j)%nat) ->
  F l off = F l' off.

(** The same for the loop that rewrites [b] itself: a column is read before
    it is written, and later columns are still those of [b]. *)
Lemma colmap_inplace_spec b (n m : nat) :
  (m <= n)%nat -> length b = (4 * n)%nat ->
  let d := colmap_inplace F (cols4 m) b in
  length d = length b
  /\ (forall k j : nat, (k < m)%nat -> (j < 4)%nat ->
        d !! (4 * k + j)%nat = Some (tnth (F b (4 * Z.of_nat k)) j))
  /\ (forall i : nat, (4 * m <= i)%nat -> d !! i = b !! i).
Proof.
  intros Hm Hl. induction m as [| m IH]; cbv zeta.
  - repeat split. all: intros; lia.
  - destruct IH as (IL & IK & II); [lia |].
    rewrite colmap_inplace_S. cbv zeta.
    assert (E : F (colmap_inplace F (cols4 m) b) (4 * Z.of_nat m)
                = F b (4 * Z.of_nat m)).
    { apply F_local; [lia |]. intros j Hj. apply II. lia. }
    rewrite E. repeat split.
    + by rewrite length_write4.
    + intros k j Hk Hj. destruct (decide (k = m)) as [-> | Hne].
      * replace (4 * m + j)%nat with (Z.to_nat (4 * Z.of_nat m) + j)%nat by lia.
        apply lookup_write4_in; lia.
      * rewrite lookup_write4_out by lia. apply IK; lia.
    + intros i Hi. rewrite lookup_write4_out by lia. apply II. lia.
Qed.

(** Rewriting [b] in place and writing its image elsewhere give one list. *)
Lemma colmap_inplace_fresh b c0 (n : nat) :
  length b = (4 * n)%nat -> length c0 = (4 * n)%nat ->
  colmap_inplace F (cols4 n) b = colmap_fresh F b (cols4 n) c0.
Proof.
  intros Hb Hc.
  destruct (colmap_inplace_spec b n n) as (L1 & K1 & _); [lia | done |].
  destruct (colmap_fresh_spec b c0 n n) as (L2 & K2 & _); [lia | done |].
  apply list_eq_same_length with (4 * n)%nat; [lia | lia |].
  intros i x y Hi.
  replace i with (4 * (i / 4) + i mod 4)%nat by (pose proof (Nat.div_mod_eq i 4); lia).
  assert ((i / 4 < n)%nat) by (apply Nat.Div0.div_lt_upper_bound; lia).
  assert ((i mod 4 < 4)%nat) by (apply Nat.mod_upper_bound; lia).
  rewrite K1, K2 by done. congruence.
Qed.

End WithF.

Lemma rdl_ext l l' i :
  0 <= i -> l !! Z.to_nat i = l' !! Z.to_nat i -> rdl l i = rdl l' i.
Proof. intros Hi E. unfold rdl. by rewrite E. Qed.

Lemma dot_col_local a l l' off :
  0 <= off ->
  (forall j : nat, (j < 4)%nat -> l !! (Z.to_nat off + j)%nat = l' !! (Z.to_nat off + j)%nat) ->
  dot_col a l off = dot_col a l' off.
Proof.
  intros Ho E. unfold dot_col, dotl.
  rewrite (rdl_ext l l' (off + 0)), (rdl_ext l l' (off + 1)),
          (rdl_ext l l' (off + 2)), (rdl_ext l l' (off + 3)); try lia; try done.
  - replace (Z.to_nat (off + 3)) with (Z.to_nat off + 3)%nat by lia. apply E. lia.
  - replace (Z.to_nat (off + 2)) with (Z.to_nat off + 2)%nat by lia. apply E. lia.
  - replace (Z.to_nat (off + 1)) with (Z.to_nat off + 1)%nat by lia. apply E. lia.
  - replace (Z.to_nat (off + 0)) with (Z.to_nat off + 0)%nat by lia. apply E. lia.
Qed.


End ColmapLemmas.

(** ** Multiplying in place *)

Section InPlaceMultiply.
Context `{Scalar}.

Lemma view_disjoint_same_view (v w : Float32Array) :
  view_disjoint v w -> (0 < length32 w)%nat -> same_view v w = false.
Proof.
  intros D Hl. apply not_true_is_false. intros ->%same_view_eq.
  destruct D as [D | [D | D]]; [done | lia | lia].
Qed.

(** The loop of [multiply4x4_4xN] when the output is [B] itself. *)
Lemma mul_loop_inplace (A B : Float32Array) (n : nat) (h : heap) :
  valid h A -> valid h B -> view_disjoint A B -> length32 B = (4 * n)%nat ->
  let h' := for_each (cols4 n) (mul_column A B B) h in
  frame B h h'
  /\ contents h' B = colmap_inplace (dot_col (contents h A)) (cols4 n) (contents h B).
Proof.
  intros HA HB D HL h'.
  split; [apply writes_only_for_each; intros; apply writes_only_mul_column |].
  pose (Inv := fun h1 : heap =>
    valid h1 A /\ valid h1 B /\ contents h1 A = contents h A).
  destruct (for_each_colmap_inplace Inv (mul_column A B B)
              (dot_col (contents h A)) B (cols4 n) h) as [_ E]; [| done | done].
  intros h1 off (V1 & V2 & E1).
  pose proof (writes_only_mul_column A B B off h1) as Fr.
  repeat split.
  - by apply (frame_valid _ _ _ _ Fr).
  - by apply (frame_valid _ _ _ _ Fr).
  - by rewrite (frame_contents _ _ _ _ Fr D).
  - by rewrite mul_column_contents, E1.
Qed.

(** The same loop into an output that is disjoint from [A] and [B]. *)
Lemma mul_loop_fresh (A B C : Float32Array) (offs : list Z) (h : heap) :
  valid h A -> valid h B -> valid h C ->
  view_disjoint A C -> view_disjoint B C ->
  let h' := for_each offs (mul_column A B C) h in
  frame C h h'
  /\ contents h' C
     = colmap_fresh (dot_col (contents h A)) (contents h B) offs (contents h C).
Proof.
  intros HA HB HC DA DB h'.
  split; [apply writes_only_for_each; intros; apply writes_only_mul_column |].
  pose (Inv := fun h1 : heap =>
    valid h1 A /\ valid h1 B /\ valid h1 C
    /\ contents h1 A = contents h A /\ contents h1 B = contents h B).
  destruct (for_each_colmap_fresh Inv (mul_column A B C)
              (dot_col (contents h A)) (contents h B) C offs h) as [_ E];
    [| done | done].
  intros h1 off (V1 & V2 & V3 & E1 & E2).
  pose proof (writes_only_mul_column A B C off h1) as Fr.
  repeat split; try by apply (frame_valid _ _ _ _ Fr).
  - by rewrite (frame_contents _ _ _ _ Fr DA).
  - by rewrite (frame_contents _ _ _ _ Fr DB).
  - by rewrite mul_column_contents, E1, E2.
Qed.


Lemma mul_loop_inplace_fresh (A B : Float32Array) (n : nat) (h : heap) :
  valid h A -> valid h B -> view_disjoint A B -> length32 B = (4 * n)%nat ->
  let C := mkF32 (length h) 0 (4 * n) in
  contents (for_each (cols4 n) (mul_column A B B) h) B
  = contents (for_each (cols4 n) (mul_column A B C)
                (h ++ [replicate (4 * n) (fround (of_Z 0))])) C.
Proof.
  intros HA HB D HL C.
  destruct (mul_loop_inplace A B n h) as [_ ->]; try done.
  set (h0 := h ++ [replicate (4 * n) (fround (of_Z 0))]).
  assert (HC : valid h0 C) by (apply valid_new; by rewrite length_replicate).
  assert (DA : view_disjoint A C) by (left; apply valid_buffer_lt in HA; simpl; lia).
  assert (DB : view_disjoint B C) by (left; apply valid_buffer_lt in HB; simpl; lia).
  destruct (mul_loop_fresh A B C (cols4 n) h0) as [_ ->];
    try done; try by apply valid_alloc.
  unfold h0, C. rewrite !contents_alloc by done.
  rewrite contents_new by (by rewrite length_replicate).
  apply colmap_inplace_fresh.
  - apply dot_col_local.
  - by rewrite length_contents.
  - by rewrite length_replicate.
Qed.

(** C6, as amended.  Provided the storage of [A] does not overlap that of
    [B], [multiply4x4_4xN] called with an output built on the
    [Float32Array] of [B] returns, and leaves in it exactly the element
    values that a call with a fresh output produces; the same holds of
    [multiply4x4_4x4] when [B] is 4x4. *)
Theorem multiply_inplace_equals_fresh (A B C : Matrix) (h : heap) :
  valid h (arr A) -> valid h (arr B) -> view_disjoint (arr A) (arr B) ->
  is_Matrix4xN B -> is_Matrix4xN C -> arr C = arr B ->
  (exists h1 h2 C2,
      multiply4x4_4xN A B (Some C) h = Ret C h1
      /\ multiply4x4_4xN A B None h = Ret C2 h2
      /\ contents h1 (arr B) = contents h2 (arr C2))
  /\ (is_Matrix4x4 B ->
      exists h1 h2 C2,
        multiply4x4_4x4 A B (Some C) h = Ret C h1
        /\ multiply4x4_4x4 A B None h = Ret C2 h2
        /\ contents h1 (arr B) = contents h2 (arr C2)).
Proof.
  intros HA HB D (Br & Bc & Bl) (Cr & Cc & Cl) EC.
  assert (HcC : col_count C = col_count B) by (rewrite EC in Cl; lia).
  set (n := Z.to_nat (col_count B)).
  assert (HL : length32 (arr B) = (4 * n)%nat) by (unfold arr_length in Bl; lia).
  assert (Hn : arr_length (arr B) = 4 * Z.of_nat n) by (unfold arr_length; lia).
  assert (SV : same_view (arr A) (arr C) = false).
  { rewrite EC. apply view_disjoint_same_view; [done | lia]. }
  pose proof (mul_loop_inplace_fresh _ _ n h HA HB D HL) as E. cbv zeta in E.
  split.
  - eexists _, _, _. split; [| split].
    + unfold multiply4x4_4xN. simpl. unfold bind at 1. simpl.
      rewrite SV. unfold cols. rewrite HcC, Z.eqb_refl. simpl.
      unfold bind, exec, ret. reflexivity.
    + unfold multiply4x4_4xN. unfold or_new, cols.
      erewrite bind_Ret by (by apply new_Matrix4xN_None).
      simpl. rewrite (same_view_fresh h _ _ HA).
      rewrite Z.eqb_refl. simpl.
      unfold bind, exec, ret. reflexivity.
    + simpl. rewrite EC, Hn, offsets4_cols4.
      replace (Z.to_nat (4 * col_count B)) with (4 * n)%nat by lia.
      exact E.
  - intros (_ & Bc4 & Bl4).
    assert (n = 4%nat) as Hn4 by lia.
    eexists _, _, _. split; [| split].
    + unfold multiply4x4_4x4. simpl. unfold bind at 1. simpl.
      rewrite SV. unfold bind, exec, ret. reflexivity.
    + unfold multiply4x4_4x4. unfold or_new, new_Matrix4x4.
      erewrite bind_Ret by (by apply new_Matrix4xN_None).
      simpl. rewrite (same_view_fresh h _ _ HA).
      unfold bind, exec, ret. reflexivity.
    + simpl. rewrite EC. rewrite Hn4 in E. exact E.
Qed.

End InPlaceMultiply.

(** ** Copies and the transpose *)

Section Transpose.
Context `{Scalar}.

Lemma length16_inv (l : list f32) :
  length l = 16%nat ->
  exists x0 x1 x2 x3 x4 x5 x6 x7 x8 x9 x10 x11 x12 x13 x14 x15,
    l = [x0; x1; x2; x3; x4; x5; x6; x7; x8; x9; x10; x11; x12; x13; x14; x15].
Proof.
  intros Hl.
  do 16 (destruct l as [| ? l]; [discriminate |]).
  destruct l; [| discriminate]. by repeat eexists.
Qed.

Lemma writes_only_copy_list dst src ijs : writes_only dst (copy_list dst src ijs).
Proof.
  induction ijs as [| ij ijs IH]; intros h.
  - apply frame_refl.
  - unfold copy_list. simpl.
    eapply frame_trans; [apply writes_only_copy_elem | apply IH].
Qed.

Lemma copy_list_contents dst src ijs h :
  valid h dst -> valid h src -> view_disjoint src dst ->
  contents (copy_list dst src ijs h) dst
  = copy_listl (contents h src) ijs (contents h dst).
Proof.
  intros Hd Hs D. revert h Hd Hs.
  induction ijs as [| ij ijs IH]; intros h Hd Hs; [reflexivity |].
  unfold copy_list, copy_listl. simpl.
  pose proof (writes_only_copy_elem dst ij.1 src ij.2 h) as Fr.
  fold (copy_list dst src ijs (copy_elem dst ij.1 src ij.2 h)).
  rewrite IH; try by apply (frame_valid _ _ _ _ Fr).
  rewrite (frame_contents _ _ _ _ Fr D).
  by rewrite copy_elem_contents.
Qed.

Lemma transpose_into_copy_list A C h :
  transpose_into A C h = copy_list C A transpose_pairs h.
Proof. reflexivity. Qed.

Lemma copy_loop_copy_list src dst h :
  copy_loop src dst h
  = copy_list (arr dst) (arr src) (diag_pairs (arr_length (arr src))) h.
Proof.
  unfold copy_loop, copy_list, for_each, diag_pairs.
  generalize (upto (arr_length (arr src))). intros l. revert h.
  induction l as [| i l IH]; intros h; [reflexivity | apply IH].
Qed.

Lemma set_all_copy_list (m : Matrix) (src : Float32Array) h :
  arr_length src = row_count m * col_count m ->
  set_all m (TypedArray src) h
  = Ret tt (copy_list (arr m) src (diag_pairs (arr_length src)) h).
Proof.
  intros E. unfold set_all. simpl. rewrite E, Z.eqb_refl. simpl.
  unfold exec. f_equal. rewrite <- E.
  unfold copy_list, for_each, diag_pairs.
  generalize (upto (arr_length src)). intros l. revert h.
  induction l as [| i l IH]; intros h; [reflexivity | apply IH].
Qed.

(** The transposition of [A] into a disjoint [C]. *)
Lemma transpose_into_contents (A C : Float32Array) h :
  valid h A -> valid h C -> view_disjoint A C ->
  length32 A = 16%nat -> length32 C = 16%nat ->
  contents (transpose_into A C h) C = transposel (contents h A).
Proof.
  intros HA HC D LA LC.
  rewrite transpose_into_copy_list, copy_list_contents by done.
  destruct (length16_inv (contents h C)) as
    (c0 & c1 & c2 & c3 & c4 & c5 & c6 & c7 & c8 & c9 & c10 & c11 & c12
        & c13 & c14 & c15 & ->); [by rewrite length_contents |].
  reflexivity.
Qed.

(** Copying a 16-element view into a disjoint one. *)
Lemma copy16_contents (src dst : Float32Array) h :
  valid h src -> valid h dst -> view_disjoint src dst ->
  length32 src = 16%nat -> length32 dst = 16%nat ->
  contents (copy_list dst src (diag_pairs 16) h) dst = contents h src.
Proof.
  intros Hs Hd D Ls Ld. rewrite copy_list_contents by done.
  destruct (length16_inv (contents h dst)) as
    (c0 & c1 & c2 & c3 & c4 & c5 & c6 & c7 & c8 & c9 & c10 & c11 & c12
        & c13 & c14 & c15 & ->); [by rewrite length_contents |].
  destruct (length16_inv (contents h src)) as
    (s0 & s1 & s2 & s3 & s4 & s5 & s6 & s7 & s8 & s9 & s10 & s11 & s12
        & s13 & s14 & s15 & ->); [by rewrite length_contents |].
  cbv -[fround widen]. by rewrite !fround_widen.
Qed.


Lemma length_transposel (a : list f32) : length (transposel a) = 16%nat.
Proof. reflexivity. Qed.


Lemma new_Matrix4x4_None h :
  new_Matrix4x4 None h
  = Ret (mkMatrix 4 4 (mkF32 (length h) 0 16))
        (h ++ [replicate 16 (fround (of_Z 0))]).
Proof. reflexivity. Qed.

Lemma is_Matrix4x4_length (m : Matrix) :
  is_Matrix4x4 m -> length32 (arr m) = 16%nat.
Proof. intros (_ & _ & E). unfold arr_length in E. lia. Qed.

(** The in-place branch leaves the transpose in [A] and touches nothing
    else that was allocated. *)
Lemma transpose_in_place_spec (A : Matrix) h :
  valid4x4 h A ->
  exists h',
    transpose_in_place A h = Ret tt h'
    /\ contents h' (arr A) = transposel (contents h (arr A))
    /\ (forall v, valid h v -> valid h' v)
    /\ (forall v, valid h v -> view_disjoint v (arr A) ->
          contents h' v = contents h v).
Proof.
  intros [M4 HA]. pose proof (is_Matrix4x4_length _ M4) as LA.
  set (h0 := h ++ [replicate 16 (fround (of_Z 0))]).
  set (s := mkF32 (length h) 0 16).
  assert (Hs : valid h0 s) by (by apply valid_new).
  assert (HA0 : valid h0 (arr A)) by (by apply valid_alloc).
  assert (D : view_disjoint (arr A) s).
  { left. apply valid_buffer_lt in HA. simpl. lia. }
  pose proof (writes_only_copy_list s (arr A) transpose_pairs h0) as Fr1.
  rewrite <- transpose_into_copy_list in Fr1.
  set (h1 := transpose_into (arr A) s h0) in *.
  pose proof (writes_only_copy_list (arr A) s (diag_pairs 16) h1) as Fr2.
  set (h2 := copy_list (arr A) s (diag_pairs 16) h1) in *.
  exists h2. split; [| split; [| split]].
  - unfold transpose_in_place.
    erewrite bind_Ret by apply new_Matrix4x4_None.
    unfold bind at 1. unfold exec. simpl.
    rewrite set_all_copy_list; [reflexivity |].
    destruct M4 as (-> & -> & _). reflexivity.
  - unfold h2. rewrite copy16_contents; try done.
    + unfold h1. rewrite transpose_into_contents by done.
      unfold h0. by rewrite contents_alloc.
    + by apply (frame_valid _ _ _ _ Fr1).
    + by apply (frame_valid _ _ _ _ Fr1).
    + by apply view_disjoint_sym.
  - intros v Hv. apply (frame_valid _ _ _ _ Fr2), (frame_valid _ _ _ _ Fr1).
    by apply valid_alloc.
  - intros v Hv Dv.
    rewrite (frame_contents _ _ _ _ Fr2 Dv).
    rewrite (frame_contents _ _ _ _ Fr1).
    + unfold h0. by rewrite contents_alloc.
    + left. apply valid_buffer_lt in Hv. simpl. lia.
Qed.


End Transpose.

(** ** Rotation builders and 4x4 products, on contents *)

Section Rotations.
Context `{Scalar}.

Lemma write16_contents (v : Float32Array) h
    (x0 x1 x2 x3 x4 x5 x6 x7 x8 x9 x10 x11 x12 x13 x14 x15 : num) :
  valid h v -> length32 v = 16%nat ->
  let f := aset v 0 x0 ;> aset v 1 x1 ;> aset v 2 x2 ;> aset v 3 x3 ;>
           aset v 4 x4 ;> aset v 5 x5 ;> aset v 6 x6 ;> aset v 7 x7 ;>
           aset v 8 x8 ;> aset v 9 x9 ;> aset v 10 x10 ;> aset v 11 x11 ;>
           aset v 12 x12 ;> aset v 13 x13 ;> aset v 14 x14 ;> aset v 15 x15 in
  contents (f h) v
  = fround <$> [x0; x1; x2; x3; x4; x5; x6; x7; x8; x9; x10; x11; x12; x13; x14; x15]
  /\ frame v h (f h).
Proof.
  intros Hv Hl f. split.
  - unfold f, then_.
    rewrite !contents_aset_same by (repeat apply valid_aset; done).
    destruct (length16_inv (contents h v)) as
      (c0 & c1 & c2 & c3 & c4 & c5 & c6 & c7 & c8 & c9 & c10 & c11 & c12
          & c13 & c14 & c15 & ->); [by rewrite length_contents |].
    reflexivity.
  - unfold f. repeat (apply writes_only_then; [apply writes_only_aset_const |]).
    apply writes_only_aset_const.
Qed.

Lemma get_rot_x_spec rad (out : Matrix) h :
  valid4x4 h out ->
  exists h', get_rot_x rad (Some out) h = Ret out h'
             /\ contents h' (arr out) = Rot_x rad
             /\ frame (arr out) h h'.
Proof.
  intros [M4 Hv]. apply is_Matrix4x4_length in M4.
  eexists. split; [cbv [get_rot_x or_new bind ret exec]; reflexivity |].
  by apply write16_contents.
Qed.

Lemma get_rot_y_spec rad (out : Matrix) h :
  valid4x4 h out ->
  exists h', get_rot_y rad (Some out) h = Ret out h'
             /\ contents h' (arr out) = Rot_y rad
             /\ frame (arr out) h h'.
Proof.
  intros [M4 Hv]. apply is_Matrix4x4_length in M4.
  eexists. split; [cbv [get_rot_y or_new bind ret exec]; reflexivity |].
  by apply write16_contents.
Qed.

Lemma get_rot_z_spec rad (out : Matrix) h :
  valid4x4 h out ->
  exists h', get_rot_z rad (Some out) h = Ret out h'
             /\ contents h' (arr out) = Rot_z rad
             /\ frame (arr out) h h'.
Proof.
  intros [M4 Hv]. apply is_Matrix4x4_length in M4.
  eexists. split; [cbv [get_rot_z or_new bind ret exec]; reflexivity |].
  by apply write16_contents.
Qed.

Lemma colmap_inplace_mmul (a c : list f32) :
  length c = 16%nat -> colmap_inplace (dot_col a) (cols4 4) c = mmul a c.
Proof.
  intros Hl.
  destruct (length16_inv c) as
    (c0 & c1 & c2 & c3 & c4 & c5 & c6 & c7 & c8 & c9 & c10 & c11 & c12
        & c13 & c14 & c15 & ->); [done |].
  reflexivity.
Qed.

(** [multiply4x4_4x4 A C C]: the product replaces [C]. *)
Lemma multiply4x4_4x4_inplace (A C : Matrix) h :
  valid h (arr A) -> valid4x4 h C -> view_disjoint (arr A) (arr C) ->
  exists h', multiply4x4_4x4 A C (Some C) h = Ret C h'
             /\ contents h' (arr C) = mmul (contents h (arr A)) (contents h (arr C))
             /\ frame (arr C) h h'.
Proof.
  intros HA [M4 HC] D. pose proof (is_Matrix4x4_length _ M4) as LC.
  destruct (mul_loop_inplace (arr A) (arr C) 4 h) as [Fr E]; try done.
  eexists. split; [| split].
  - unfold multiply4x4_4x4. simpl. unfold bind at 1. simpl.
    rewrite view_disjoint_same_view by (done || lia).
    unfold bind, exec, ret. reflexivity.
  - etransitivity; [exact E |]. apply colmap_inplace_mmul.
    by rewrite length_contents.
  - exact Fr.
Qed.

(** [multiply4x4_4x4 A B C] into an output disjoint from both operands. *)
Lemma multiply4x4_4x4_into (A B C : Matrix) h :
  valid h (arr A) -> valid h (arr B) -> valid4x4 h C ->
  length32 (arr B) = 16%nat ->
  view_disjoint (arr A) (arr C) -> view_disjoint (arr B) (arr C) ->
  exists h', multiply4x4_4x4 A B (Some C) h = Ret C h'
             /\ contents h' (arr C) = mmul (contents h (arr A)) (contents h (arr B))
             /\ frame (arr C) h h'.
Proof.
  intros HA HB [M4 HC] LB DA DB. pose proof (is_Matrix4x4_length _ M4) as LC.
  destruct (mul_loop_fresh (arr A) (arr B) (arr C) (cols4 4) h) as [Fr E]; try done.
  eexists. split; [| split].
  - unfold multiply4x4_4x4. simpl. unfold bind at 1. simpl.
    rewrite view_disjoint_same_view by (done || lia).
    unfold bind, exec, ret. reflexivity.
  - etransitivity; [exact E |].
    rewrite <- (colmap_inplace_fresh _ (dot_col_local _) _ _ 4);
      [| by rewrite length_contents | by rewrite length_contents].
    apply colmap_inplace_mmul. by rewrite length_contents.
  - exact Fr.
Qed.

End Rotations.

(** ** The camera's rotation state *)

Section CameraRotation.
Context `{Scalar}.

Lemma wf_Camera_frame (this : Camera) w h h' :
  frame w h h' -> wf_Camera h this -> wf_Camera h' this.
Proof.
  intros Fr (V1 & V2 & V3 & V4 & D).
  assert (K : forall m, valid4x4 h m -> valid4x4 h' m).
  { intros m [? ?]. split; [done | by apply (frame_valid _ _ _ _ Fr)]. }
  do 4 (split; [by apply K |]). exact D.
Qed.

Lemma valid_set_all_loop (w : Float32Array) (vals : NumArray) (idx : list Z) h v :
  valid h v ->
  valid (for_each idx (fun i h => aset w i (na_get h vals i) h) h) v.
Proof.
  intros Hv.
  apply (frame_valid w h); [| done].
  apply writes_only_for_each. intros i.
  apply (writes_only_aset w i (fun h => na_get h vals i)).
Qed.

(** The constructor always returns, with a well-formed camera. *)
Lemma new_Camera_wf (h : heap) :
  exists this h', new_Camera h = Ret this h' /\ wf_Camera h' this.
Proof.
  eexists _, _. split; [reflexivity |].
  set (z := replicate 16 (fround (of_Z 0))).
  assert (V0 : valid ((((h ++ [z]) ++ [z]) ++ [z]) ++ [z]) (mkF32 (length h) 0 16)).
  { do 3 apply valid_alloc. by apply valid_new. }
  assert (V1 : valid ((((h ++ [z]) ++ [z]) ++ [z]) ++ [z])
                     (mkF32 (length (h ++ [z])) 0 16)).
  { do 2 apply valid_alloc. by apply valid_new. }
  assert (V2 : valid ((((h ++ [z]) ++ [z]) ++ [z]) ++ [z])
                     (mkF32 (length ((h ++ [z]) ++ [z])) 0 16)).
  { apply valid_alloc. by apply valid_new. }
  assert (V3 : valid ((((h ++ [z]) ++ [z]) ++ [z]) ++ [z])
                     (mkF32 (length (((h ++ [z]) ++ [z]) ++ [z])) 0 16)).
  { by apply valid_new. }
  unfold wf_Camera, valid4x4, is_Matrix4x4.
  repeat split; try reflexivity;
    try (repeat apply valid_set_all_loop;
         first [exact V0 | exact V1 | exact V2 | exact V3]);
    left; simpl; rewrite ?length_app; simpl; lia.
Qed.

Ltac in_list :=
  first [apply list_elem_of_here | apply list_elem_of_further; in_list].

Lemma frames_of_frame w ws h h' : w ∈ ws -> frame w h h' -> frames ws h h'.
Proof.
  intros Hin (L & V & C). repeat split; [done | done |].
  intros v Hv. apply C. rewrite Forall_forall in Hv. by apply Hv.
Qed.

Lemma frames_trans ws h1 h2 h3 :
  frames ws h1 h2 -> frames ws h2 h3 -> frames ws h1 h3.
Proof.
  intros (L1 & V1 & C1) (L2 & V2 & C2). repeat split.
  - congruence.
  - auto.
  - intros v D. rewrite C2, C1; done.
Qed.

Lemma wf_Camera_frames (this : Camera) ws h h' :
  frames ws h h' -> wf_Camera h this -> wf_Camera h' this.
Proof.
  intros (_ & V & _) (V1 & V2 & V3 & V4 & D).
  assert (K : forall m, valid4x4 h m -> valid4x4 h' m).
  { intros m [? ?]. split; [done | by apply V]. }
  do 4 (split; [by apply K |]). exact D.
Qed.

Lemma get_rot_axis_spec (A : Axis.t) theta (out : Matrix) h :
  valid4x4 h out ->
  exists h', get_rot_axis A theta out h = Ret out h'
             /\ contents h' (arr out) = Rot A theta
             /\ frame (arr out) h h'.
Proof.
  destruct A; simpl;
    [apply get_rot_x_spec | apply get_rot_y_spec | apply get_rot_z_spec].
Qed.

(** [set_rot]: what it leaves in [inv_rot], and that it writes [swp] and
    [inv_rot] only. *)
Lemma set_rot_spec (this : Camera) (x yp zpp : num) (h : heap) :
  wf_Camera h this ->
  exists h',
    set_rot this x yp zpp h = Ret tt h'
    /\ contents h' (arr (inv_rot this))
       = mmul (Rot_x (- x)%num) (mmul (Rot_y (- yp)%num) (Rot_z (- zpp)%num))
    /\ frames [arr (swp this); arr (inv_rot this)] h h'.
Proof.
  intros (Vs & Vr & Vt & Vc & Dsr & _).
  pose proof Vs as [Ms Hs]. pose proof Vr as [Mr Hr].
  destruct (get_rot_z_spec (- zpp)%num (inv_rot this) h Vr) as (h1 & R1 & E1 & F1).
  assert (Vs1 : valid4x4 h1 (swp this))
    by (split; [done | by apply (frame_valid _ _ _ _ F1)]).
  destruct (get_rot_y_spec (- yp)%num (swp this) h1 Vs1) as (h2 & R2 & E2 & F2).
  assert (Vr2 : valid4x4 h2 (inv_rot this)).
  { split; [done |]. by apply (frame_valid _ _ _ _ F2), (frame_valid _ _ _ _ F1). }
  assert (Hs2 : valid h2 (arr (swp this)))
    by (by apply (frame_valid _ _ _ _ F2), (frame_valid _ _ _ _ F1)).
  destruct (multiply4x4_4x4_inplace (swp this) (inv_rot this) h2 Hs2 Vr2 Dsr)
    as (h3 & R3 & E3 & F3).
  rewrite E2 in E3.
  rewrite (frame_contents _ _ _ _ F2 (view_disjoint_sym _ _ Dsr)), E1 in E3.
  assert (Vs3 : valid4x4 h3 (swp this))
    by (split; [done | by apply (frame_valid _ _ _ _ F3)]).
  destruct (get_rot_x_spec (- x)%num (swp this) h3 Vs3) as (h4 & R4 & E4 & F4).
  assert (Vr4 : valid4x4 h4 (inv_rot this)).
  { split; [done |]. destruct Vr2.
    by apply (frame_valid _ _ _ _ F4), (frame_valid _ _ _ _ F3). }
  assert (Hs4 : valid h4 (arr (swp this))).
  { destruct Vs3. by apply (frame_valid _ _ _ _ F4). }
  destruct (multiply4x4_4x4_inplace (swp this) (inv_rot this) h4 Hs4 Vr4 Dsr)
    as (h5 & R5 & E5 & F5).
  rewrite E4 in E5.
  rewrite (frame_contents _ _ _ _ F4 (view_disjoint_sym _ _ Dsr)), E3 in E5.
  exists h5. split; [| split; [exact E5 |]].
  - unfold set_rot.
    erewrite bind_Ret by exact R1. erewrite bind_Ret by exact R2.
    erewrite bind_Ret by exact R3. erewrite bind_Ret by exact R4.
    erewrite bind_Ret by exact R5. reflexivity.
  - eapply frames_trans; [eapply frames_of_frame; [| exact F1]; in_list |].
    eapply frames_trans; [eapply frames_of_frame; [| exact F2]; in_list |].
    eapply frames_trans; [eapply frames_of_frame; [| exact F3]; in_list |].
    eapply frames_trans; [eapply frames_of_frame; [| exact F4]; in_list |].
    eapply frames_of_frame; [| exact F5]. in_list.
Qed.

(** [g_rot] pre-multiplies [inv_rot] by the elemental rotation. *)
Lemma g_rot_spec (this : Camera) (A : Axis.t) (theta : num) (h : heap) :
  wf_Camera h this ->
  exists h',
    g_rot this A theta h = Ret tt h'
    /\ contents h' (arr (inv_rot this))
       = mmul (Rot A theta) (contents h (arr (inv_rot this)))
    /\ frames [arr (swp this); arr (inv_rot this)] h h'.
Proof.
  intros (Vs & Vr & Vt & Vc & Dsr & _).
  pose proof Vs as [Ms Hs]. pose proof Vr as [Mr Hr].
  destruct (get_rot_axis_spec A theta (swp this) h Vs) as (h1 & R1 & E1 & F1).
  assert (Vr1 : valid4x4 h1 (inv_rot this))
    by (split; [done | by apply (frame_valid _ _ _ _ F1)]).
  assert (Hs1 : valid h1 (arr (swp this))) by (by apply (frame_valid _ _ _ _ F1)).
  destruct (multiply4x4_4x4_inplace (swp this) (inv_rot this) h1 Hs1 Vr1 Dsr)
    as (h2 & R2 & E2 & F2).
  rewrite E1 in E2.
  rewrite (frame_contents _ _ _ _ F1 (view_disjoint_sym _ _ Dsr)) in E2.
  exists h2. split; [| split; [exact E2 |]].
  - unfold g_rot.
    erewrite bind_Ret by exact R1. erewrite bind_Ret by exact R2. reflexivity.
  - eapply frames_trans; [eapply frames_of_frame; [| exact F1]; in_list |].
    eapply frames_of_frame; [| exact F2]. in_list.
Qed.

(** [l_rot] post-multiplies it. *)
Lemma l_rot_spec (this : Camera) (A : Axis.t) (theta : num) (h : heap) :
  wf_Camera h this ->
  exists h',
    l_rot this A theta h = Ret tt h'
    /\ contents h' (arr (inv_rot this))
       = mmul (contents h (arr (inv_rot this))) (Rot A theta)
    /\ frames [arr (swp this); arr (inv_rot this)] h h'.
Proof.
  intros (Vs & Vr & Vt & Vc & Dsr & _).
  pose proof Vs as [Ms Hs]. pose proof Vr as [Mr Hr].
  pose proof (is_Matrix4x4_length _ Ms) as Ls.
  pose proof (is_Matrix4x4_length _ Mr) as Lr.
  pose proof (view_disjoint_sym _ _ Dsr) as Drs.
  destruct (get_rot_axis_spec A theta (swp this) h Vs) as (h1 & R1 & E1 & F1).
  assert (Vs1 : valid4x4 h1 (swp this))
    by (split; [done | by apply (frame_valid _ _ _ _ F1)]).
  assert (Hr1 : valid h1 (arr (inv_rot this))) by (by apply (frame_valid _ _ _ _ F1)).
  destruct (multiply4x4_4x4_inplace (inv_rot this) (swp this) h1 Hr1 Vs1 Drs)
    as (h2 & R2 & E2 & F2).
  rewrite E1 in E2. rewrite (frame_contents _ _ _ _ F1 Drs) in E2.
  pose proof (writes_only_copy_list (arr (inv_rot this)) (arr (swp this))
                (diag_pairs 16) h2) as F3.
  exists (copy_list (arr (inv_rot this)) (arr (swp this)) (diag_pairs 16) h2).
  split; [| split].
  - unfold l_rot.
    erewrite bind_Ret by exact R1. erewrite bind_Ret by exact R2.
    rewrite set_all_copy_list.
    + f_equal. f_equal. unfold arr_length. by rewrite Ls.
    + destruct Ms as (_ & _ & ->). by destruct Mr as (-> & -> & _).
  - rewrite copy16_contents; try done.
    + destruct Vs1. by apply (frame_valid _ _ _ _ F2).
    + by apply (frame_valid _ _ _ _ F2).
  - eapply frames_trans; [eapply frames_of_frame; [| exact F1]; in_list |].
    eapply frames_trans; [eapply frames_of_frame; [| exact F2]; in_list |].
    eapply frames_of_frame; [| exact F3]. in_list.
Qed.

(** [set_pos] writes [inv_tra] only. *)
Lemma set_pos_spec (this : Camera) (pos : Matrix) (h : heap) :
  exists h', set_pos this pos h = Ret tt h' /\ frames [arr (inv_tra this)] h h'.
Proof.
  eexists. split; [reflexivity |].
  eapply frames_of_frame; [in_list |].
  apply writes_only_then;
    [apply (writes_only_aset _ 12 (fun h => (- rd h (arr pos) 0)%num)) |].
  apply writes_only_then;
    [apply (writes_only_aset _ 13 (fun h => (- rd h (arr pos) 1)%num)) |].
  apply writes_only_then;
    [apply (writes_only_aset _ 14 (fun h => (- rd h (arr pos) 2)%num)) |].
  apply writes_only_aset_const.
Qed.

(** No setter writes [camera_transform]: for every well-formed camera, each
    of them returns with [camera_transform] holding what it held. *)
Lemma setters_keep_camera_transform (this : Camera) (h : heap)
    (pos : Matrix) (x yp zpp theta : num) (A : Axis.t) :
  wf_Camera h this ->
  let same h' :=
    contents h' (arr (camera_transform this)) = contents h (arr (camera_transform this)) in
  (exists h', set_pos this pos h = Ret tt h' /\ same h')
  /\ (exists h', set_rot this x yp zpp h = Ret tt h' /\ same h')
  /\ (exists h', g_rot this A theta h = Ret tt h' /\ same h')
  /\ (exists h', l_rot this A theta h = Ret tt h' /\ same h').
Proof.
  intros W same. pose proof W as (_ & _ & _ & _ & _ & _ & Dsc & _ & Drc & Dtc).
  apply view_disjoint_sym in Dsc, Drc, Dtc.
  split; [| split; [| split]].
  - destruct (set_pos_spec this pos h) as (h' & R & (_ & _ & C)).
    exists h'. split; [done |]. apply C. repeat (constructor; [assumption |]). constructor.
  - destruct (set_rot_spec this x yp zpp h W) as (h' & R & _ & (_ & _ & C)).
    exists h'. split; [done |]. apply C. repeat (constructor; [assumption |]). constructor.
  - destruct (g_rot_spec this A theta h W) as (h' & R & _ & (_ & _ & C)).
    exists h'. split; [done |]. apply C. repeat (constructor; [assumption |]). constructor.
  - destruct (l_rot_spec this A theta h W) as (h' & R & _ & (_ & _ & C)).
    exists h'. split; [done |]. apply C. repeat (constructor; [assumption |]). constructor.
Qed.

(** C5.  After [set_rot(x, yp, zpp)] the matrix [inv_rot] holds the product
    Rx(-x) . (Ry(-yp) . Rz(-zpp)) of the elemental rotation matrices:
    Rz(-zpp) is written first, pre-multiplied by Ry(-yp), then by Rx(-x). *)
Theorem set_rot_inv_rot (this : Camera) (x yp zpp : num) (h : heap) :
  wf_Camera h this ->
  exists h',
    set_rot this x yp zpp h = Ret tt h'
    /\ contents h' (arr (inv_rot this))
       = mmul (Rot_x (- x)%num) (mmul (Rot_y (- yp)%num) (Rot_z (- zpp)%num)).
Proof.
  intros W. destruct (set_rot_spec this x yp zpp h W) as (h' & R & E & _).
  by exists h'.
Qed.

End CameraRotation.

(** ** The perspective projection *)

Section Projection.
Context `{Scalar}.

Lemma column_lookup (l : list f32) (k : nat) y :
  (forall j : nat, (j < 4)%nat -> l !! (4 * k + j)%nat = Some (tnth y j)) ->
  column l k = [tnth y 0; tnth y 1; tnth y 2; tnth y 3].
Proof.
  intros E. unfold column. apply list_eq. intros i.
  destruct (decide (i < 4)%nat) as [Hi | Hi].
  - rewrite lookup_take_lt, lookup_drop, E by done.
    by destruct i as [| [| [| [| i]]]]; [| | | | lia].
  - rewrite lookup_take_ge by lia.
    by destruct i as [| [| [| [| i]]]]; [lia | lia | lia | lia |].
Qed.




End Projection.

(** ** [perspective_project] has no effective guard *)

Section ProjectGuard.
Context `{Scalar}.

(** C8.  With an output supplied, [perspective_project] never throws,
    whatever the column counts of input and output: the guard compares the
    two [cols] method objects, which are one object, so the loop always
    runs and the supplied output is returned.  The loop writes through the
    output's view alone (a write beyond a shorter output is discarded), so
    no buffer is allocated and every view disjoint from the output keeps
    its contents. *)
Theorem perspective_project_never_throws (this : Camera)
    (input output : Matrix) (h : heap) :
  strict_eq (cols_property input) (cols_property output) = true
  /\ exists h',
       perspective_project this input (Some output) h = Ret output h'
       /\ h' = for_each (offsets4 (arr_length (arr input)))
                        (project_column this (arr input) (arr output)) h
       /\ frame (arr output) h h'.
Proof.
  split; [reflexivity |].
  eexists. split; [reflexivity |]. split; [reflexivity |].
  apply writes_only_for_each. intros i.
  apply writes_only_project_column.
Qed.

End ProjectGuard.

(** ** The composition performed by [get_rot_v] *)

Section RotV.
Context `{Scalar}.

Lemma returns_with_inv {A} (o : outcome A) (P : A -> heap -> Prop) :
  returns_with o P -> exists a h, o = Ret a h /\ P a h.
Proof.
  destruct o as [a h | msg h]; [| contradiction]. intros K. by exists a, h.
Qed.

Lemma mmul_explicit (a b : list f32) :
  exists x0 x1 x2 x3 x4 x5 x6 x7 x8 x9 x10 x11 x12 x13 x14 x15,
    mmul a b = [x0; x1; x2; x3; x4; x5; x6; x7; x8; x9; x10; x11; x12; x13; x14; x15].
Proof. apply length16_inv. reflexivity. Qed.

(** Evaluation on a store of known shape; the numbers stay abstract. *)
Ltac run_S :=
  lazy -[num f32 fround widen nan of_Z half add mul div neg gtb Math_cos
         Math_sin Math_tan Math_acos Math_atan Math_max Math_hypot3].

Ltac gstep :=
  erewrite bind_Ret by (run_S; reflexivity); cbv beta; rewrite ?fround_widen.

(** [cumulative] is the buffer 9 of the store: name its entries. *)
Ltac cumulative_is r tac :=
  match goal with
  | |- returns_with
         (_ (?b0 :: ?b1 :: ?b2 :: ?b3 :: ?b4 :: ?b5 :: ?b6 :: ?b7 :: ?b8 :: ?b9 :: ?rest))
         _ =>
      replace b9 with r by tac
  end.

(** One [multiply4x4_4x4(A, cumulative, cumulative)]. *)
Ltac mul_step A Cprev Hprev Hk :=
  destruct (mmul_explicit A Cprev)
    as (? & ? & ? & ? & ? & ? & ? & ? & ? & ? & ? & ? & ? & ? & ? & ? & Hk);
  gstep;
  match type of Hk with
  | _ = ?r =>
      cumulative_is r
        ltac:(rewrite <- Hk, ?Hprev; run_S; rewrite ?fround_widen; reflexivity)
  end.

(** On a store that holds the axis alone, [get_rot_v] returns, and its
    result holds [get_rot_v_composition] of the angle and the axis. *)
Lemma get_rot_v_composition_correct (radians : num) (v0 v1 v2 v3 : f32) :
  returns_with (get_rot_v radians axis0 None [[v0; v1; v2; v3]])
    (fun C h' =>
       contents h' (arr C) = get_rot_v_composition radians [v0; v1; v2; v3]).
Proof.
  unfold get_rot_v.
  do 9 gstep.
  match goal with
  | |- context [Math_acos ?t] => remember (Math_acos t) as theta_x eqn:Hx
  end.
  do 5 gstep.
  match goal with
  | |- context [Math_acos ?t] => remember (Math_acos t) as theta_y eqn:Hy
  end.
  do 5 gstep.
  assert (HI : I4 = I4) by reflexivity.
  set (Rx := negate_at (negate_at (Rot_x theta_x) 6) 9).
  set (Ryi := negate_at (negate_at (Rot_y theta_y) 2) 8).
  mul_step Rx I4 HI H1.
  mul_step (Rot_y theta_y) (mmul Rx I4) H1 H2.
  gstep.
  mul_step (Rot_z radians) (mmul (Rot_y theta_y) (mmul Rx I4)) H2 H3.
  mul_step Ryi (mmul (Rot_z radians) (mmul (Rot_y theta_y) (mmul Rx I4))) H3 H4.
  mul_step (Rot_x theta_x)
           (mmul Ryi (mmul (Rot_z radians) (mmul (Rot_y theta_y) (mmul Rx I4))))
           H4 H5.
  gstep.
  unfold ret, returns_with, get_rot_v_composition. cbv zeta.
  assert (S1 : angle_to_z (wrl (normalize3 [v0; v1; v2; v3]) 0 (fround (of_Z 0)))
               = theta_x).
  { rewrite Hx. run_S. rewrite ?fround_widen. reflexivity. }
  rewrite S1. fold Rx.
  assert (S2 : angle_to_z (mmul_vec Rx (normalize3 [v0; v1; v2; v3])) = theta_y).
  { rewrite Hy. run_S. rewrite ?fround_widen. reflexivity. }
  rewrite S2. fold Ryi. rewrite H5. reflexivity.
Qed.

End RotV.

(** ** The code on concrete inputs, in real arithmetic *)

Section Concrete.

(** One statement of a monadic program, run on the concrete store. *)
Ltac step := erewrite bind_Ret by (run_R; reflexivity); cbv beta.



(** The constructor gives the identity to the four matrices. *)
Lemma new_Camera_empty : new_Camera [] = Ret cam0 heap0.
Proof. reflexivity. Qed.

Lemma wf_Camera_cam0 (p : list Z) : wf_Camera (heap_with p) cam0.
Proof.
  unfold wf_Camera, valid4x4, is_Matrix4x4, valid, view_disjoint.
  repeat split; try reflexivity; try (left; simpl; lia);
    (eexists; split; [reflexivity | simpl; lia]).
Qed.




Ltac differ_at n :=
  let E := fresh "E" in
  intros E; apply (f_equal (fun l : list R => l !! n)) in E;
  run_R_in E; injection E as E; revert E;
  rewrite ?cos_neg, ?sin_neg, ?cos_0, ?sin_0, ?cos_PI, ?sin_PI; lra.

(** C2, on the code.  No setter recomputes [camera_transform]: for every
    well-formed camera, [set_pos], [set_rot], [g_rot] and [l_rot] return
    with [camera_transform] holding what it held.  Starting from the camera
    of the constructor, it is then still the identity, which is no longer
    the product [inv_rot . inv_tra]; only [update_cam_transform] stores that
    product. *)
Theorem setters_leave_camera_transform_stale :
  let stale (h1 : heap) :=
    contents h1 (arr (camera_transform cam0)) = I4_R
    /\ mmul (contents h1 (arr (inv_rot cam0))) (contents h1 (arr (inv_tra cam0)))
       <> contents h1 (arr (camera_transform cam0)) in
  (forall (S : Scalar) (this : Camera) (h : heap) (pos : Matrix)
          (x yp zpp theta : num) (A : Axis.t),
     wf_Camera h this ->
     let same h' :=
       contents h' (arr (camera_transform this))
       = contents h (arr (camera_transform this)) in
     (exists h', set_pos this pos h = Ret tt h' /\ same h')
     /\ (exists h', set_rot this x yp zpp h = Ret tt h' /\ same h')
     /\ (exists h', g_rot this A theta h = Ret tt h' /\ same h')
     /\ (exists h', l_rot this A theta h = Ret tt h' /\ same h'))
  /\ new_Camera [] = Ret cam0 heap0
  /\ (exists h1, set_pos cam0 vec4 (heap_with [1; 0; 0; 1]) = Ret tt h1 /\ stale h1
        /\ exists h2, update_cam_transform cam0 h1 = Ret tt h2
             /\ contents h2 (arr (camera_transform cam0))
                = mmul (contents h1 (arr (inv_rot cam0)))
                       (contents h1 (arr (inv_tra cam0))))
  /\ (exists h1, set_rot cam0 PI 0%R 0%R heap0 = Ret tt h1 /\ stale h1)
  /\ (exists h1, g_rot cam0 Axis.X PI heap0 = Ret tt h1 /\ stale h1)
  /\ (exists h1, l_rot cam0 Axis.X PI heap0 = Ret tt h1 /\ stale h1).
Proof.
  intros stale. unfold stale.
  split; [intros S; apply setters_keep_camera_transform |].
  split; [apply new_Camera_empty |].
  split; [| split; [| split]].
  - eexists. split; [run_R; reflexivity |]. split; [split |].
    + reflexivity.
    + differ_at 12%nat.
    + eexists. split; [run_R; reflexivity | reflexivity].
  - eexists. split; [run_R; reflexivity |]. split; [reflexivity |].
    differ_at 5%nat.
  - eexists. split; [run_R; reflexivity |]. split; [reflexivity |].
    differ_at 5%nat.
  - eexists. split; [run_R; reflexivity |]. split; [reflexivity |].
    differ_at 5%nat.
Qed.

(** *** [get_rot_v] about the axis (0, 3, 4) *)

Lemma hypot_0_3_4 : R_hypot3 0 3 4 = 5%R.
Proof.
  unfold R_hypot3. replace (0 * 0 + 3 * 3 + 4 * 4)%R with (5 * 5)%R by lra.
  apply sqrt_square. lra.
Qed.

Lemma hypot_unit_a : R_hypot3 0 (3 / 5) (4 / 5) = 1%R.
Proof.
  unfold R_hypot3.
  replace (0 * 0 + 3 / 5 * (3 / 5) + 4 / 5 * (4 / 5))%R with (1 * 1)%R by lra.
  apply sqrt_square. lra.
Qed.

Lemma hypot_unit_b : R_hypot3 0 (24 / 25) (7 / 25) = 1%R.
Proof.
  unfold R_hypot3.
  replace (0 * 0 + 24 / 25 * (24 / 25) + 7 / 25 * (7 / 25))%R with (1 * 1)%R by lra.
  apply sqrt_square. lra.
Qed.

Lemma hypot_unit_z : R_hypot3 0 0 1 = 1%R.
Proof.
  unfold R_hypot3. replace (0 * 0 + 0 * 0 + 1 * 1)%R with (1 * 1)%R by lra.
  apply sqrt_square. lra.
Qed.

Lemma cos_acos_4_5 : cos (acos (4 / 5)) = (4 / 5)%R.
Proof. apply cos_acos. lra. Qed.

Lemma sin_acos_4_5 : sin (acos (4 / 5)) = (3 / 5)%R.
Proof.
  rewrite sin_acos by lra. unfold Rsqr.
  replace (1 - 4 / 5 * (4 / 5))%R with (3 / 5 * (3 / 5))%R by lra.
  apply sqrt_square. lra.
Qed.

Lemma cos_acos_7_25 : cos (acos (7 / 25)) = (7 / 25)%R.
Proof. apply cos_acos. lra. Qed.

Lemma sin_acos_7_25 : sin (acos (7 / 25)) = (24 / 25)%R.
Proof.
  rewrite sin_acos by lra. unfold Rsqr.
  replace (1 - 7 / 25 * (7 / 25))%R with (24 / 25 * (24 / 25))%R by lra.
  apply sqrt_square. lra.
Qed.

Ltac vals1 :=
  Rnorm;
  rewrite ?hypot_0_3_4, ?hypot_unit_a, ?hypot_unit_b, ?hypot_unit_z,
          ?acos_1, ?cos_acos_4_5, ?sin_acos_4_5, ?cos_acos_7_25, ?sin_acos_7_25,
          ?cos_PI2, ?sin_PI2, ?cos_0, ?sin_0.
Ltac vals := repeat (progress vals1).

Lemma normalize3_034 : normalize3 (IZR <$> [0; 3; 4; 0]) = unit034.
Proof. run_R. vals. reflexivity. Qed.

Lemma Rot_x_034 : Rot_x (angle_to_z (wrl unit034 0 (fround (of_Z 0)))) = Rx034.
Proof. run_R. vals. reflexivity. Qed.

Lemma negate_Rx034 : negate_at (negate_at Rx034 6) 9 = Rx034_neg.
Proof. run_R. vals. reflexivity. Qed.

Lemma Rot_z_quarter : Rot_z (PI / 2)%R = Rz_quarter.
Proof. run_R. vals. reflexivity. Qed.

(** With Rx applied as built, the axis is already on Z: Ry is the identity. *)
Lemma Rot_y_spec_034 : Rot_y (angle_to_z (mmul_vec Rx034 unit034)) = I4_R.
Proof. run_R. vals. reflexivity. Qed.

Lemma negate_I4 : negate_at (negate_at I4_R 2) 8 = I4_R.
Proof. run_R. vals. reflexivity. Qed.

(** With the negated matrix applied first, it is not. *)
Lemma Rot_y_code_034 : Rot_y (angle_to_z (mmul_vec Rx034_neg unit034)) = Ry034.
Proof. run_R. vals. reflexivity. Qed.

Lemma negate_Ry034 : negate_at (negate_at Ry034 2) 8 = Ry034_neg.
Proof. run_R. vals. reflexivity. Qed.

Lemma rotation_about_axis_spec_034 :
  rotation_about_axis_spec (PI / 2)%R (IZR <$> [0; 3; 4; 0]) = rot034_spec.
Proof.
  unfold rotation_about_axis_spec. cbv zeta.
  rewrite normalize3_034, Rot_x_034, negate_Rx034, Rot_y_spec_034, negate_I4,
          Rot_z_quarter.
  run_R. vals. reflexivity.
Qed.

Lemma get_rot_v_composition_034 :
  get_rot_v_composition (PI / 2)%R (IZR <$> [0; 3; 4; 0]) = rot034_code.
Proof.
  unfold get_rot_v_composition. cbv zeta.
  rewrite normalize3_034, Rot_x_034, negate_Rx034, Rot_y_code_034, negate_Ry034,
          Rot_z_quarter.
  run_R. vals. reflexivity.
Qed.

Lemma get_rot_v_034 :
  exists C h',
    get_rot_v (PI / 2)%R axis0 None heap034 = Ret C h'
    /\ contents h' (arr C) = rot034_code.
Proof.
  destruct (returns_with_inv _ _
              (@get_rot_v_composition_correct RScalar (PI / 2)%R 0%R 3%R 4%R 0%R))
    as (C & h' & R & E).
  exists C, h'. split; [exact R |].
  rewrite E. apply get_rot_v_composition_034.
Qed.

(** C4, on the code.  Whatever the angle and the axis, [get_rot_v] returns
    the composition Rx . Ry^-1 . Rz . Ry . Rx^-1 of its statements
    ([get_rot_v_composition]): the X-rotation with negated sines is applied
    first and the X-rotation as built last, and Ry is computed from the
    axis rotated by the negated matrix.  For the axis (0, 3, 4) and the
    angle PI/2 this is not the composition Rx^-1 . Ry^-1 . Rz . Ry . Rx of the
    specification, which there is the rotation by PI/2 about (0, 3/5, 4/5). *)
Theorem get_rot_v_swaps_x_rotation :
  (forall (S : Scalar) (radians : num) (v0 v1 v2 v3 : f32),
     returns_with (get_rot_v radians axis0 None [[v0; v1; v2; v3]])
       (fun C h' =>
          contents h' (arr C) = get_rot_v_composition radians [v0; v1; v2; v3]))
  /\ rotation_about_axis_spec (PI / 2)%R (contents heap034 (arr axis0)) = rot034_spec
  /\ exists C h',
       get_rot_v (PI / 2)%R axis0 None heap034 = Ret C h'
       /\ contents h' (arr C) = rot034_code
       /\ contents h' (arr C)
          <> rotation_about_axis_spec (PI / 2)%R (contents heap034 (arr axis0)).
Proof.
  split; [intros S; apply get_rot_v_composition_correct |].
  change (contents heap034 (arr axis0)) with (IZR <$> [0; 3; 4; 0]).
  split; [apply rotation_about_axis_spec_034 |].
  destruct get_rot_v_034 as (C & h' & R & E).
  exists C, h'. split; [exact R |]. split; [exact E |].
  rewrite E, rotation_about_axis_spec_034.
  unfold rot034_code, rot034_spec. intros [= E0 _]. lra.
Qed.

End Concrete.

(** ** Instances *)

Section Instances.

Ltac valid_here := eexists; split; [reflexivity | simpl; lia].

(** C6 as stated fails when [A] itself is built on the buffer of [B]: with
    [A = B = 2.I] and the output on that buffer, both kernels throw and the
    buffer keeps 2.I, while a call with a fresh output returns 4.I. *)
Lemma multiply_inplace_aliased_A :
  multiply4x4_4x4 twoI twoI (Some twoI) heap_twoI = Throw msg_alias_A heap_twoI
  /\ multiply4x4_4xN twoI twoI (Some twoI) heap_twoI = Throw msg_alias_A heap_twoI
  /\ (exists C2 h2,
        multiply4x4_4x4 twoI twoI None heap_twoI = Ret C2 h2
        /\ contents h2 (arr C2) <> contents heap_twoI (arr twoI))
  /\ (exists C2 h2,
        multiply4x4_4xN twoI twoI None heap_twoI = Ret C2 h2
        /\ contents h2 (arr C2) <> contents heap_twoI (arr twoI)).
Proof.
  split; [reflexivity |]. split; [reflexivity |]. split.
  - eexists _, _. split; [run_R; reflexivity |].
    run_R. intros [= E _]. lra.
  - eexists _, _. split; [run_R; reflexivity |].
    run_R. intros [= E _]. lra.
Qed.


(** C9 as stated fails for a negative column that is not an integer:
    [set_column(-0.5, [1, 2, 3, 4])] on a 4x1 matrix passes the test and
    stores at the indices -2, -1, 0 and 1, of which 0 and 1 are elements. *)
Lemma set_column_negative_half :
  exists h',
    set_column vec4 (Finite (- 1 # 2)) (JsArray [1; 2; 3; 4]%R)
      (heap_with [0; 0; 0; 0]) = Ret tt h'
    /\ contents h' (arr vec4) = [3; 4; 0; 0]%R
    /\ contents h' (arr vec4) <> contents (heap_with [0; 0; 0; 0]) (arr vec4).
Proof.
  eexists. split; [run_R; reflexivity |]. split; [reflexivity |].
  run_R. intros [= E]. lra.
Qed.

Lemma multiply_inplace_equals_fresh_witness :
  (exists h1 h2 C2,
      multiply4x4_4xN (swp cam0) (inv_rot cam0) (Some (inv_rot cam0)) heap0
      = Ret (inv_rot cam0) h1
      /\ multiply4x4_4xN (swp cam0) (inv_rot cam0) None heap0 = Ret C2 h2
      /\ contents h1 (arr (inv_rot cam0)) = contents h2 (arr C2))
  /\ (is_Matrix4x4 (inv_rot cam0) ->
      exists h1 h2 C2,
        multiply4x4_4x4 (swp cam0) (inv_rot cam0) (Some (inv_rot cam0)) heap0
        = Ret (inv_rot cam0) h1
        /\ multiply4x4_4x4 (swp cam0) (inv_rot cam0) None heap0 = Ret C2 h2
        /\ contents h1 (arr (inv_rot cam0)) = contents h2 (arr C2)).
Proof.
  apply (multiply_inplace_equals_fresh (swp cam0) (inv_rot cam0) (inv_rot cam0) heap0).
  - valid_here.
  - valid_here.
  - left. simpl. lia.
  - unfold is_Matrix4xN. simpl. unfold arr_length. simpl. lia.
  - unfold is_Matrix4xN. simpl. unfold arr_length. simpl. lia.
  - reflexivity.
Defined.

Lemma set_column_negative_column_witness :
  set_column vec4 (-1) (JsArray [1; 2; 3; 4]%R) (heap_with [0; 0; 0; 0])
  = Ret tt (heap_with [0; 0; 0; 0]).
Proof.
  apply set_column_negative_column.
  - unfold wf_Matrix. simpl. unfold arr_length. simpl. lia.
  - reflexivity.
  - lia.
Defined.

Lemma multiply_rejects_aliased_output_witness :
  multiply (swp cam0) (inv_rot cam0) (Some (inv_rot cam0)) heap0
  = Throw msg_in_place heap0.
Proof.
  apply multiply_rejects_aliased_output. right. reflexivity.
Defined.

Lemma fast_multiply_alias_error_witness :
  (exists h', multiply4x4_4x4 twoI twoI (Some twoI) heap_twoI = Throw msg_alias_A h')
  <-> output_aliases_A twoI (Some twoI).
Proof.
  refine (proj1 (fast_multiply_alias_error twoI twoI (Some twoI) heap_twoI _)).
  valid_here.
Defined.

Lemma set_rot_inv_rot_witness :
  exists h',
    set_rot cam0 PI 0%R 0%R heap0 = Ret tt h'
    /\ contents h' (arr (inv_rot cam0))
       = mmul (Rot_x (- PI)%R) (mmul (Rot_y (- 0)%R) (Rot_z (- 0)%R)).
Proof.
  apply (set_rot_inv_rot cam0 PI 0%R 0%R heap0).
  unfold wf_Camera, valid4x4, is_Matrix4x4, view_disjoint.
  repeat split; try reflexivity; try (left; simpl; lia); valid_here.
Defined.



Lemma setters_leave_camera_transform_stale_witness :
  exists h',
    set_pos cam0 vec4 (heap_with [1; 0; 0; 1]) = Ret tt h'
    /\ contents h' (arr (camera_transform cam0))
       = contents (heap_with [1; 0; 0; 1]) (arr (camera_transform cam0)).
Proof.
  refine (proj1 (proj1 setters_leave_camera_transform_stale RScalar cam0
                   (heap_with [1; 0; 0; 1]) vec4 0%R 0%R 0%R 0%R Axis.X _)).
  unfold wf_Camera, valid4x4, is_Matrix4x4, view_disjoint.
  repeat split; try reflexivity; try (left; simpl; lia); valid_here.
Defined.

End Instances.
(** * More of the matrix library *)

(** ** The [Matrix] class *)

Section MatrixClass.
Context `{Scalar}.
Implicit Types (h : heap) (v w : Float32Array) (m : Matrix).
Implicit Types (row col : Z).

Lemma valid_fresh_disjoint h v n :
  valid h v -> view_disjoint v (mkF32 (length h) 0 n).
Proof. intros Hv%valid_buffer_lt. left. simpl. lia. Qed.

Lemma allocated_new h buf :
  allocated (mkF32 (length h) 0 (length buf)) h (h ++ [buf]).
Proof.
  split; [by apply valid_new |]. intros v Hv. split; [| split].
  - by apply valid_fresh_disjoint.
  - by apply valid_alloc.
  - by apply contents_alloc.
Qed.

Lemma allocated_frame w h h1 h2 :
  allocated w h h1 -> frame w h1 h2 -> allocated w h h2.
Proof.
  intros [Vw K] (L & V & C). split; [by apply V |].
  intros v Hv. destruct (K v Hv) as (D & V1 & C1).
  split; [done |]. split; [by apply V |]. by rewrite C.
Qed.

(** X1.  The [Matrix] constructor throws, with the store untouched, exactly
    when a dimension is not an integer from 1 on (a fraction, NaN and the
    infinities included) or a supplied view has not [rows * cols] elements.
    Otherwise the matrix it makes satisfies the class invariant with the
    dimensions given; it is built on the supplied view itself, or on a
    newly allocated zero-filled buffer that overlaps no existing view. *)
Theorem new_Matrix_outcome (rows cols : number) (view : option Float32Array) h :
  match new_Matrix rows cols view h with
  | Ret m h' =>
      wf_Matrix m /\ is_int rows (row_count m) /\ is_int cols (col_count m)
      /\ match view with
         | Some v => arr m = v /\ h' = h
         | None =>
             allocated (arr m) h h'
             /\ contents h' (arr m)
                = replicate (Z.to_nat (row_count m * col_count m))
                            (fround (of_Z 0))
         end
  | Throw msg h' =>
      h' = h
      /\ ((msg = "Matrix dims must be integer > 0."%string
           /\ ~ ((exists r, is_int rows r /\ 1 <= r)
                 /\ (exists c, is_int cols c /\ 1 <= c)))
          \/ (msg = "Provided view length does not fit matrix dims."%string
              /\ exists r c v,
                   is_int rows r /\ 1 <= r /\ is_int cols c /\ 1 <= c
                   /\ view = Some v /\ arr_length v <> r * c))
  end.
Proof.
  unfold new_Matrix.
  destruct (lt_num rows 1 || mod1_nonzero rows) eqn:Er; cbn [orb].
  { split; [done |]. left. split; [done |].
    intros [Hr%positive_integer_iff _]. congruence. }
  destruct (lt_num cols 1 || mod1_nonzero cols) eqn:Ec.
  { split; [done |]. left. split; [done |].
    intros [_ Hc%positive_integer_iff]. congruence. }
  apply positive_integer_iff in Er as (r & Hr & Hr1).
  apply positive_integer_iff in Ec as (c & Hc & Hc1).
  rewrite (is_int_to_Z rows r Hr), (is_int_to_Z cols c Hc). cbv zeta.
  destruct view as [v |].
  - destruct (arr_length v =? r * c) eqn:E; simpl.
    + apply Z.eqb_eq in E. unfold ret. repeat split; simpl; lia || done.
    + apply Z.eqb_neq in E. unfold throw. split; [done |]. right.
      split; [done |]. by exists r, c, v.
  - cbv [bind alloc new_Float32Array ret]. simpl.
    split; [| split; [done | split; [done |]]].
    + unfold wf_Matrix, arr_length. simpl. nia.
    + split.
      * rewrite <- (length_replicate (Z.to_nat (r * c)) (fround (of_Z 0))) at 1.
        apply allocated_new.
      * apply contents_new. by rewrite length_replicate.
Qed.

(** An accepted pair of indices addresses a slot of the view. *)
Lemma in_dims_index m row col :
  wf_Matrix m -> out_of_dims m row col = false ->
  0 <= row < row_count m /\ 0 <= col < col_count m
  /\ 0 <= row + col * row_count m
  /\ (Z.to_nat (row + col * row_count m) < length32 (arr m))%nat.
Proof.
  intros (R1 & C1 & L) O. rewrite out_of_dims_int in O.
  rewrite !orb_false_iff in O. destruct O as [[[O1 O2] O3] O4].
  apply Z.ltb_ge in O1, O3. rewrite Z.geb_leb in O2, O4.
  apply Z.leb_gt in O2, O4. unfold arr_length in L. nia.
Qed.

Lemma get_in_dims m row col h :
  out_of_dims m row col = false ->
  get m row col h = Ret (rd h (arr m) (row + col * row_count m)) h.
Proof. intros O. unfold get, position, eval. by rewrite O, rd_at_int. Qed.

Lemma set_in_dims m row col val h :
  out_of_dims m row col = false ->
  set m row col val h = Ret tt (aset (arr m) (row + col * row_count m) val h).
Proof. intros O. unfold set, position, exec. by rewrite O, aset_at_int. Qed.

Lemma rdl_lookup (l : list f32) i x :
  0 <= i -> l !! Z.to_nat i = Some x -> rdl l i = widen x.
Proof.
  intros Hi E. unfold rdl. rewrite E.
  destruct (0 <=? i) eqn:E0; [done | apply Z.leb_gt in E0; lia].
Qed.

(** X2.  At integer positions the bounds test of [get] is sound for
    column-major addressing: on a matrix made by the constructor, a call
    that passes the test reads the element at index [row + col * rows] of
    the view, which exists; a call that fails the test throws and leaves
    the store as it was.  The test does not reject a position that is not
    an integer: at row 0.5 of column 0, and at NaN, the call passes the
    test and names no element of the view; what it reads is [undefined],
    given as [nan] where a number is expected. *)
Theorem get_reads_element_or_throws m row col h :
  wf_Matrix m -> valid h (arr m) ->
  (if out_of_dims m row col
   then get m row col h = Throw "Requested element outside matrix dims."%string h
   else exists x,
          contents h (arr m) !! Z.to_nat (row + col * row_count m) = Some x
          /\ get m row col h = Ret (widen x) h)
  /\ (out_of_dims m (Finite (1 # 2)) 0 = false
      /\ aget_at h (arr m) (position m (Finite (1 # 2)) 0) = None
      /\ get m (Finite (1 # 2)) 0 h = Ret nan h)
  /\ (out_of_dims m NaN NaN = false
      /\ aget_at h (arr m) (position m NaN NaN) = None
      /\ get m NaN NaN h = Ret nan h).
Proof.
  intros W V. split; [| split].
  - destruct (out_of_dims m row col) eqn:O.
    + unfold get. by rewrite O.
    + destruct (in_dims_index m row col W O) as (_ & _ & I0 & I1).
      destruct (lookup_lt_is_Some_2 (contents h (arr m))
                  (Z.to_nat (row + col * row_count m))) as [x Hx].
      { by rewrite length_contents. }
      exists x. split; [done |].
      rewrite get_in_dims, rd_contents by done. f_equal. by apply rdl_lookup.
  - destruct W as (R1 & C1 & _).
    assert (O : out_of_dims m (Finite (1 # 2)) 0 = false).
    { unfold out_of_dims, lt_num, ge_num, le_num, int, Qle_bool. simpl.
      rewrite !orb_false_iff, !Z.leb_gt. lia. }
    assert (I : index_of (position m (Finite (1 # 2)) 0) = None).
    { unfold position, index_of, add_num, mul_num, int. simpl.
      replace (1 + 0 * row_count m * 2) with 1 by lia. reflexivity. }
    split; [done |]. unfold get, eval, rd_at, aget_at. by rewrite O, I.
  - split; [reflexivity |]. split; reflexivity.
Qed.

(** X3.  [set] followed by [get] at the same in-range position returns the
    value stored, rounded to [f32]; [get] at any other in-range position
    returns what it returned before, since distinct positions have
    distinct indices; nothing outside the matrix's view is written. *)
Theorem set_then_get m row col row' col' (val : num) h :
  wf_Matrix m -> valid h (arr m) ->
  out_of_dims m row col = false -> out_of_dims m row' col' = false ->
  exists h',
    set m row col val h = Ret tt h'
    /\ get m row col h' = Ret (widen (fround val)) h'
    /\ ((row', col') <> (row, col) ->
        exists x, get m row' col' h = Ret x h /\ get m row' col' h' = Ret x h')
    /\ frame (arr m) h h'.
Proof.
  intros W V O O'.
  destruct (in_dims_index m row col W O) as (Hr & Hc & I0 & I1).
  destruct (in_dims_index m row' col' W O') as (Hr' & Hc' & I0' & I1').
  eexists. split; [by apply set_in_dims |].
  assert (V' : valid (aset (arr m) (row + col * row_count m) val h) (arr m))
    by by apply valid_aset.
  split; [| split].
  - rewrite get_in_dims, rd_contents, contents_aset_same by done. f_equal.
    apply rdl_lookup; [done |]. apply lookup_wrl_eq; [done |].
    by rewrite length_contents.
  - intros Hne. eexists. split; [by apply get_in_dims |].
    rewrite get_in_dims by done. f_equal.
    rewrite !rd_contents, contents_aset_same by done.
    apply rdl_ext; [done |]. apply lookup_wrl_ne; [done |].
    intros E. apply Hne.
    assert (row + col * row_count m = row' + col' * row_count m) by lia.
    assert (col = col') by nia. f_equal; lia.
  - apply (writes_only_aset_const (arr m)).
Qed.

End MatrixClass.

(** ** Filling a matrix *)

Section Fill.
Context `{Scalar}.
Implicit Types (h : heap) (v w : Float32Array) (m : Matrix).
Implicit Types (row col : Z).

Lemma upto_S (k : nat) :
  upto (Z.of_nat (S k)) = upto (Z.of_nat k) ++ [Z.of_nat k].
Proof.
  unfold upto. by rewrite seqZ_S.
Qed.

Lemma for_each_ext idx (f g : Z -> heap -> heap) h :
  (forall i h', f i h' = g i h') -> for_each idx f h = for_each idx g h.
Proof.
  intros E. revert h. induction idx as [| i idx IH]; intros h; [done |].
  rewrite !for_each_cons, E. apply IH.
Qed.

(** A loop that stores [g i] at index [o + i] for [i] from 0 to [k - 1]. *)
Lemma fill_contents v (g : Z -> num) (o k : nat) h :
  valid h v -> (o + k <= length32 v)%nat ->
  let h' := for_each (upto (Z.of_nat k))
              (fun i h => aset v (i + Z.of_nat o) (g i) h) h in
  contents h' v
  = take o (contents h v) ++ ((fun i => fround (g i)) <$> upto (Z.of_nat k))
    ++ drop (o + k) (contents h v)
  /\ frame v h h'.
Proof.
  intros V. induction k as [| k IH]; intros L; simpl.
  - split; [| apply frame_refl]. unfold upto. simpl.
    rewrite Nat.add_0_r. by rewrite take_drop.
  - destruct IH as [IH F]; [lia |].
    rewrite upto_S, for_each_app, for_each_cons, for_each_nil.
    set (h1 := for_each _ _ h) in *.
    assert (V1 : valid h1 v) by by apply (frame_valid v h).
    split.
    + rewrite contents_aset_same, IH by done.
      assert (Lc : length (contents h v) = length32 v) by by apply length_contents.
      unfold wrl. destruct (0 <=? _) eqn:E0; [| apply Z.leb_gt in E0; lia].
      replace (Z.to_nat (Z.of_nat k + Z.of_nat o)) with (o + k)%nat by lia.
      rewrite fmap_app. simpl.
      rewrite insert_app_r_alt by (rewrite length_take; lia).
      rewrite length_take, Nat.min_l by lia.
      rewrite insert_app_r_alt by (rewrite length_fmap; unfold upto; rewrite length_seqZ; lia).
      rewrite length_fmap. unfold upto at 2. rewrite length_seqZ.
      replace (o + k - o - Z.to_nat (Z.of_nat k))%nat with 0%nat by lia.
      destruct (lookup_lt_is_Some_2 (contents h v) (o + k)) as [x Hx]; [lia |].
      rewrite (drop_S _ x _ Hx). simpl.
      replace (o + S k)%nat with (S (o + k)) by lia.
      by rewrite <- !app_assoc.
    + eapply frame_trans; [exact F |]. apply (writes_only_aset_const v).
Qed.

Lemma fmap_js_get (l : list num) :
  (fun i => fround (na_get [] (JsArray l) i)) <$> upto (Z.of_nat (length l))
  = fround <$> l.
Proof.
  apply list_eq. intros j. rewrite !list_lookup_fmap. unfold upto.
  destruct (decide (j < length l)%nat) as [Hj | Hj].
  - rewrite lookup_seqZ_lt by lia. simpl.
    destruct (lookup_lt_is_Some_2 l j Hj) as [x Hx].
    replace (Z.to_nat (0 + Z.of_nat j)) with j by lia.
    rewrite Hx. simpl.
    destruct (0 <=? 0 + Z.of_nat j) eqn:E0; [done | apply Z.leb_gt in E0; lia].
  - rewrite lookup_seqZ_ge by lia. simpl.
    by rewrite lookup_ge_None_2 by lia.
Qed.

Lemma set_all_js_contents m (l : list num) h :
  valid h (arr m) ->
  Z.of_nat (length l) = row_count m * col_count m ->
  arr_length (arr m) = row_count m * col_count m ->
  exists h',
    set_all m (JsArray l) h = Ret tt h'
    /\ contents h' (arr m) = fround <$> l
    /\ frame (arr m) h h'.
Proof.
  intros V Ll La. unfold set_all. change (na_length (JsArray l)) with (Z.of_nat (length l)).
  rewrite (proj2 (Z.eqb_eq _ _) Ll). simpl.
  eexists. split; [reflexivity |].
  destruct (fill_contents (arr m) (fun i => na_get [] (JsArray l) i) 0 (length l) h V)
    as [C F].
  { unfold arr_length in La. lia. }
  rewrite (for_each_ext _ _ (fun i h => aset (arr m) (i + Z.of_nat 0) (na_get [] (JsArray l) i) h)).
  2:{ intros i h'. by rewrite Z.add_0_r. }
  split; [| exact F].
  rewrite C, fmap_js_get. simpl.
  rewrite drop_ge; [by rewrite app_nil_r |].
  rewrite length_contents by done. unfold arr_length in La. lia.
Qed.

(** X4.  [set_all] from an array of [rows * cols] numbers returns and
    leaves the rounded numbers in the view, in order; [get(row, col)] then
    returns the number given at index [row + col * rows], rounded: the
    array is read as column-major. *)
Theorem set_all_then_get m (l : list num) row col h :
  wf_Matrix m -> valid h (arr m) ->
  Z.of_nat (length l) = row_count m * col_count m ->
  out_of_dims m row col = false ->
  exists h' x,
    set_all m (JsArray l) h = Ret tt h'
    /\ contents h' (arr m) = fround <$> l
    /\ l !! Z.to_nat (row + col * row_count m) = Some x
    /\ get m row col h' = Ret (widen (fround x)) h'
    /\ frame (arr m) h h'.
Proof.
  intros W V Ll O.
  destruct (in_dims_index m row col W O) as (Hr & Hc & I0 & I1).
  destruct (set_all_js_contents m l h V Ll) as (h' & E & C & F);
    [apply W |].
  destruct (lookup_lt_is_Some_2 l (Z.to_nat (row + col * row_count m))) as [x Hx].
  { destruct W as (_ & _ & La). unfold arr_length in La. lia. }
  exists h', x. do 3 (split; [done |]). split; [| done].
  rewrite get_in_dims, rd_contents, C by (done || by apply (frame_valid (arr m) h)).
  f_equal. apply rdl_lookup; [done |]. by rewrite list_lookup_fmap, Hx.
Qed.

(** X5.  [set_column] with a column index inside the matrix and an array
    of as many numbers as there are rows replaces exactly the slots
    [column * rows .. column * rows + rows - 1] of the view by the rounded
    numbers; the other columns and every other view are left as they
    were. *)
Theorem set_column_writes_column m (column : Z) (l : list num) h :
  wf_Matrix m -> valid h (arr m) ->
  Z.of_nat (length l) = row_count m -> 0 <= column < col_count m ->
  exists h',
    set_column m column (JsArray l) h = Ret tt h'
    /\ contents h' (arr m)
       = take (Z.to_nat (column * row_count m)) (contents h (arr m))
         ++ (fround <$> l)
         ++ drop (Z.to_nat ((column + 1) * row_count m)) (contents h (arr m))
    /\ frame (arr m) h h'.
Proof.
  intros W V Ll Hc. destruct W as (R1 & C1 & La). unfold arr_length in La.
  unfold set_column. change (na_length (JsArray l)) with (Z.of_nat (length l)).
  rewrite (proj2 (Z.eqb_eq _ _) (eq_sym Ll)), ge_num_int.
  destruct (column >=? col_count m) eqn:E.
  { rewrite Z.geb_leb in E. apply Z.leb_le in E. lia. }
  cbn [negb orb]. eexists. split; [reflexivity |].
  destruct (fill_contents (arr m) (fun i => na_get [] (JsArray l) i)
              (Z.to_nat (column * row_count m)) (length l) h V) as [C F].
  { nia. }
  rewrite (for_each_ext _ _
             (fun i h => aset (arr m) (i + Z.of_nat (Z.to_nat (column * row_count m)))
                              (na_get [] (JsArray l) i) h)).
  2:{ intros i h'. rewrite aset_at_int. by rewrite Z2Nat.id by nia. }
  replace (upto (row_count m)) with (upto (Z.of_nat (length l))) by (by rewrite Ll).
  split; [| exact F].
  rewrite C, fmap_js_get. do 3 f_equal. nia.
Qed.

(** X6.  [getI4x4] on a view that lies in the store returns a 4x4 matrix
    holding the identity, built on the supplied view, the only one
    written, or on a new buffer when no view is given; it throws, with
    the store untouched, exactly when a supplied view has not 16
    elements. *)
Theorem getI4x4_outcome (view : option Float32Array) h :
  (forall v, view = Some v -> valid h v) ->
  match getI4x4 view h with
  | Ret m h' =>
      is_Matrix4x4 m /\ contents h' (arr m) = I4
      /\ match view with
         | Some v => arr m = v /\ frame v h h'
         | None => allocated (arr m) h h'
         end
  | Throw msg h' =>
      h' = h
      /\ msg = "Provided view length does not fit matrix dims."%string
      /\ exists v, view = Some v /\ arr_length v <> 16
  end.
Proof.
  intros Hv. destruct view as [v |].
  - specialize (Hv v eq_refl). destruct (arr_length v =? 16) eqn:E.
    + pose proof E as E0. apply Z.eqb_eq in E.
      destruct (set_all_js_contents (mkMatrix 4 4 v) I4x4_vals h Hv)
        as (h' & E' & C & F); [done | done |].
      unfold getI4x4. erewrite bind_Ret.
      2:{ unfold new_Matrix4x4. rewrite new_Matrix4xN_int, new_Matrix_int. simpl.
          change (4 * 4) with 16. rewrite E0. reflexivity. }
      erewrite bind_Ret by exact E'. simpl. done.
    + unfold getI4x4. erewrite bind_Throw.
      2:{ unfold new_Matrix4x4. rewrite new_Matrix4xN_int, new_Matrix_int. simpl.
          change (4 * 4) with 16. rewrite E. reflexivity. }
      apply Z.eqb_neq in E. split; [done |]. split; [done |]. by exists v.
  - set (z := replicate 16 (fround (of_Z 0))).
    set (w := mkF32 (length h) 0 16).
    assert (V : valid (h ++ [z]) w) by by apply valid_new.
    destruct (set_all_js_contents (mkMatrix 4 4 w) I4x4_vals (h ++ [z]) V)
      as (h' & E' & C & F); [done | done |].
    unfold getI4x4. erewrite bind_Ret by apply new_Matrix4x4_None.
    erewrite bind_Ret by exact E'. simpl.
    split; [done |]. split; [done |].
    eapply allocated_frame; [| exact F]. apply (allocated_new h z).
Qed.

End Fill.

(** ** Optional outputs and copies *)

Section Outputs.
Context `{Scalar}.
Implicit Types (h : heap) (v w : Float32Array) (m : Matrix).

(** A call that allocates its output when none is supplied: what holds of
    the call with an output that overlaps no operand holds of the call
    without one. *)
Lemma with_output (n : Z) (ws : list Float32Array) (out : option Matrix) h
    (body : Matrix -> M Matrix) (Q : Matrix -> heap -> heap -> Prop) :
  0 < n ->
  Forall (valid h) ws ->
  output_ok h out n ws ->
  (forall h0 o,
     is_Matrix4xN o -> col_count o = n -> valid h0 (arr o) ->
     Forall (valid h0) ws ->
     Forall (fun w => view_disjoint w (arr o)) ws ->
     exists h', body o h0 = Ret o h' /\ frame (arr o) h0 h' /\ Q o h0 h') ->
  (forall o h0 h', Forall (valid h) ws ->
     (forall w, w ∈ ws -> contents h0 w = contents h w) ->
     Q o h0 h' -> Q o h h') ->
  exists m h',
    bind (or_new out (new_Matrix4xN n None)) body h = Ret m h'
    /\ output_of out m h h' /\ Q m h h'.
Proof.
  intros Hn Vs Ok Body Qh. destruct out as [o |].
  - destruct (Ok o eq_refl) as (M4 & Hc & Vo & D).
    destruct (Body h o M4 Hc Vo Vs D) as (h' & E & F & HQ).
    exists o, h'. split; [exact E |]. split; [by split | done].
  - set (z := replicate (Z.to_nat (4 * n)) (fround (of_Z 0))).
    set (o := mkMatrix 4 n (mkF32 (length h) 0 (Z.to_nat (4 * n)))).
    assert (A0 : allocated (arr o) h (h ++ [z])).
    { replace (arr o) with (mkF32 (length h) 0 (length z));
        [apply allocated_new |].
      unfold z. by rewrite length_replicate. }
    destruct (Body (h ++ [z]) o) as (h' & E & F & HQ).
    + unfold is_Matrix4xN, arr_length. simpl. lia.
    + done.
    + exact (proj1 A0).
    + eapply Forall_impl; [exact Vs |]. intros w Hw. by apply valid_alloc.
    + eapply Forall_impl; [exact Vs |]. intros w Hw. by apply valid_fresh_disjoint.
    + exists o, h'. split; [| split].
      * unfold or_new. erewrite bind_Ret by (by apply new_Matrix4xN_None).
        exact E.
      * by apply (allocated_frame _ h (h ++ [z])).
      * apply (Qh o (h ++ [z]) h' Vs); [| done].
        intros w Hw. apply contents_alloc.
        rewrite Forall_forall in Vs. by apply Vs.
Qed.

(** A call that writes its output alone leaves its operands as they were. *)
Lemma output_of_keeps (n : Z) (ws : list Float32Array) (out : option Matrix)
    (m : Matrix) h h' w :
  output_ok h out n ws -> output_of out m h h' ->
  w ∈ ws -> valid h w -> contents h' w = contents h w.
Proof.
  intros Ok O Hw Vw. destruct out as [o |].
  - destruct O as [-> F]. destruct (Ok o eq_refl) as (_ & _ & _ & D).
    apply (frame_contents (arr o) h); [done |].
    rewrite Forall_forall in D. by apply D.
  - destruct O as [_ K]. by destruct (K w Vw) as (_ & _ & ->).
Qed.

Lemma output_ok_4x4 h out ws o :
  output_ok h out 4 ws -> out = Some o -> valid4x4 h o.
Proof.
  intros Ok E. destruct (Ok o E) as ((R & C & L) & Hc & V & _).
  split; [| done]. unfold is_Matrix4x4. rewrite Hc in L. done.
Qed.

End Outputs.

Section Copies.
Context `{Scalar}.
Implicit Types (h : heap) (v w : Float32Array) (m : Matrix).

Lemma diag_pairs_S (k : nat) :
  diag_pairs (Z.of_nat (S k))
  = diag_pairs (Z.of_nat k) ++ [(Z.of_nat k, Z.of_nat k)].
Proof. unfold diag_pairs. by rewrite upto_S, fmap_app. Qed.

Lemma copy_listl_diag (a c : list f32) (k : nat) :
  (k <= length a)%nat -> length c = length a ->
  copy_listl a (diag_pairs (Z.of_nat k)) c = take k a ++ drop k c.
Proof.
  intros Hk Hl. induction k as [| k IH].
  - simpl. by rewrite drop_0.
  - rewrite diag_pairs_S. unfold copy_listl in *.
    rewrite foldl_app, IH by lia. simpl.
    destruct (lookup_lt_is_Some_2 a k) as [x Hx]; [lia |].
    destruct (lookup_lt_is_Some_2 c k) as [y Hy]; [lia |].
    rewrite (rdl_lookup a (Z.of_nat k) x) by (lia || by rewrite Nat2Z.id).
    rewrite fround_widen. unfold wrl.
    destruct (0 <=? Z.of_nat k) eqn:E0; [| apply Z.leb_gt in E0; lia].
    rewrite Nat2Z.id.
    rewrite insert_app_r_alt by (rewrite length_take; lia).
    rewrite length_take, Nat.min_l, Nat.sub_diag by lia.
    rewrite (drop_S _ y _ Hy). simpl.
    rewrite (take_S_r _ _ x Hx). by rewrite <- app_assoc.
Qed.

(** The copy loop into a view of the same length that does not overlap the
    source. *)
Lemma copy_loop_contents (src dst : Matrix) h :
  valid h (arr src) -> valid h (arr dst) ->
  view_disjoint (arr src) (arr dst) ->
  length32 (arr dst) = length32 (arr src) ->
  contents (copy_loop src dst h) (arr dst) = contents h (arr src)
  /\ frame (arr dst) h (copy_loop src dst h).
Proof.
  intros Vs Vd D L. rewrite copy_loop_copy_list. split.
  - rewrite copy_list_contents by done. unfold arr_length.
    rewrite copy_listl_diag.
    + rewrite take_ge, drop_ge; rewrite ?length_contents by done; try lia.
      by rewrite app_nil_r.
    + by rewrite length_contents.
    + by rewrite !length_contents.
  - apply writes_only_copy_list.
Qed.

(** X7.  [copy4xN] returns a matrix that holds the elements of the source,
    which it leaves untouched: the destination supplied, when it has as
    many columns as the source and does not overlap it, or a new matrix.
    A destination with another column count is rejected before anything
    is written. *)
Theorem copy4xN_outcome (src : Matrix) (dst : option Matrix) h :
  is_Matrix4xN src -> valid h (arr src) ->
  (forall d, dst = Some d ->
     is_Matrix4xN d /\ valid h (arr d) /\ view_disjoint (arr src) (arr d)) ->
  match copy4xN src dst h with
  | Ret m h' =>
      cols m = cols src
      /\ contents h' (arr m) = contents h (arr src)
      /\ output_of dst m h h'
  | Throw msg h' =>
      h' = h /\ msg = "Provided dst dims do not match src dims"%string
      /\ exists d, dst = Some d /\ cols d <> cols src
  end.
Proof.
  intros (Sr & Sc & Sl) Vs Hd. unfold copy4xN. destruct dst as [d |].
  - destruct (Hd d eq_refl) as ((Dr & Dc & Dl) & Vd & D).
    destruct (cols d =? cols src) eqn:E; simpl.
    + apply Z.eqb_eq in E. unfold cols in E.
      destruct (copy_loop_contents src d h) as [C F]; try done.
      unfold arr_length in *. lia.
    + apply Z.eqb_neq in E. cbv [bind throw]. split; [done |].
      split; [done |]. by exists d.
  - erewrite bind_Ret by (by apply new_Matrix4xN_None).
    cbv [bind ret exec].
    set (z := replicate _ _).
    set (d := mkMatrix _ _ _).
    assert (A0 : allocated (arr d) h (h ++ [z])).
    { replace (arr d) with (mkF32 (length h) 0 (length z));
        [apply allocated_new |].
      unfold z. by rewrite length_replicate. }
    destruct (copy_loop_contents src d (h ++ [z])) as [C F].
    + by apply valid_alloc.
    + exact (proj1 A0).
    + by apply valid_fresh_disjoint.
    + simpl. unfold cols, arr_length in *. lia.
    + split; [done |]. split.
      * rewrite C. by apply contents_alloc.
      * by apply (allocated_frame _ h (h ++ [z])).
Qed.

(** X8.  [copy4x4] and [copy4x1] return a matrix holding the elements of
    the source: the destination supplied, the only view written, when it
    does not overlap the source, or a new matrix. *)
Theorem copy4x4_copy4x1_outcome (src : Matrix) (dst : option Matrix) h :
  valid h (arr src) ->
  (is_Matrix4x4 src -> output_ok h dst 4 [arr src] ->
   exists m h',
     copy4x4 src dst h = Ret m h'
     /\ contents h' (arr m) = contents h (arr src)
     /\ output_of dst m h h')
  /\ (is_Matrix4x1 src -> output_ok h dst 1 [arr src] ->
      exists m h',
        copy4x1 src dst h = Ret m h'
        /\ contents h' (arr m) = contents h (arr src)
        /\ output_of dst m h h').
Proof.
  intros Vs.
  assert (K : forall n, 0 < n -> arr_length (arr src) = 4 * n ->
            output_ok h dst n [arr src] ->
            exists m h',
              bind (or_new dst (new_Matrix4xN n None))
                   (fun d => exec (copy_loop src d) ;; ret d) h = Ret m h'
              /\ output_of dst m h h'
              /\ contents h' (arr m) = contents h (arr src)).
  { intros n Hn Ls Ok.
    apply (with_output n [arr src] dst h _
             (fun m h0 h' => contents h' (arr m) = contents h0 (arr src)));
      try done.
    - by repeat constructor.
    - intros h0 o (Or & Oc & Ol) Hc Vo Vs0 D.
      apply Forall_inv in Vs0, D.
      destruct (copy_loop_contents src o h0) as [C F]; try done.
      { unfold arr_length in *. lia. }
      eexists. split; [reflexivity |]. done.
    - intros o h0 h' _ Hc E. rewrite E. apply Hc. apply list_elem_of_here. }
  split.
  - intros (Sr & Sc & Sl) Ok.
    destruct (K 4) as (m & h' & E & O & C); try done.
    exists m, h'. done.
  - intros (Sr & Sc & Sl) Ok.
    destruct (K 1) as (m & h' & E & O & C); try done.
    exists m, h'. done.
Qed.

End Copies.

(** ** Rotation builders and the fast kernels *)

Ltac pick_elem :=
  first [apply list_elem_of_here | apply list_elem_of_further; pick_elem].

Section Products.
Context `{Scalar}.
Implicit Types (h : heap) (v w : Float32Array) (m : Matrix).

Lemma Forall_pair {X} (P : X -> Prop) (x y : X) :
  Forall P [x; y] -> P x /\ P y.
Proof. intros F. inversion F as [| ? ? Hx F']. inversion F'. done. Qed.

(** X9.  Each of [get_rot_x], [get_rot_y] and [get_rot_z] returns, and its
    result holds the elemental rotation matrix of the angle whatever the
    output held before; the output supplied is the only view written, and
    without one the result is on a new buffer. *)
Theorem rotation_builders_outcome (rad : num) (out : option Matrix) h :
  output_ok h out 4 [] ->
  (exists m h', get_rot_x rad out h = Ret m h'
                /\ contents h' (arr m) = Rot_x rad /\ output_of out m h h')
  /\ (exists m h', get_rot_y rad out h = Ret m h'
                   /\ contents h' (arr m) = Rot_y rad /\ output_of out m h h')
  /\ (exists m h', get_rot_z rad out h = Ret m h'
                   /\ contents h' (arr m) = Rot_z rad /\ output_of out m h h').
Proof.
  intros Ok.
  assert (K : forall (f : num -> option Matrix -> M Matrix) (body : Matrix -> M Matrix)
                     (r : list f32),
            (forall o, f rad o = bind (or_new o (new_Matrix4xN 4 None)) body) ->
            (forall o h0, valid4x4 h0 o ->
               exists h', f rad (Some o) h0 = Ret o h'
                          /\ contents h' (arr o) = r /\ frame (arr o) h0 h') ->
            exists m h', f rad out h = Ret m h'
                         /\ contents h' (arr m) = r /\ output_of out m h h').
  { intros f body r Ef Sp.
    destruct (with_output 4 [] out h body (fun m _ h' => contents h' (arr m) = r))
      as (m & h' & E & O & C); try done.
    - intros h0 o (Or & Oc & Ol) Hc Vo _ _.
      destruct (Sp o h0) as (h' & E & C & F).
      { split; [| done]. unfold is_Matrix4x4. rewrite Hc in Ol. done. }
      exists h'. rewrite Ef in E. done.
    - exists m, h'. rewrite Ef. done. }
  split; [| split].
  - eapply K; [reflexivity |]. intros o h0. apply get_rot_x_spec.
  - eapply K; [reflexivity |]. intros o h0. apply get_rot_y_spec.
  - eapply K; [reflexivity |]. intros o h0. apply get_rot_z_spec.
Qed.

(** [multiply4x4_4x4] with its optional output. *)
Lemma multiply4x4_4x4_out (A B : Matrix) (C : option Matrix) h :
  valid h (arr A) -> valid h (arr B) -> length32 (arr B) = 16%nat ->
  output_ok h C 4 [arr A; arr B] ->
  exists m h',
    multiply4x4_4x4 A B C h = Ret m h'
    /\ contents h' (arr m) = mmul (contents h (arr A)) (contents h (arr B))
    /\ output_of C m h h'.
Proof.
  intros VA VB LB Ok.
  destruct (with_output 4 [arr A; arr B] C h
              (fun o => bind (ret o) (fun C =>
                 if same_view (arr A) (arr C) then throw msg_alias_A
                 else exec (mul_column (arr A) (arr B) (arr C) 0 ;>
                            mul_column (arr A) (arr B) (arr C) 4 ;>
                            mul_column (arr A) (arr B) (arr C) 8 ;>
                            mul_column (arr A) (arr B) (arr C) 12) ;; ret C))
              (fun m h0 h' =>
                 contents h' (arr m) = mmul (contents h0 (arr A)) (contents h0 (arr B))))
    as (m & h' & E & O & P); try done.
  - by repeat constructor.
  - intros h0 o (Or & Oc & Ol) Hc Vo [VA0 VB0]%Forall_pair [DA DB]%Forall_pair.
    destruct (multiply4x4_4x4_into A B o h0) as (h' & E & C0 & F); try done.
    { split; [| done]. unfold is_Matrix4x4. rewrite Hc in Ol. done. }
    exists h'. done.
  - intros o h0 h' _ Hc E. rewrite E.
    rewrite !Hc; [done | |]; pick_elem.
  - exists m, h'. split; [| done].
    rewrite <- E. unfold multiply4x4_4x4. destruct C; reflexivity.
Qed.

(** X10.  [multiply4x4_4x4] with an output that overlaps neither operand,
    or with none, returns a matrix holding the product A.B, each entry
    the rounded four-term sum of row by column, and leaves [A] and [B] as
    they were. *)
Theorem multiply4x4_4x4_product (A B : Matrix) (C : option Matrix) h :
  valid h (arr A) -> valid h (arr B) -> length32 (arr B) = 16%nat ->
  output_ok h C 4 [arr A; arr B] ->
  exists m h',
    multiply4x4_4x4 A B C h = Ret m h'
    /\ contents h' (arr m) = mmul (contents h (arr A)) (contents h (arr B))
    /\ contents h' (arr A) = contents h (arr A)
    /\ contents h' (arr B) = contents h (arr B)
    /\ output_of C m h h'.
Proof.
  intros VA VB LB Ok.
  destruct (multiply4x4_4x4_out A B C h VA VB LB Ok) as (m & h' & E & P & O).
  exists m, h'. split; [done |]. split; [done |].
  split; [| split; [| done]];
    apply (output_of_keeps 4 [arr A; arr B] C m h h'); try done; pick_elem.
Qed.

Lemma lookup_column (l : list f32) (k j : nat) :
  (j < 4)%nat -> column l k !! j = l !! (4 * k + j)%nat.
Proof.
  intros Hj. unfold column. by rewrite lookup_take_lt, lookup_drop by done.
Qed.

Lemma dotl_column (a b : list f32) (r : Z) (k : nat) :
  dotl a b r (4 * Z.of_nat k) = dotl a (column b k) r 0.
Proof.
  unfold dotl.
  assert (K : forall j : nat, (j < 4)%nat ->
            rdl b (4 * Z.of_nat k + Z.of_nat j) = rdl (column b k) (0 + Z.of_nat j)).
  { intros j Hj. unfold rdl.
    destruct (0 <=? _) eqn:E1; [| apply Z.leb_gt in E1; lia].
    destruct (0 <=? 0 + _) eqn:E2; [| apply Z.leb_gt in E2; lia].
    replace (Z.to_nat (0 + Z.of_nat j)) with j by lia.
    rewrite lookup_column by done.
    by replace (Z.to_nat (4 * Z.of_nat k + Z.of_nat j)) with (4 * k + j)%nat by lia. }
  pose proof (K 0%nat) as K0. pose proof (K 1%nat) as K1.
  pose proof (K 2%nat) as K2. pose proof (K 3%nat) as K3.
  change (Z.of_nat 0) with 0 in K0. change (Z.of_nat 1) with 1 in K1.
  change (Z.of_nat 2) with 2 in K2. change (Z.of_nat 3) with 3 in K3.
  by rewrite K0, K1, K2, K3 by lia.
Qed.

(** The loop of [multiply4x4_4xN] into an output that overlaps neither
    operand: every column of the output is the matrix applied to the same
    column of the input. *)
Lemma multiply4x4_4xN_into (A B C : Matrix) h :
  valid h (arr A) -> valid h (arr B) -> valid h (arr C) ->
  is_Matrix4xN B -> is_Matrix4xN C -> col_count C = col_count B ->
  view_disjoint (arr A) (arr C) -> view_disjoint (arr B) (arr C) ->
  exists h',
    multiply4x4_4xN A B (Some C) h = Ret C h'
    /\ frame (arr C) h h'
    /\ forall k : nat, Z.of_nat k < col_count B ->
         column (contents h' (arr C)) k
         = mmul_vec (contents h (arr A)) (column (contents h (arr B)) k).
Proof.
  intros VA VB VC (Br & Bc & Bl) (Cr & Cc & Cl) Hc DA DB.
  set (n := Z.to_nat (col_count B)).
  assert (Hn : arr_length (arr B) = 4 * Z.of_nat n) by lia.
  assert (LC : length32 (arr C) = (4 * n)%nat) by (unfold arr_length in *; lia).
  destruct (mul_loop_fresh (arr A) (arr B) (arr C) (cols4 n) h) as [Fr E];
    try done.
  eexists. split; [| split].
  - unfold multiply4x4_4xN. simpl. unfold bind at 1. simpl.
    rewrite view_disjoint_same_view by (done || lia).
    unfold cols. rewrite Hc, Z.eqb_refl. simpl.
    rewrite Hn, offsets4_cols4. unfold bind, exec, ret. reflexivity.
  - exact Fr.
  - intros k Hk. rewrite E.
    destruct (colmap_fresh_spec (dot_col (contents h (arr A)))
                (contents h (arr B)) (contents h (arr C)) n n)
      as (_ & Lk & _); [lia | by rewrite length_contents |].
    rewrite (column_lookup _ k (dot_col (contents h (arr A)) (contents h (arr B))
                                        (4 * Z.of_nat k))).
    + unfold mmul_vec. simpl. by rewrite <- !dotl_column.
    + intros j Hj. apply Lk; [lia | done].
Qed.

(** X11.  [multiply4x4_4xN] with an output of as many columns as [B] that
    overlaps neither operand, or with none, returns a matrix of that many
    columns whose column [k] is [A] applied to column [k] of [B]: the
    batch kernel does to every column what [multiply4x4_4x1] does to a
    vector. *)
Theorem multiply4x4_4xN_columns (A B : Matrix) (C : option Matrix) h :
  valid h (arr A) -> is_Matrix4xN B -> valid h (arr B) ->
  output_ok h C (cols B) [arr A; arr B] ->
  exists m h',
    multiply4x4_4xN A B C h = Ret m h'
    /\ cols m = cols B
    /\ (forall k : nat, Z.of_nat k < cols B ->
          column (contents h' (arr m)) k
          = mmul_vec (contents h (arr A)) (column (contents h (arr B)) k))
    /\ output_of C m h h'.
Proof.
  intros VA MB VB Ok.
  destruct (with_output (cols B) [arr A; arr B] C h
              (fun o => multiply4x4_4xN A B (Some o))
              (fun m h0 h' =>
                 cols m = cols B
                 /\ forall k : nat, Z.of_nat k < cols B ->
                      column (contents h' (arr m)) k
                      = mmul_vec (contents h0 (arr A)) (column (contents h0 (arr B)) k)))
    as (m & h' & E & O & P1 & P2); try done.
  - apply MB.
  - by repeat constructor.
  - intros h0 o Mo Hc Vo [VA0 VB0]%Forall_pair [DA DB]%Forall_pair.
    destruct (multiply4x4_4xN_into A B o h0) as (h' & E & F & Cs); try done.
    exists h'. done.
  - intros o h0 h' _ Hc [E1 E2]. split; [done |]. intros k Hk.
    rewrite E2 by done. rewrite !Hc; [done | |]; pick_elem.
  - exists m, h'. split; [| done].
    rewrite <- E. unfold multiply4x4_4xN. destruct C; reflexivity.
Qed.

Lemma length4_inv (l : list f32) :
  length l = 4%nat -> exists x0 x1 x2 x3, l = [x0; x1; x2; x3].
Proof.
  destruct l as [| x0 [| x1 [| x2 [| x3 [| ? ?]]]]]; try discriminate.
  intros _. by eexists _, _, _, _.
Qed.

(** X12.  [multiply4x4_4x1] with an output that overlaps neither operand,
    or with none, returns a vector holding [A] applied to [B], each entry
    the rounded four-term sum of a row of [A] by [B]. *)
Theorem multiply4x4_4x1_product (A B : Matrix) (C : option Matrix) h :
  valid h (arr A) -> valid h (arr B) ->
  output_ok h C 1 [arr A; arr B] ->
  exists m h',
    multiply4x4_4x1 A B C h = Ret m h'
    /\ contents h' (arr m) = mmul_vec (contents h (arr A)) (contents h (arr B))
    /\ output_of C m h h'.
Proof.
  intros VA VB Ok.
  destruct (with_output 1 [arr A; arr B] C h
              (fun o => multiply4x4_4x1 A B (Some o))
              (fun m h0 h' =>
                 contents h' (arr m)
                 = mmul_vec (contents h0 (arr A)) (contents h0 (arr B))))
    as (m & h' & E & O & P); try done.
  - by repeat constructor.
  - intros h0 o (Or & Oc & Ol) Hc Vo [VA0 VB0]%Forall_pair [DA DB]%Forall_pair.
    eexists. split; [| split].
    + unfold multiply4x4_4x1. simpl. unfold bind at 1. simpl.
      rewrite view_disjoint_same_view by (done || unfold arr_length in Ol; lia).
      unfold bind, exec, ret. reflexivity.
    + apply writes_only_mul_column.
    + rewrite mul_column_contents by done.
      destruct (length4_inv (contents h0 (arr o))) as (x0 & x1 & x2 & x3 & ->).
      { rewrite length_contents by done. unfold arr_length in Ol. lia. }
      reflexivity.
  - intros o h0 h' _ Hc E. rewrite E.
    rewrite !Hc; [done | |]; pick_elem.
  - exists m, h'. split; [| done].
    rewrite <- E. unfold multiply4x4_4x1. destruct C; reflexivity.
Qed.

End Products.

(** ** The generic [multiply] *)

Section GenericMultiply.
Context `{Scalar}.
Implicit Types (h : heap) (v w : Float32Array) (m : Matrix).
Implicit Types (row col : Z).

(** A monadic loop whose body never throws is a loop on the store. *)
Lemma for_eachM_pure idx (body : Z -> M unit) (f : Z -> heap -> heap) h :
  (forall i h', i ∈ idx -> body i h' = Ret tt (f i h')) ->
  for_eachM idx body h = Ret tt (for_each idx f h).
Proof.
  revert h. induction idx as [| i idx IH]; intros h Hb; [reflexivity |].
  rewrite for_each_cons. cbn [for_eachM].
  erewrite bind_Ret by (apply Hb; apply list_elem_of_here).
  apply IH. intros j h' Hj. apply Hb.
  by apply list_elem_of_further.
Qed.

(** Two nested loops visit the pairs of indices in row-major order. *)
Lemma for_each_nested (rs cs : list Z) (F : Z -> Z -> heap -> heap) h :
  for_each rs (fun r => for_each cs (F r)) h
  = foldl (fun h p => F p.1 p.2 h) h (rs ≫= (fun r => (fun c => (r, c)) <$> cs)).
Proof.
  revert h. induction rs as [| r rs IH]; intros h; [reflexivity |].
  rewrite for_each_cons, IH. simpl. rewrite foldl_app. f_equal.
  unfold for_each. by rewrite foldl_fmap.
Qed.

(** A run of stores through [v], the store at index [i] being of the value
    [V i]: afterwards every index visited holds its value. *)
Lemma foldl_writes {X} (v : Float32Array) (ix : X -> Z) (V : Z -> f32)
    (step : X -> heap -> heap) (h0 : heap) (xs : list X) :
  valid h0 v ->
  (forall x h, x ∈ xs -> frame v h0 h ->
     frame v h (step x h)
     /\ contents (step x h) v = wrl (contents h v) (ix x) (V (ix x))) ->
  (forall x, x ∈ xs -> 0 <= ix x /\ (Z.to_nat (ix x) < length32 v)%nat) ->
  let h' := foldl (fun h x => step x h) h0 xs in
  frame v h0 h'
  /\ forall x, x ∈ xs -> contents h' v !! Z.to_nat (ix x) = Some (V (ix x)).
Proof.
  intros V0. induction xs as [| x xs IH] using rev_ind; intros St In; simpl.
  - split; [apply frame_refl |]. intros x Hx. by apply elem_of_nil in Hx.
  - rewrite foldl_app. simpl.
    destruct IH as [F1 L1].
    { intros y h Hy. apply St. apply elem_of_app. by left. }
    { intros y Hy. apply In. apply elem_of_app. by left. }
    set (h1 := foldl _ h0 xs) in *.
    destruct (St x h1) as [F2 C2]; [apply elem_of_app; right; apply list_elem_of_here | done |].
    split; [by apply (frame_trans v h0 h1) |].
    intros y Hy. rewrite C2.
    destruct (In x) as [I0 I1]; [apply elem_of_app; right; apply list_elem_of_here |].
    destruct (decide (ix y = ix x)) as [e | n].
    + rewrite e. apply lookup_wrl_eq; [done |].
      rewrite length_contents; [done |]. by apply (frame_valid v h0).
    + destruct (In y Hy) as [J0 J1].
      rewrite lookup_wrl_ne by (done || lia).
      apply elem_of_app in Hy as [Hy | Hy]; [by apply L1 |].
      apply list_elem_of_singleton in Hy. congruence.
Qed.

Lemma out_of_dims_false m row col :
  0 <= row < row_count m -> 0 <= col < col_count m ->
  out_of_dims m row col = false.
Proof.
  intros Hr Hc. rewrite out_of_dims_int.
  rewrite !orb_false_iff, !Z.ltb_ge, !Z.geb_leb, !Z.leb_gt. lia.
Qed.

(** The innermost loop never throws on indices inside the operands. *)
Lemma multiply_sum_run (A B : Matrix) (row col : Z) (ks : list Z) (s : num) h :
  0 <= row < row_count A -> 0 <= col < col_count B ->
  (forall k, k ∈ ks -> 0 <= k < col_count A /\ 0 <= k < row_count B) ->
  multiply_sum A B row col ks s h
  = Ret (foldl (fun s k =>
                  (s + rd h (arr A) (row + k * row_count A)
                       * rd h (arr B) (k + col * row_count B))%num)
               s ks) h.
Proof.
  intros Hr Hc. revert s. induction ks as [| k ks IH]; intros s Hk;
    [reflexivity |].
  destruct (Hk k) as [K1 K2]; [apply list_elem_of_here |].
  cbn [multiply_sum].
  erewrite bind_Ret by (apply get_in_dims; by apply out_of_dims_false).
  erewrite bind_Ret by (apply get_in_dims; by apply out_of_dims_false).
  apply IH. intros j Hj. apply Hk. by apply list_elem_of_further.
Qed.

Lemma foldl_rd_contents (A B : Float32Array) (ra rb row col : Z) (ks : list Z)
    (s : num) h :
  valid h A -> valid h B ->
  foldl (fun s k => (s + rd h A (row + k * ra) * rd h B (k + col * rb))%num) s ks
  = foldl (fun s k => (s + rdl (contents h A) (row + k * ra)
                           * rdl (contents h B) (k + col * rb))%num) s ks.
Proof.
  intros VA VB. revert s. induction ks as [| k ks IH]; intros s; [reflexivity |].
  simpl. by rewrite IH, !rd_contents.
Qed.

(** [multiply] into an output of the right dimensions that overlaps neither
    operand. *)
Lemma multiply_into (A B C : Matrix) h :
  wf_Matrix A -> wf_Matrix B -> wf_Matrix C ->
  valid h (arr A) -> valid h (arr B) -> valid h (arr C) ->
  cols A = rows B -> rows C = rows A -> cols C = cols B ->
  view_disjoint (arr A) (arr C) -> view_disjoint (arr B) (arr C) ->
  exists h',
    multiply A B (Some C) h = Ret C h'
    /\ frame (arr C) h h'
    /\ forall row col, 0 <= row < rows A -> 0 <= col < cols B ->
         contents h' (arr C) !! Z.to_nat (row + col * rows A)
         = Some (fround (mul_entry (contents h (arr A)) (contents h (arr B))
                           (rows A) (rows B) (upto (cols A)) row col)).
Proof.
  unfold rows, cols.
  intros WA WB WC VA VB VC Eab Ecr Ecc DA DB.
  pose proof WC as (RC1 & CC1 & LC). unfold arr_length in LC.
  set (a := contents h (arr A)). set (b := contents h (arr B)).
  set (F := fun (row col : Z) (h1 : heap) =>
              aset (arr C) (row + col * row_count C)
                (foldl (fun s k =>
                          (s + rd h1 (arr A) (row + k * row_count A)
                               * rd h1 (arr B) (k + col * row_count B))%num)
                       (of_Z 0) (upto (col_count A))) h1).
  set (V := fun i : Z =>
              fround (mul_entry a b (row_count A) (row_count B)
                        (upto (col_count A)) (i mod row_count A) (i / row_count A))).
  set (ps := upto (row_count A) ≫= (fun r => (fun c => (r, c)) <$> upto (col_count B))).
  assert (Hps : forall p, p ∈ ps ->
            0 <= p.1 < row_count A /\ 0 <= p.2 < col_count B).
  { intros [r c] Hp. unfold ps in Hp.
    apply list_elem_of_bind in Hp as (r' & Hp & Hr).
    apply list_elem_of_fmap in Hp as (c' & [= -> ->] & Hc).
    unfold upto in *. apply elem_of_seqZ in Hr, Hc. simpl. lia. }
  destruct (foldl_writes (arr C) (fun p : Z * Z => p.1 + p.2 * row_count C) V
              (fun p => F p.1 p.2) h ps VC) as [Fr Lk].
  { intros [r c] h1 Hp F1. destruct (Hps _ Hp) as [Hr Hc]. simpl in *.
    split; [apply (writes_only_aset_const (arr C)) |].
    unfold F. rewrite contents_aset_same by (by apply (frame_valid (arr C) h)).
    f_equal. unfold V.
    rewrite foldl_rd_contents by (by apply (frame_valid (arr C) h)).
    rewrite !(frame_contents (arr C) h h1) by done. fold a b.
    rewrite Ecr. rewrite Z.mod_add, Z.div_add by lia.
    rewrite Z.mod_small, Z.div_small by lia. by rewrite Z.add_0_l. }
  { intros [r c] Hp. destruct (Hps _ Hp) as [Hr Hc]. simpl in *. nia. }
  exists (foldl (fun h1 p => F p.1 p.2 h1) h ps). split; [| split].
  - unfold multiply. simpl. unfold bind at 1. simpl.
    rewrite !view_disjoint_same_view by (done || nia). simpl.
    unfold rows, cols.
    rewrite (proj2 (Z.eqb_eq _ _) Eab), (proj2 (Z.eqb_eq _ _) (eq_sym Ecr)),
      (proj2 (Z.eqb_eq _ _) (eq_sym Ecc)). simpl.
    erewrite bind_Ret; [reflexivity |].
    unfold ps. rewrite <- for_each_nested.
    apply for_eachM_pure. intros row h1 Hrow.
    apply for_eachM_pure. intros col h2 Hcol.
    unfold upto in Hrow, Hcol. apply elem_of_seqZ in Hrow, Hcol.
    erewrite bind_Ret.
    2:{ apply multiply_sum_run; [lia | lia |]. intros k Hk. unfold upto in Hk.
        apply elem_of_seqZ in Hk. lia. }
    rewrite set_in_dims by (apply out_of_dims_false; lia). reflexivity.
  - exact Fr.
  - intros row col Hr Hc.
    assert (Hp : (row, col) ∈ ps).
    { unfold ps. apply list_elem_of_bind. exists row. split.
      - apply list_elem_of_fmap. exists col. split; [done |].
        unfold upto. apply elem_of_seqZ. lia.
      - unfold upto. apply elem_of_seqZ. lia. }
    specialize (Lk _ Hp). simpl in Lk. rewrite Ecr in Lk. rewrite Lk.
    unfold V. rewrite Z.mod_add, Z.div_add by lia.
    rewrite Z.mod_small, Z.div_small by lia. by rewrite Z.add_0_l.
Qed.

(** [multiply] with its optional output. *)
Lemma multiply_out (A B : Matrix) (C : option Matrix) h :
  wf_Matrix A -> wf_Matrix B -> valid h (arr A) -> valid h (arr B) ->
  cols A = rows B ->
  (forall c, C = Some c ->
     wf_Matrix c /\ rows c = rows A /\ cols c = cols B /\ valid h (arr c)
     /\ view_disjoint (arr A) (arr c) /\ view_disjoint (arr B) (arr c)) ->
  exists m h',
    multiply A B C h = Ret m h'
    /\ wf_Matrix m /\ rows m = rows A /\ cols m = cols B
    /\ (forall row col, 0 <= row < rows A -> 0 <= col < cols B ->
          contents h' (arr m) !! Z.to_nat (row + col * rows A)
          = Some (fround (mul_entry (contents h (arr A)) (contents h (arr B))
                            (rows A) (rows B) (upto (cols A)) row col)))
    /\ output_of C m h h'.
Proof.
  intros WA WB VA VB Eab HC. destruct C as [c |].
  - destruct (HC c eq_refl) as (Wc & Er & Ec & Vc & DA & DB).
    destruct (multiply_into A B c h) as (h' & E & F & L); try done.
    exists c, h'. done.
  - pose proof WA as (RA1 & _ & _). pose proof WB as (_ & CB1 & _).
    unfold rows, cols in *.
    set (n := Z.to_nat (row_count A * col_count B)).
    set (z := replicate n (fround (of_Z 0))).
    set (c := mkMatrix (row_count A) (col_count B) (mkF32 (length h) 0 n)).
    assert (A0 : allocated (arr c) h (h ++ [z])).
    { replace (arr c) with (mkF32 (length h) 0 (length z));
        [apply allocated_new |].
      unfold z. by rewrite length_replicate. }
    assert (Wc : wf_Matrix c) by (unfold wf_Matrix, arr_length; simpl; nia).
    destruct (multiply_into A B c (h ++ [z])) as (h' & E & F & L); try done.
    + by apply valid_alloc.
    + by apply valid_alloc.
    + exact (proj1 A0).
    + by apply valid_fresh_disjoint.
    + by apply valid_fresh_disjoint.
    + exists c, h'. split; [| split; [done | split; [done | split; [done | split]]]].
      * rewrite <- E. unfold multiply, or_new, rows, cols.
        erewrite bind_Ret; [reflexivity |].
        rewrite new_Matrix_int.
        destruct (row_count A <? 1) eqn:E1; [apply Z.ltb_lt in E1; lia |].
        destruct (col_count B <? 1) eqn:E2; [apply Z.ltb_lt in E2; lia |].
        reflexivity.
      * intros row col Hr Hc. pose proof (L row col Hr Hc) as Lrc.
        unfold rows, cols in Lrc. rewrite Lrc.
        by rewrite !contents_alloc.
      * by apply (allocated_frame _ h (h ++ [z])).
Qed.

(** X13.  The generic [multiply] of an RxK by a KxC matrix, with an RxC
    output that overlaps neither operand or with none, never throws: no
    [get] or [set] of its loops is out of range.  It returns an RxC
    matrix in which [get(row, col)] is the sum, accumulated from 0 in the
    order of the inner index and rounded once when stored, of the
    products [A(row, k) * B(k, col)]. *)
Theorem multiply_computes_product (A B : Matrix) (C : option Matrix) h :
  wf_Matrix A -> wf_Matrix B -> valid h (arr A) -> valid h (arr B) ->
  cols A = rows B ->
  (forall c, C = Some c ->
     wf_Matrix c /\ rows c = rows A /\ cols c = cols B /\ valid h (arr c)
     /\ view_disjoint (arr A) (arr c) /\ view_disjoint (arr B) (arr c)) ->
  exists m h',
    multiply A B C h = Ret m h'
    /\ rows m = rows A /\ cols m = cols B
    /\ (forall row col, 0 <= row < rows A -> 0 <= col < cols B ->
          get m row col h'
          = Ret (widen (fround (mul_entry (contents h (arr A)) (contents h (arr B))
                                  (rows A) (rows B) (upto (cols A)) row col))) h')
    /\ output_of C m h h'.
Proof.
  intros WA WB VA VB Eab HC.
  destruct (multiply_out A B C h WA WB VA VB Eab HC)
    as (m & h' & E & Wm & Er & Ec & L & O).
  exists m, h'. do 3 (split; [done |]). split; [| done].
  intros row col Hr Hc. unfold rows, cols in *.
  assert (Vm : valid h' (arr m)).
  { destruct C as [c |].
    - destruct O as [-> F]. apply (frame_valid (arr c) h); [done |].
      by destruct (HC c eq_refl) as (_ & _ & _ & Vc & _).
    - exact (proj1 O). }
  rewrite get_in_dims by (apply out_of_dims_false; lia).
  rewrite rd_contents by done. f_equal. rewrite Er.
  apply rdl_lookup; [nia |]. by apply L.
Qed.

End GenericMultiply.

(** * More of the camera *)

Section CameraMore.
Context `{Scalar}.
Implicit Types (h : heap) (v w : Float32Array) (m : Matrix).

(** [getI4x4] on a supplied 16-element view. *)
Lemma getI4x4_into v h :
  valid h v -> arr_length v = 16 ->
  exists h', getI4x4 (Some v) h = Ret (mkMatrix 4 4 v) h'
             /\ contents h' v = I4 /\ frame v h h'.
Proof.
  intros V E.
  destruct (set_all_js_contents (mkMatrix 4 4 v) I4x4_vals h V)
    as (h' & E' & C & F); [done | done |].
  exists h'. split; [| done].
  unfold getI4x4. erewrite bind_Ret.
  2:{ unfold new_Matrix4x4. rewrite new_Matrix4xN_int, new_Matrix_int. simpl.
      change (4 * 4) with 16. rewrite (proj2 (Z.eqb_eq _ _) E). reflexivity. }
  erewrite bind_Ret by exact E'. reflexivity.
Qed.

(** X14.  The [Camera] constructor always returns: the four matrices of
    the camera are 4x4, on four buffers of their own, each holds the
    identity, the numeric fields are all undefined, and no view that
    existed before is changed. *)
Theorem new_Camera_identity h :
  exists this h',
    new_Camera h = Ret this h'
    /\ wf_Camera h' this
    /\ contents h' (arr (swp this)) = I4
    /\ contents h' (arr (inv_rot this)) = I4
    /\ contents h' (arr (inv_tra this)) = I4
    /\ contents h' (arr (camera_transform this)) = I4
    /\ (res_x this, res_y this, max_px this, max_view_angle_rad this)
       = (None, None, None, None)
    /\ (px_density this, aspect_ratio this, e_z this) = (None, None, None)
    /\ forall v, valid h v -> valid h' v /\ contents h' v = contents h v.
Proof.
  set (z := replicate 16 (fround (of_Z 0))).
  set (h4 := (((h ++ [z]) ++ [z]) ++ [z]) ++ [z]).
  set (v0 := mkF32 (length h) 0 16).
  set (v1 := mkF32 (length (h ++ [z])) 0 16).
  set (v2 := mkF32 (length ((h ++ [z]) ++ [z])) 0 16).
  set (v3 := mkF32 (length (((h ++ [z]) ++ [z]) ++ [z])) 0 16).
  assert (V0 : valid h4 v0) by (do 3 apply valid_alloc; by apply valid_new).
  assert (V1 : valid h4 v1) by (do 2 apply valid_alloc; by apply valid_new).
  assert (V2 : valid h4 v2) by (apply valid_alloc; by apply valid_new).
  assert (V3 : valid h4 v3) by (by apply valid_new).
  assert (D : forall i j : nat, i <> j ->
            view_disjoint (mkF32 i 0 16) (mkF32 j 0 16)) by (by left).
  assert (D01 : view_disjoint v0 v1) by (apply D; rewrite ?length_app; simpl; lia).
  assert (D02 : view_disjoint v0 v2) by (apply D; rewrite ?length_app; simpl; lia).
  assert (D03 : view_disjoint v0 v3) by (apply D; rewrite ?length_app; simpl; lia).
  assert (D12 : view_disjoint v1 v2) by (apply D; rewrite ?length_app; simpl; lia).
  assert (D13 : view_disjoint v1 v3) by (apply D; rewrite ?length_app; simpl; lia).
  assert (D23 : view_disjoint v2 v3) by (apply D; rewrite ?length_app; simpl; lia).
  destruct (getI4x4_into v0 h4 V0 eq_refl) as (h5 & E5 & C5 & F5).
  destruct (getI4x4_into v1 h5) as (h6 & E6 & C6 & F6);
    [by apply (frame_valid v0 h4) | done |].
  destruct (getI4x4_into v3 h6) as (h7 & E7 & C7 & F7);
    [apply (frame_valid v1 h5); [done |]; by apply (frame_valid v0 h4) | done |].
  destruct (getI4x4_into v2 h7) as (h8 & E8 & C8 & F8).
  { apply (frame_valid v3 h6); [done |]. apply (frame_valid v1 h5); [done |].
    by apply (frame_valid v0 h4). }
  { done. }
  assert (K : forall v, valid h4 v -> valid h8 v).
  { intros v Hv. apply (frame_valid v2 h7); [done |].
    apply (frame_valid v3 h6); [done |]. apply (frame_valid v1 h5); [done |].
    by apply (frame_valid v0 h4). }
  exists (mkCamera None None None None None None None
            (mkMatrix 4 4 v0) (mkMatrix 4 4 v1) (mkMatrix 4 4 v2) (mkMatrix 4 4 v3)),
    h8.
  split; [| split; [| split; [| split; [| split; [| split; [| split; [done | split; [done |]]]]]]]].
  - unfold new_Camera.
    erewrite bind_Ret by apply new_Matrix4x4_None.
    erewrite bind_Ret by apply new_Matrix4x4_None.
    erewrite bind_Ret by apply new_Matrix4x4_None.
    erewrite bind_Ret by apply new_Matrix4x4_None.
    erewrite bind_Ret by exact E5. erewrite bind_Ret by exact E6.
    erewrite bind_Ret by exact E7. erewrite bind_Ret by exact E8.
    reflexivity.
  - unfold wf_Camera, valid4x4. simpl.
    do 4 (split; [split; [done | by apply K] |]).
    done.
  - simpl. rewrite (frame_contents v2 h7 h8), (frame_contents v3 h6 h7),
      (frame_contents v1 h5 h6) by done. exact C5.
  - simpl. rewrite (frame_contents v2 h7 h8), (frame_contents v3 h6 h7) by done.
    exact C6.
  - exact C8.
  - simpl. rewrite (frame_contents v2 h7 h8) by (done || by apply view_disjoint_sym).
    exact C7.
  - intros v Hv.
    assert (Hv4 : valid h4 v) by (by do 4 apply valid_alloc).
    split; [by apply K |].
    assert (Hlt : (buffer v < length h)%nat) by (by apply valid_buffer_lt in Hv).
    assert (Dv : forall j, (length h <= j)%nat -> view_disjoint v (mkF32 j 0 16)).
    { intros j Hj. left. simpl. lia. }
    rewrite (frame_contents v2 h7 h8), (frame_contents v3 h6 h7),
      (frame_contents v1 h5 h6), (frame_contents v0 h4 h5);
      try done; try (apply Dv; rewrite ?length_app; simpl; lia).
    unfold h4. rewrite !contents_alloc; try done; by repeat apply valid_alloc.
Qed.

(** X15.  [update_cam_transform] stores the product [inv_rot . inv_tra]
    in [camera_transform] and writes nothing else: the rotation is applied
    after the translation. *)
Theorem update_cam_transform_product (this : Camera) h :
  wf_Camera h this ->
  exists h',
    update_cam_transform this h = Ret tt h'
    /\ contents h' (arr (camera_transform this))
       = mmul (contents h (arr (inv_rot this))) (contents h (arr (inv_tra this)))
    /\ frame (arr (camera_transform this)) h h'
    /\ wf_Camera h' this.
Proof.
  intros W. pose proof W as (Vs & Vr & Vt & Vc & Dsr & Dst & Dsc & Drt & Drc & Dtc).
  destruct (multiply4x4_4x4_into (inv_rot this) (inv_tra this)
              (camera_transform this) h) as (h' & E & C & F); try done.
  - apply Vr.
  - apply Vt.
  - apply is_Matrix4x4_length, Vt.
  - exists h'. split; [| split; [done | split; [done |]]].
    + unfold update_cam_transform. erewrite bind_Ret by exact E. reflexivity.
    + by apply (wf_Camera_frame this (arr (camera_transform this)) h).
Qed.

(** X16.  [g_rot] replaces [inv_rot] by R . inv_rot and [l_rot] replaces
    it by inv_rot . R, where R is the elemental rotation about the axis
    by the angle; both leave [inv_tra] and [camera_transform] as they
    were, and the camera well formed, so that calls can be chained. *)
Theorem g_rot_l_rot_compose (this : Camera) (A : Axis.t) (theta : num) h :
  wf_Camera h this ->
  (exists h',
     g_rot this A theta h = Ret tt h'
     /\ contents h' (arr (inv_rot this))
        = mmul (Rot A theta) (contents h (arr (inv_rot this)))
     /\ contents h' (arr (inv_tra this)) = contents h (arr (inv_tra this))
     /\ contents h' (arr (camera_transform this))
        = contents h (arr (camera_transform this))
     /\ wf_Camera h' this)
  /\ (exists h',
        l_rot this A theta h = Ret tt h'
        /\ contents h' (arr (inv_rot this))
           = mmul (contents h (arr (inv_rot this))) (Rot A theta)
        /\ contents h' (arr (inv_tra this)) = contents h (arr (inv_tra this))
        /\ contents h' (arr (camera_transform this))
           = contents h (arr (camera_transform this))
        /\ wf_Camera h' this).
Proof.
  intros W. pose proof W as (Vs & Vr & Vt & Vc & Dsr & Dst & Dsc & Drt & Drc & Dtc).
  split.
  - destruct (g_rot_spec this A theta h W) as (h' & E & C & F).
    exists h'. split; [done |]. split; [done |].
    pose proof F as (_ & _ & K). split; [| split].
    + apply K. repeat (constructor; [by apply view_disjoint_sym |]). constructor.
    + apply K. repeat (constructor; [by apply view_disjoint_sym |]). constructor.
    + by apply (wf_Camera_frames this [arr (swp this); arr (inv_rot this)] h).
  - destruct (l_rot_spec this A theta h W) as (h' & E & C & F).
    exists h'. split; [done |]. split; [done |].
    pose proof F as (_ & _ & K). split; [| split].
    + apply K. repeat (constructor; [by apply view_disjoint_sym |]). constructor.
    + apply K. repeat (constructor; [by apply view_disjoint_sym |]). constructor.
    + by apply (wf_Camera_frames this [arr (swp this); arr (inv_rot this)] h).
Qed.

(** What [set_pos] leaves in [inv_tra]. *)
Lemma set_pos_contents (this : Camera) (pos : Matrix) h :
  valid4x4 h (inv_tra this) -> valid h (arr pos) ->
  view_disjoint (arr pos) (arr (inv_tra this)) ->
  let p := contents h (arr pos) in
  exists h',
    set_pos this pos h = Ret tt h'
    /\ contents h' (arr (inv_tra this))
       = take 12 (contents h (arr (inv_tra this)))
         ++ [fround (- rdl p 0)%num; fround (- rdl p 1)%num;
             fround (- rdl p 2)%num; fround (of_Z 1)]
    /\ frame (arr (inv_tra this)) h h'.
Proof.
  intros [M4 Vt] Vp D p.
  destruct (set_pos_spec this pos h) as (h' & E & F).
  exists h'. split; [exact E |]. split.
  - unfold set_pos, exec in E. injection E as <-.
    set (T := arr (inv_tra this)) in *.
    unfold then_.
    set (h1 := aset T 12 _ h).
    set (h2 := aset T 13 _ h1).
    set (h3 := aset T 14 _ h2).
    assert (V1 : valid h1 T) by (by apply valid_aset).
    assert (V2 : valid h2 T) by (by apply valid_aset).
    assert (V3 : valid h3 T) by (by apply valid_aset).
    assert (P1 : contents h1 (arr pos) = p) by (by apply contents_aset_disjoint).
    assert (P2 : contents h2 (arr pos) = p)
      by (unfold h2; by rewrite contents_aset_disjoint).
    rewrite contents_aset_same by done.
    unfold h3. rewrite contents_aset_same by done.
    rewrite (rd_contents h2), P2 by (by do 2 apply valid_aset).
    unfold h2. rewrite contents_aset_same by done.
    rewrite (rd_contents h1), P1 by (by apply valid_aset).
    unfold h1. rewrite contents_aset_same by done.
    rewrite (rd_contents h) by done. fold p.
    destruct (length16_inv (contents h T)) as
      (c0 & c1 & c2 & c3 & c4 & c5 & c6 & c7 & c8 & c9 & c10 & c11 & c12
          & c13 & c14 & c15 & ->).
    { rewrite length_contents by done. by apply is_Matrix4x4_length. }
    reflexivity.
  - destruct F as (L & V & C). split; [done |]. split; [done |].
    intros v Dv. apply C. by constructor.
Qed.

(** X17.  [set_pos] overwrites the last column of [inv_tra] with the
    negated first three components of the position and a 1, each rounded,
    and keeps its first three columns; [inv_rot], [camera_transform] and
    the position itself are left as they were. *)
Theorem set_pos_translation (this : Camera) (pos : Matrix) h :
  wf_Camera h this -> valid h (arr pos) ->
  view_disjoint (arr pos) (arr (inv_tra this)) ->
  let p := contents h (arr pos) in
  exists h',
    set_pos this pos h = Ret tt h'
    /\ contents h' (arr (inv_tra this))
       = take 12 (contents h (arr (inv_tra this)))
         ++ [fround (- rdl p 0)%num; fround (- rdl p 1)%num;
             fround (- rdl p 2)%num; fround (of_Z 1)]
    /\ contents h' (arr (inv_rot this)) = contents h (arr (inv_rot this))
    /\ contents h' (arr (camera_transform this))
       = contents h (arr (camera_transform this))
    /\ contents h' (arr pos) = contents h (arr pos)
    /\ wf_Camera h' this.
Proof.
  intros W Vp D p.
  pose proof W as (Vs & Vr & Vt & Vc & Dsr & Dst & Dsc & Drt & Drc & Dtc).
  destruct (set_pos_contents this pos h Vt Vp D) as (h' & E & C & F).
  exists h'. split; [done |]. split; [done |].
  split; [| split; [| split]].
  - by apply (frame_contents (arr (inv_tra this)) h).
  - apply (frame_contents (arr (inv_tra this)) h); [done |].
    by apply view_disjoint_sym.
  - by apply (frame_contents (arr (inv_tra this)) h).
  - by apply (wf_Camera_frame this (arr (inv_tra this)) h).
Qed.






End CameraMore.

Section ProjectionMore.
Context `{Scalar}.
Implicit Types (h : heap) (v w : Float32Array) (m : Matrix).



End ProjectionMore.

(** * The cross product, and what holds in real arithmetic *)

Section CrossProduct.
Context `{ScalarSub}.
Implicit Types (h : heap) (v w : Float32Array) (m : Matrix).

(** [cross3] with its optional output, which overlaps neither operand. *)
Lemma cross3_out (A B : Matrix) (C : option Matrix) h :
  valid h (arr A) -> valid h (arr B) ->
  output_ok h C 1 [arr A; arr B] ->
  exists m h',
    cross3 A B C h = Ret m h'
    /\ output_of C m h h'
    /\ contents h' (arr m) = cross3l (contents h (arr A)) (contents h (arr B)).
Proof.
  intros VA VB Ok.
  apply (with_output 1 [arr A; arr B] C h _
           (fun m h0 h' =>
              contents h' (arr m)
              = cross3l (contents h0 (arr A)) (contents h0 (arr B))));
    try done.
  - by repeat constructor.
  - intros h0 o (Or & Oc & Ol) Hc Vo [VA0 VB0]%Forall_pair [DA DB]%Forall_pair.
    eexists. split; [reflexivity |].
    set (T := arr o) in *. unfold then_.
    set (h1 := aset T 0 _ h0).
    set (h2 := aset T 1 _ h1).
    set (h3 := aset T 2 _ h2).
    assert (V1 : valid h1 T) by (by apply valid_aset).
    assert (V2 : valid h2 T) by (by apply valid_aset).
    assert (V3 : valid h3 T) by (by apply valid_aset).
    assert (A1 : contents h1 (arr A) = contents h0 (arr A))
      by (by apply contents_aset_disjoint).
    assert (B1 : contents h1 (arr B) = contents h0 (arr B))
      by (by apply contents_aset_disjoint).
    assert (A2 : contents h2 (arr A) = contents h0 (arr A))
      by (unfold h2; by rewrite contents_aset_disjoint).
    assert (B2 : contents h2 (arr B) = contents h0 (arr B))
      by (unfold h2; by rewrite contents_aset_disjoint).
    split.
    + apply (frame_trans T h0 h1); [apply (writes_only_aset_const T) |].
      apply (frame_trans T h1 h2); [apply (writes_only_aset_const T) |].
      apply (frame_trans T h2 h3); [apply (writes_only_aset_const T) |].
      apply (writes_only_aset_const T).
    + rewrite contents_aset_same by done.
      unfold h3. rewrite contents_aset_same by done.
      rewrite !(rd_contents h2), A2, B2 by (by do 2 apply valid_aset).
      unfold h2. rewrite contents_aset_same by done.
      rewrite !(rd_contents h1), A1, B1 by (by apply valid_aset).
      unfold h1. rewrite contents_aset_same by done.
      rewrite !(rd_contents h0) by done.
      destruct (length4_inv (contents h0 T)) as (x0 & x1 & x2 & x3 & ->).
      { rewrite length_contents by done. unfold arr_length in Ol. lia. }
      reflexivity.
  - intros o h0 h' _ Hc E. rewrite E.
    rewrite !Hc; [done | |]; pick_elem.
Qed.

(** X25.  [cross3], with an output that overlaps neither operand or with
    none, returns a vector that holds the three differences of products
    of the cross product of the operands' first three components, each
    rounded when stored, and a zero; the operands are read after the
    output has been written and are left as they were. *)
Theorem cross3_components (A B : Matrix) (C : option Matrix) h :
  valid h (arr A) -> valid h (arr B) ->
  output_ok h C 1 [arr A; arr B] ->
  exists m h',
    cross3 A B C h = Ret m h'
    /\ contents h' (arr m) = cross3l (contents h (arr A)) (contents h (arr B))
    /\ contents h' (arr A) = contents h (arr A)
    /\ contents h' (arr B) = contents h (arr B)
    /\ output_of C m h h'.
Proof.
  intros VA VB Ok.
  destruct (cross3_out A B C h VA VB Ok) as (m & h' & E & O & P).
  exists m, h'. split; [done |]. split; [done |].
  split; [| split; [| done]];
    apply (output_of_keeps 1 [arr A; arr B] C m h h'); try done; pick_elem.
Qed.

End CrossProduct.

Section RealArithmetic.
Implicit Types (h : heap) (m : Matrix).

Ltac explicit16 a L :=
  destruct (@length16_inv RScalar a L) as
    (? & ? & ? & ? & ? & ? & ? & ? & ? & ? & ? & ? & ? & ? & ? & ? & ->).

(** Entry [(row, col)] of the result of [multiply], read off its
    characterisation [L]. *)
Ltac entry L row col :=
  let E := fresh "E" in
  pose proof (L row col ltac:(lia) ltac:(lia)) as E;
  run_R_in E; injection E as ->.







(** X24.  In real arithmetic the generic [multiply] and the kernel
    [multiply4x4_4x4] agree on 4x4 operands: called without an output,
    they return matrices with the same elements. *)
Theorem multiply_agrees_with_fast_kernel (A B : Matrix) h :
  valid4x4 h A -> valid4x4 h B ->
  exists m1 h1 m2 h2,
    multiply A B None h = Ret m1 h1
    /\ multiply4x4_4x4 A B None h = Ret m2 h2
    /\ contents h1 (arr m1) = contents h2 (arr m2).
Proof.
  intros [MA VA] [MB VB].
  pose proof MA as (Ar & Ac & Al). pose proof MB as (Br & Bc & Bl).
  destruct (multiply_out A B None h) as (m1 & h1 & E1 & W1 & R1 & C1 & L1 & O1);
    try done.
  { unfold wf_Matrix. lia. } { unfold wf_Matrix. lia. }
  { unfold cols, rows. lia. }
  destruct (multiply4x4_4x4_out A B None h) as (m2 & h2 & E2 & P2 & O2);
    try done.
  { by apply is_Matrix4x4_length. }
  exists m1, h1, m2, h2. do 2 (split; [done |]). rewrite P2.
  assert (Lm : length (contents h1 (arr m1)) = 16%nat).
  { rewrite length_contents by exact (proj1 O1).
    destruct W1 as (_ & _ & Lm).
    unfold rows, cols, arr_length in *. lia. }
  assert (La : length (contents h (arr A)) = 16%nat)
    by (rewrite length_contents by done; by apply is_Matrix4x4_length).
  assert (Lb : length (contents h (arr B)) = 16%nat)
    by (rewrite length_contents by done; by apply is_Matrix4x4_length).
  unfold rows, cols in L1. rewrite Ar, Ac, Bc, Br in L1.
  revert L1.
  generalize (contents h1 (arr m1)) Lm (contents h (arr A)) La
    (contents h (arr B)) Lb.
  clear. intros c Lc a La b Lb L.
  explicit16 a La. explicit16 b Lb. explicit16 c Lc.
  entry L 0 0; entry L 1 0; entry L 2 0; entry L 3 0.
  entry L 0 1; entry L 1 1; entry L 2 1; entry L 3 1.
  entry L 0 2; entry L 1 2; entry L 2 2; entry L 3 2.
  entry L 0 3; entry L 1 3; entry L 2 3; entry L 3 3.
  run_R. repeat (f_equal; try lra).
Qed.

End RealArithmetic.

Section RealMore.
Implicit Types (h : heap) (m : Matrix).

Lemma transposel_Rot (A : Axis.t) (theta : R) :
  transposel (Rot A theta) = Rot A (- theta)%R.
Proof.
  destruct A; run_R; rewrite cos_neg, sin_neg; repeat (f_equal; try lra).
Qed.

(** X26.  In real arithmetic, transposing in place the matrix that
    [get_rot_x], [get_rot_y] or [get_rot_z] builds for an angle gives the
    matrix that the same builder makes for the opposite angle: the
    transpose of an elemental rotation is its inverse. *)
Theorem transpose_of_rotation (theta : R) (out : Matrix) h :
  valid4x4 h out ->
  (exists h1 h2 h3,
     get_rot_x theta (Some out) h = Ret out h1
     /\ transpose4x4 out None h1 = Ret tt h2
     /\ get_rot_x (- theta)%R (Some out) h = Ret out h3
     /\ contents h2 (arr out) = contents h3 (arr out))
  /\ (exists h1 h2 h3,
        get_rot_y theta (Some out) h = Ret out h1
        /\ transpose4x4 out None h1 = Ret tt h2
        /\ get_rot_y (- theta)%R (Some out) h = Ret out h3
        /\ contents h2 (arr out) = contents h3 (arr out))
  /\ (exists h1 h2 h3,
        get_rot_z theta (Some out) h = Ret out h1
        /\ transpose4x4 out None h1 = Ret tt h2
        /\ get_rot_z (- theta)%R (Some out) h = Ret out h3
        /\ contents h2 (arr out) = contents h3 (arr out)).
Proof.
  intros V.
  assert (K : forall A : Axis.t,
            exists h1 h2 h3,
              @get_rot_axis RScalar A theta out h = Ret out h1
              /\ transpose4x4 out None h1 = Ret tt h2
              /\ @get_rot_axis RScalar A (- theta)%R out h = Ret out h3
              /\ contents h2 (arr out) = contents h3 (arr out)).
  { intros A.
    destruct (@get_rot_axis_spec RScalar A theta out h V) as (h1 & E1 & C1 & F1).
    destruct (transpose_in_place_spec out h1) as (h2 & E2 & C2 & _).
    { destruct V as [M Vo]. split; [done |]. by apply (frame_valid (arr out) h). }
    destruct (@get_rot_axis_spec RScalar A (- theta)%R out h V) as (h3 & E3 & C3 & F3).
    exists h1, h2, h3. do 3 (split; [done |]).
    rewrite C2, C1, C3. apply transposel_Rot. }
  split; [exact (K Axis.X) |]. split; [exact (K Axis.Y) | exact (K Axis.Z)].
Qed.



End RealMore.

(** ** Instances of the further properties *)

Section MoreInstances.

Ltac valid_here := eexists; split; [reflexivity | simpl; lia].
Ltac dims_here :=
  unfold wf_Matrix, is_Matrix4xN, is_Matrix4x4, is_Matrix4x1, arr_length;
  simpl; lia.
Ltac apart_here := left; simpl; lia.
Ltac camera_here :=
  unfold wf_Camera, valid4x4, is_Matrix4x4, view_disjoint;
  repeat split; try reflexivity; try (left; simpl; lia); valid_here.
(** The supplied output is [inv_tra] of [cam0]. *)
Ltac output_here :=
  intros o [= <-]; split; [dims_here |]; split; [reflexivity |];
  split; [valid_here |]; repeat (constructor; [apart_here |]); constructor.

Lemma get_reads_element_or_throws_witness :
  exists x,
    contents heap0 (arr (swp cam0)) !! Z.to_nat (1 + 1 * row_count (swp cam0))
    = Some x
    /\ get (swp cam0) 1 1 heap0 = Ret (widen x) heap0.
Proof.
  refine (proj1 (get_reads_element_or_throws (swp cam0) 1 1 heap0 _ _));
    [dims_here | valid_here].
Defined.

Lemma set_then_get_witness :
  exists h',
    @set RScalar (swp cam0) 1 1 5%R heap0 = Ret tt h'
    /\ get (swp cam0) 1 1 h' = Ret (widen (@fround RScalar 5%R)) h'
    /\ ((2, 3) <> (1, 1) ->
        exists x, get (swp cam0) 2 3 heap0 = Ret x heap0
                  /\ get (swp cam0) 2 3 h' = Ret x h')
    /\ frame (arr (swp cam0)) heap0 h'.
Proof.
  apply (@set_then_get RScalar (swp cam0) 1 1 2 3 5%R heap0);
    [dims_here | valid_here | reflexivity | reflexivity].
Defined.

Lemma set_all_then_get_witness :
  exists h' x,
    set_all vec4 (@JsArray RScalar [1; 2; 3; 4]%R) (heap_with [0; 0; 0; 0]) = Ret tt h'
    /\ contents h' (arr vec4) = @fround RScalar <$> [1; 2; 3; 4]%R
    /\ ([1; 2; 3; 4]%R : list (@num RScalar)) !! Z.to_nat (2 + 0 * row_count vec4) = Some x
    /\ get vec4 2 0 h' = Ret (widen (fround x)) h'
    /\ frame (arr vec4) (heap_with [0; 0; 0; 0]) h'.
Proof.
  apply (@set_all_then_get RScalar vec4 [1; 2; 3; 4]%R 2 0 (heap_with [0; 0; 0; 0]));
    [dims_here | valid_here | reflexivity | reflexivity].
Defined.

Lemma set_column_writes_column_witness :
  exists h',
    set_column (swp cam0) 2 (@JsArray RScalar [1; 2; 3; 4]%R) heap0 = Ret tt h'
    /\ contents h' (arr (swp cam0))
       = take (Z.to_nat (2 * row_count (swp cam0))) (contents heap0 (arr (swp cam0)))
         ++ (@fround RScalar <$> [1; 2; 3; 4]%R)
         ++ drop (Z.to_nat ((2 + 1) * row_count (swp cam0)))
                 (contents heap0 (arr (swp cam0)))
    /\ frame (arr (swp cam0)) heap0 h'.
Proof.
  apply (@set_column_writes_column RScalar (swp cam0) 2 [1; 2; 3; 4]%R heap0);
    [dims_here | valid_here | reflexivity | simpl; lia].
Defined.

Lemma getI4x4_outcome_witness :
  match getI4x4 (Some (arr (swp cam0))) heap0 with
  | Ret m h' =>
      is_Matrix4x4 m /\ contents h' (arr m) = I4
      /\ arr m = arr (swp cam0) /\ frame (arr (swp cam0)) heap0 h'
  | Throw msg h' =>
      h' = heap0
      /\ msg = "Provided view length does not fit matrix dims."%string
      /\ exists v, Some (arr (swp cam0)) = Some v /\ arr_length v <> 16
  end.
Proof.
  apply (getI4x4_outcome (Some (arr (swp cam0))) heap0).
  intros v [= <-]. valid_here.
Defined.

Lemma copy4xN_outcome_witness :
  match copy4xN (swp cam0) (Some (inv_tra cam0)) heap0 with
  | Ret m h' =>
      cols m = cols (swp cam0)
      /\ contents h' (arr m) = contents heap0 (arr (swp cam0))
      /\ output_of (Some (inv_tra cam0)) m heap0 h'
  | Throw msg h' =>
      h' = heap0 /\ msg = "Provided dst dims do not match src dims"%string
      /\ exists d, Some (inv_tra cam0) = Some d /\ cols d <> cols (swp cam0)
  end.
Proof.
  apply (copy4xN_outcome (swp cam0) (Some (inv_tra cam0)) heap0);
    [dims_here | valid_here |].
  intros d [= <-]. split; [dims_here |]. split; [valid_here | apart_here].
Defined.

Lemma copy4x4_copy4x1_outcome_witness :
  exists m h',
    copy4x4 (swp cam0) (Some (inv_tra cam0)) heap0 = Ret m h'
    /\ contents h' (arr m) = contents heap0 (arr (swp cam0))
    /\ output_of (Some (inv_tra cam0)) m heap0 h'.
Proof.
  refine (proj1 (copy4x4_copy4x1_outcome (swp cam0) (Some (inv_tra cam0)) heap0 _)
            _ _).
  - valid_here.
  - dims_here.
  - output_here.
Defined.

Lemma rotation_builders_outcome_witness :
  exists m h',
    get_rot_x PI (Some (inv_tra cam0)) heap0 = Ret m h'
    /\ contents h' (arr m) = Rot_x PI
    /\ output_of (Some (inv_tra cam0)) m heap0 h'.
Proof.
  refine (proj1 (rotation_builders_outcome PI (Some (inv_tra cam0)) heap0 _)).
  output_here.
Defined.

Lemma multiply4x4_4x4_product_witness :
  exists m h',
    multiply4x4_4x4 (swp cam0) (inv_rot cam0) (Some (inv_tra cam0)) heap0
    = Ret m h'
    /\ contents h' (arr m)
       = mmul (contents heap0 (arr (swp cam0))) (contents heap0 (arr (inv_rot cam0)))
    /\ contents h' (arr (swp cam0)) = contents heap0 (arr (swp cam0))
    /\ contents h' (arr (inv_rot cam0)) = contents heap0 (arr (inv_rot cam0))
    /\ output_of (Some (inv_tra cam0)) m heap0 h'.
Proof.
  apply (multiply4x4_4x4_product (swp cam0) (inv_rot cam0) (Some (inv_tra cam0))
           heap0); [valid_here | valid_here | reflexivity | output_here].
Defined.

Lemma multiply4x4_4xN_columns_witness :
  exists m h',
    multiply4x4_4xN (swp cam0) (inv_rot cam0) (Some (inv_tra cam0)) heap0
    = Ret m h'
    /\ cols m = cols (inv_rot cam0)
    /\ (forall k : nat, Z.of_nat k < cols (inv_rot cam0) ->
          column (contents h' (arr m)) k
          = mmul_vec (contents heap0 (arr (swp cam0)))
                     (column (contents heap0 (arr (inv_rot cam0))) k))
    /\ output_of (Some (inv_tra cam0)) m heap0 h'.
Proof.
  apply (multiply4x4_4xN_columns (swp cam0) (inv_rot cam0) (Some (inv_tra cam0))
           heap0); [valid_here | dims_here | valid_here | output_here].
Defined.

Lemma multiply4x4_4x1_product_witness :
  exists m h',
    multiply4x4_4x1 (swp cam0) vec4 None (heap_with [1; 2; 3; 1]) = Ret m h'
    /\ contents h' (arr m)
       = mmul_vec (contents (heap_with [1; 2; 3; 1]) (arr (swp cam0)))
                  (contents (heap_with [1; 2; 3; 1]) (arr vec4))
    /\ output_of None m (heap_with [1; 2; 3; 1]) h'.
Proof.
  apply (multiply4x4_4x1_product (swp cam0) vec4 None (heap_with [1; 2; 3; 1]));
    [valid_here | valid_here | intros o [=]].
Defined.

Lemma multiply_computes_product_witness :
  exists m h',
    multiply (swp cam0) (inv_rot cam0) (Some (inv_tra cam0)) heap0 = Ret m h'
    /\ rows m = rows (swp cam0) /\ cols m = cols (inv_rot cam0)
    /\ (forall row col,
          0 <= row < rows (swp cam0) -> 0 <= col < cols (inv_rot cam0) ->
          get m row col h'
          = Ret (widen (fround (mul_entry (contents heap0 (arr (swp cam0)))
                                  (contents heap0 (arr (inv_rot cam0)))
                                  (rows (swp cam0)) (rows (inv_rot cam0))
                                  (upto (cols (swp cam0))) row col))) h')
    /\ output_of (Some (inv_tra cam0)) m heap0 h'.
Proof.
  apply (multiply_computes_product (swp cam0) (inv_rot cam0)
           (Some (inv_tra cam0)) heap0);
    [dims_here | dims_here | valid_here | valid_here | reflexivity |].
  intros c [= <-]. split; [dims_here |]. do 2 (split; [reflexivity |]).
  split; [valid_here |]. split; apart_here.
Defined.

Lemma update_cam_transform_product_witness :
  exists h',
    update_cam_transform cam0 heap0 = Ret tt h'
    /\ contents h' (arr (camera_transform cam0))
       = mmul (contents heap0 (arr (inv_rot cam0)))
              (contents heap0 (arr (inv_tra cam0)))
    /\ frame (arr (camera_transform cam0)) heap0 h'
    /\ wf_Camera h' cam0.
Proof.
  apply (update_cam_transform_product cam0 heap0). camera_here.
Defined.

Lemma g_rot_l_rot_compose_witness :
  exists h',
    g_rot cam0 Axis.X PI heap0 = Ret tt h'
    /\ contents h' (arr (inv_rot cam0))
       = mmul (Rot Axis.X PI) (contents heap0 (arr (inv_rot cam0)))
    /\ contents h' (arr (inv_tra cam0)) = contents heap0 (arr (inv_tra cam0))
    /\ contents h' (arr (camera_transform cam0))
       = contents heap0 (arr (camera_transform cam0))
    /\ wf_Camera h' cam0.
Proof.
  refine (proj1 (g_rot_l_rot_compose cam0 Axis.X PI heap0 _)). camera_here.
Defined.

Lemma set_pos_translation_witness :
  let p := contents (heap_with [1; 2; 3; 1]) (arr vec4) in
  exists h',
    set_pos cam0 vec4 (heap_with [1; 2; 3; 1]) = Ret tt h'
    /\ contents h' (arr (inv_tra cam0))
       = take 12 (contents (heap_with [1; 2; 3; 1]) (arr (inv_tra cam0)))
         ++ [fround (- rdl p 0)%num; fround (- rdl p 1)%num;
             fround (- rdl p 2)%num; fround (of_Z 1)]
    /\ contents h' (arr (inv_rot cam0))
       = contents (heap_with [1; 2; 3; 1]) (arr (inv_rot cam0))
    /\ contents h' (arr (camera_transform cam0))
       = contents (heap_with [1; 2; 3; 1]) (arr (camera_transform cam0))
    /\ contents h' (arr vec4) = contents (heap_with [1; 2; 3; 1]) (arr vec4)
    /\ wf_Camera h' cam0.
Proof.
  apply (set_pos_translation cam0 vec4 (heap_with [1; 2; 3; 1]));
    [camera_here | valid_here | apart_here].
Defined.





Lemma multiply_agrees_with_fast_kernel_witness :
  exists m1 h1 m2 h2,
    multiply (swp cam0) (inv_rot cam0) None heap0 = Ret m1 h1
    /\ multiply4x4_4x4 (swp cam0) (inv_rot cam0) None heap0 = Ret m2 h2
    /\ contents h1 (arr m1) = contents h2 (arr m2).
Proof.
  apply (multiply_agrees_with_fast_kernel (swp cam0) (inv_rot cam0) heap0);
    (split; [dims_here | valid_here]).
Defined.

Lemma cross3_components_witness :
  exists m h',
    cross3 (swp cam0) vec4 None (heap_with [1; 2; 3; 0]) = Ret m h'
    /\ contents h' (arr m)
       = cross3l (contents (heap_with [1; 2; 3; 0]) (arr (swp cam0)))
                 (contents (heap_with [1; 2; 3; 0]) (arr vec4))
    /\ contents h' (arr (swp cam0))
       = contents (heap_with [1; 2; 3; 0]) (arr (swp cam0))
    /\ contents h' (arr vec4) = contents (heap_with [1; 2; 3; 0]) (arr vec4)
    /\ output_of None m (heap_with [1; 2; 3; 0]) h'.
Proof.
  apply (cross3_components (swp cam0) vec4 None (heap_with [1; 2; 3; 0]));
    [valid_here | valid_here | intros o [=]].
Defined.

Lemma transpose_of_rotation_witness :
  exists h1 h2 h3,
    get_rot_x 1%R (Some (swp cam0)) heap0 = Ret (swp cam0) h1
    /\ transpose4x4 (swp cam0) None h1 = Ret tt h2
    /\ get_rot_x (- 1)%R (Some (swp cam0)) heap0 = Ret (swp cam0) h3
    /\ contents h2 (arr (swp cam0)) = contents h3 (arr (swp cam0)).
Proof.
  refine (proj1 (transpose_of_rotation 1%R (swp cam0) heap0 _)).
  split; [dims_here | valid_here].
Defined.


End MoreInstances.

